(** * WebMidi: event dispatch and per-channel MIDI message parsing

    A shallow embedding of
    - [EventEmitter] and [Listener] (src/typescript/EventEmitter.ts,
      src/typescript/build/Listener.js),
    - [InputChannel] (the JavaScript source of the channel parser),
    - [Note] (its TypeScript source, src/unnamed/part_004),
    - the [octaveOffset] setter and the port lookups of [WebMidi]
      (src/typescript/WebMidi.ts),
    followed by the properties established about them. *)

From Stdlib Require Import ZArith QArith Qround Ascii String Lia.
From Stdlib Require PrimFloat SpecFloat FloatOps Uint63.
From stdpp Require Import base option list strings pretty gmap.

#[local] Open Scope string_scope.
#[local] Open Scope Z_scope.

(** ** JavaScript values, completions and the few built-ins the code uses *)

Module Js.

(** The error classes the code throws or the engine raises. *)
Inductive ErrorKind := TypeError | RangeError | ReferenceError | Error.

(** A statement either completes normally or throws. *)
Inductive Completion (A : Type) :=
| Normal (a : A)
| Throw (k : ErrorKind).
Arguments Normal {A} a.
Arguments Throw {A} k.

#[export] Instance Completion_ret : MRet Completion := fun _ a => Normal a.
#[export] Instance Completion_bind : MBind Completion := fun _ _ f m =>
  match m with
  | Normal a => f a
  | Throw k => Throw k
  end.
#[export] Instance Completion_fmap : FMap Completion := fun _ _ f m =>
  match m with
  | Normal a => Normal (f a)
  | Throw k => Throw k
  end.

(** Values handed in by calling code.  Numbers are the integers, [NaN]
    and the two infinities; [JInt n] stands for a safe integer (below
    2^53 in magnitude), whose decimal string has no exponent.  [JObject]
    is a reference to a plain object. *)
Inductive JsVal :=
| JUndefined
| JNull
| JBool (b : bool)
| JInt (n : Z)
| JNaN
| JInfinity (negative : bool)
| JString (s : string)
| JObject (ref : nat).

#[export] Instance JsVal_eq_dec : EqDecision JsVal.
Proof. solve_decision. Defined.

(** ToBoolean *)
Definition truthy (v : JsVal) : bool :=
  match v with
  | JUndefined | JNull | JNaN => false
  | JBool b => b
  | JInt n => negb (n =? 0)
  | JInfinity _ => true
  | JString s => negb (String.eqb s "")
  | JObject _ => true
  end.

(** ToString *)
Definition ToString (v : JsVal) : string :=
  match v with
  | JUndefined => "undefined"
  | JNull => "null"
  | JBool true => "true"
  | JBool false => "false"
  | JInt n => pretty n
  | JNaN => "NaN"
  | JInfinity false => "Infinity"
  | JInfinity true => "-Infinity"
  | JString s => s
  | JObject _ => "[object Object]"
  end.

(** ToNumber, on the values that are not strings or objects. *)
Definition ToNumber (v : JsVal) : JsVal :=
  match v with
  | JUndefined => JNaN
  | JNull => JInt 0
  | JBool true => JInt 1
  | JBool false => JInt 0
  | JInt _ | JNaN | JInfinity _ => v
  | JString _ | JObject _ => JNaN
  end.

Definition isStringLike (v : JsVal) : bool :=
  match v with
  | JString _ | JObject _ => true
  | _ => false
  end.

(** The binary [+]: concatenation as soon as one operand is a string (or
    an object, whose primitive is a string), numeric addition otherwise. *)
Definition add (a b : JsVal) : JsVal :=
  if isStringLike a || isStringLike b
  then JString (ToString a +:+ ToString b)
  else
    match ToNumber a, ToNumber b with
    | JInt x, JInt y => JInt (x + y)
    | JInfinity s, JInfinity s' => if Bool.eqb s s' then JInfinity s else JNaN
    | JInfinity s, JInt _ | JInt _, JInfinity s => JInfinity s
    | _, _ => JNaN
    end.

(** *** parseInt *)

Definition isWhiteSpace (c : ascii) : bool :=
  let n := Z.of_nat (nat_of_ascii c) in
  ((9 <=? n) && (n <=? 13)) || (n =? 32).

Fixpoint skipWhiteSpace (s : string) : string :=
  match s with
  | String c rest => if isWhiteSpace c then skipWhiteSpace rest else s
  | EmptyString => s
  end.

Definition digitValue (c : ascii) : option Z :=
  let n := Z.of_nat (nat_of_ascii c) in
  if (48 <=? n) && (n <=? 57) then Some (n - 48)
  else if (97 <=? n) && (n <=? 122) then Some (n - 87)
  else if (65 <=? n) && (n <=? 90) then Some (n - 55)
  else None.

(** The longest prefix of digits of the radix; [None] when it is empty. *)
Fixpoint parseDigits (radix : Z) (s : string) (acc : option Z) : option Z :=
  match s with
  | EmptyString => acc
  | String c rest =>
      match digitValue c with
      | Some d =>
          if d <? radix
          then parseDigits radix rest (Some (default 0 acc * radix + d))
          else acc
      | None => acc
      end
  end.

Definition parseIntString (s : string) : option Z :=
  let s1 := skipWhiteSpace s in
  let '(sign, s2) :=
    match s1 with
    | String "-"%char r => (-1, r)
    | String "+"%char r => (1, r)
    | _ => (1, s1)
    end in
  let '(radix, s3) :=
    match s2 with
    | String "0"%char (String "x"%char r)
    | String "0"%char (String "X"%char r) => (16, r)
    | _ => (10, s2)
    end in
  Z.mul sign <$> parseDigits radix s3 None.

(** [parseInt(value)] with no radix; [None] is [NaN]. *)
Definition parseInt (v : JsVal) : option Z := parseIntString (ToString v).

(** The value of the expression [parseInt(value)]. *)
Definition parseIntVal (v : JsVal) : JsVal :=
  match parseInt v with
  | Some n => JInt n
  | None => JNaN
  end.

(** [isNaN] on a result of [parseInt]. *)
Definition isNaN (v : JsVal) : bool :=
  match ToNumber v with
  | JNaN => true
  | _ => false
  end.

(** *** Numbers computed from MIDI data: rationals, [NaN], infinities *)

Inductive Number :=
| Fin (q : Q)
| PosInf
| NegInf
| NaN.

(** A data byte read from an array: [None] is [undefined] (index out of
    range). *)
Definition ofByte (b : option Z) : Number :=
  match b with
  | Some z => Fin (inject_Z z)
  | None => NaN
  end.

(** ToInt32 of an integer, the wrap-around written out. *)
Definition toInt32 (z : Z) : Z :=
  let m := z mod 2 ^ 32 in
  if m <? 2 ^ 31 then m else m - 2 ^ 32.

(** [a << k] on a data byte: [undefined] converts to 0. *)
Definition shl (a : option Z) (k : Z) : Z :=
  toInt32 (Z.shiftl (toInt32 (default 0 a)) (Z.land k 31)).

(** [n + b] for an integer [n] and a data byte [b]. *)
Definition addByte (n : Z) (b : option Z) : Number :=
  match b with
  | Some z => Fin (inject_Z (n + z))
  | None => NaN
  end.

Definition sub (a : Number) (z : Z) : Number :=
  match a with
  | Fin q => Fin (Qred (q - inject_Z z))
  | other => other
  end.

(** Division by a positive integer constant. *)
Definition div (a : Number) (z : Z) : Number :=
  match a with
  | Fin q => Fin (Qred (q / inject_Z z))
  | other => other
  end.

(** What an event property can hold. *)
Inductive Payload :=
| PUndefined
| PBool (b : bool)
| PNumber (n : Number).

Definition byteProperty (b : option Z) : Payload :=
  match b with
  | Some z => PNumber (Fin (inject_Z z))
  | None => PUndefined
  end.

(** *** Objects made by [{}] *)

(** The properties of [Object.prototype], as ECMAScript defines them
    (Annex B included).  An object made by [{}] answers for these names
    with the inherited value as long as it has no property of its own by
    that name: a function, given here by its [length], or for [__proto__]
    the prototype itself, which has no [length]. *)
Definition Object_prototype : list (string * option nat) :=
  [("constructor", Some 1%nat); ("hasOwnProperty", Some 1%nat);
   ("isPrototypeOf", Some 1%nat); ("propertyIsEnumerable", Some 1%nat);
   ("toLocaleString", Some 0%nat); ("toString", Some 0%nat);
   ("valueOf", Some 0%nat); ("__proto__", None);
   ("__defineGetter__", Some 2%nat); ("__defineSetter__", Some 2%nat);
   ("__lookupGetter__", Some 1%nat); ("__lookupSetter__", Some 1%nat)].

End Js.
Import Js.

(** ** Utilities *)

Module Utilities.

(** [Math.min(Math.max(x, lo), hi)] *)
Definition clamp (lo hi x : Q) : Q :=
  let m := if Qle_bool lo x then x else lo in
  if Qle_bool m hi then m else hi.

(** Modelled from the spec: [Utilities.from7bitToFloat] (called
    [Utilities.toNormalized] by the channel parser) is only declared under
    src/.  It returns [clamp(v,0,127)/127]; [+Infinity] gives 1,
    [-Infinity] gives 0 and a non-numeric input gives 0. *)
Definition from7bitToFloat (v : Number) : Q :=
  match v with
  | Fin q => Qred (clamp 0 127 q / 127)
  | PosInf => 1
  | NegInf => 0
  | NaN => 0
  end.

(** Modelled from the spec: [Utilities.toNormalized], the name under
    which the channel parser calls the conversion above; it is not under
    src/. *)
Definition toNormalized : Number -> Q := from7bitToFloat.

(** [Math.round]: the nearest integer, halves going up. *)
Definition round (x : Q) : Z := Qfloor (x + (1 # 2)).

(** Modelled from the spec: [Utilities.fromFloatTo7Bit] is only declared
    under src/.  It returns [round(clamp(v,0,1) * 127)], with the same
    handling of the infinities and of non-numeric input, in the inverse
    direction. *)
Definition fromFloatTo7Bit (v : Number) : Z :=
  match v with
  | Fin q => round (clamp 0 1 q * 127)
  | PosInf => 127
  | NegInf => 0
  | NaN => 0
  end.

(** Modelled from the spec: [Utilities.getPropertyByValue] is only
    declared under src/.  It returns the name of the first property of the
    object whose value equals the one supplied, [undefined] when there is
    none.  The object is the ordered list of its properties. *)
Fixpoint getPropertyByValue (object : list (string * Z)) (value : Z)
  : option string :=
  match object with
  | [] => None
  | (name, v) :: rest =>
      if v =? value then Some name else getPropertyByValue rest value
  end.

(** Modelled from the spec: [Utilities.offsetNumber] is only declared
    under src/.  It returns the note number offset by the octave offset,
    0 when the result is below 0 and 127 when it is above 127; an invalid
    offset counts as 0, an invalid note number throws an [Error]. *)
Definition offsetNumber (number : option Z) (octaveOffset : JsVal)
  : Completion Z :=
  match number with
  | Some n =>
      let offset := default 0 (parseInt octaveOffset) in
      Normal (Z.min (Z.max (n + offset * 12) 0) 127)
  | None => Throw Error
  end.

(** The twelve note names of an octave, from C. *)
Definition noteNames : list string :=
  ["C"; "C#"; "D"; "D#"; "E"; "F"; "F#"; "G"; "G#"; "A"; "A#"; "B"].

(** Modelled from the spec: [Utilities.toNoteIdentifier] is only declared
    under src/.  The identifier is the note name followed by the octave,
    middle C (60) being C4, the octave shifted by the offset; an invalid
    note number or offset throws a [RangeError]. *)
Definition toNoteIdentifier (number : option Z) (octaveOffset : JsVal)
  : Completion (string * Z) :=
  match number, parseInt octaveOffset with
  | Some n, Some offset =>
      if (0 <=? n) && (n <=? 127)
      then Normal (default "" (noteNames !! Z.to_nat (n mod 12)),
                   n / 12 - 1 + offset)
      else Throw RangeError
  | _, _ => Throw RangeError
  end.

(** The position of a note name within its octave. *)
Definition semitones (name : string) : Z :=
  default 0 (Z.of_nat <$> (fst <$> list_find (eq name) noteNames)).

(** Modelled from the spec: [Utilities.toNoteNumber] is only declared
    under src/.  It returns the MIDI number (0 to 127) of an identifier,
    C4 being 60. *)
Definition toNoteNumber (identifier : string * Z) : Completion Z :=
  let n := (identifier.2 + 1) * 12 + semitones identifier.1 in
  if (0 <=? n) && (n <=? 127) then Normal n else Throw RangeError.

(** The identifier as a string: the name, then the octave. *)
Definition identifierString (identifier : string * Z) : string :=
  identifier.1 +:+ pretty identifier.2.

End Utilities.

(** ** The two conversions on binary64 numbers *)

Module Binary64.

Import PrimFloat SpecFloat FloatOps.

(** The number of a data byte. *)
Definition ofByte (v : Z) : float := PrimFloat.of_uint63 (Uint63.of_Z v).

(** [Math.min(Math.max(x, lo), hi)] on numbers that are not [NaN]. *)
Definition clamp (lo hi x : float) : float :=
  let m := if PrimFloat.ltb x lo then lo else x in
  if PrimFloat.ltb hi m then hi else m.

(** The rational a finite binary64 number stands for. *)
Definition valueOf (x : float) : option Q :=
  match Prim2SF x with
  | S754_zero _ => Some 0%Q
  | S754_finite negative m e =>
      let z := if negative then Z.neg m else Z.pos m in
      Some (if 0 <=? e then inject_Z (z * 2 ^ e)
            else (z # 2 ^ Z.to_pos (- e))%Q)
  | _ => None
  end.

(** Modelled from the spec: [Utilities.from7bitToFloat] as
    [clamp(v,0,127)/127], the division being that of binary64. *)
Definition from7bitToFloat (v : float) : float :=
  PrimFloat.div (clamp 0 127 v) 127.

(** Modelled from the spec: [Utilities.fromFloatTo7Bit] as
    [round(clamp(v,0,1) * 127)], the product being that of binary64 and
    [Math.round] rounding its exact value. *)
Definition fromFloatTo7Bit (v : float) : Z :=
  match valueOf (PrimFloat.mul (clamp 0 1 v) 127) with
  | Some q => Utilities.round q
  | None => 0
  end.

End Binary64.

(** ** The library-wide singleton, as the channel parser reads it *)

Module WebMidi.

(** [MIDI_CONTROL_CHANGE_MESSAGES] is not defined under src/: the table of
    control change names and numbers is carried as a field, in property
    order. *)
Record t := {
  validation : bool;
  _octaveOffset : JsVal;
  MIDI_CONTROL_CHANGE_MESSAGES : list (string * Z);
}.

Definition octaveOffset (this : t) : JsVal := _octaveOffset this.

(** [set octaveOffset(arg)].  The body reads and assigns the identifier
    [value], which the setter does not declare (its parameter is [arg]):
    the identifier resolves outside the function, [scope] being the
    binding found there, [None] when there is none.  Reading an unbound
    identifier throws a [ReferenceError].  The result carries the binding
    as the assignment [value = parseInt(value)] leaves it. *)
Definition set_octaveOffset (this : t) (arg : JsVal) (scope : option JsVal)
  : Completion (t * option JsVal) :=
  if validation this then
    match scope with
    | None => Throw ReferenceError
    | Some value =>
        let value := parseIntVal value in
        if isNaN value then Throw TypeError
        else Normal ({| validation := validation this;
                        _octaveOffset := value;
                        MIDI_CONTROL_CHANGE_MESSAGES :=
                          MIDI_CONTROL_CHANGE_MESSAGES this |},
                     Some value)
    end
  else
    match scope with
    | None => Throw ReferenceError
    | Some value =>
        Normal ({| validation := validation this;
                   _octaveOffset := value;
                   MIDI_CONTROL_CHANGE_MESSAGES :=
                     MIDI_CONTROL_CHANGE_MESSAGES this |},
                Some value)
    end.

End WebMidi.

(** ** Messages, notes and events *)

Module Message.

(** The fields of a [Message] the parser reads.  [type] is [None] when
    the property is [undefined]; [data] holds every byte of the message,
    [dataBytes] the bytes after the status byte. *)
Record t := {
  type : option string;
  data : list Z;
  dataBytes : list Z;
}.

(** Modelled from the spec: the [Message] constructor is only declared
    under src/.  The type of a message comes from the top nibble of its
    status byte (8 noteoff, 9 noteon, A keyaftertouch, B controlchange,
    C programchange, D channelaftertouch, E pitchbend), any other nibble
    decoding to "unknownmessage"; the data bytes are the bytes after the
    status byte. *)
Definition new (bytes : list Z) : t :=
  {| type :=
       status ← bytes !! 0%nat;
       Some (match Z.shiftr status 4 with
             | 8 => "noteoff"
             | 9 => "noteon"
             | 10 => "keyaftertouch"
             | 11 => "controlchange"
             | 12 => "programchange"
             | 13 => "channelaftertouch"
             | 14 => "pitchbend"
             | _ => "unknownmessage"
             end);
     data := bytes;
     dataBytes := tail bytes |}.

End Message.

Module Note.

(** The [Note] class (src/unnamed/part_004): the private fields its
    setters assign, [PUndefined] and [None] while unassigned. *)
Record t := {
  _accidental : option string;
  _attack : Payload;
  _duration : Payload;
  _name : option string;
  _octave : Payload;
  _release : Payload;
}.

(** The object before the constructor has assigned anything. *)
Definition blank : t :=
  {| _accidental := None; _attack := PUndefined; _duration := PUndefined;
     _name := None; _octave := PUndefined; _release := PUndefined |}.

(** The [options] of the constructor; [None] is a property that is
    [undefined]. *)
Record Options := {
  opt_duration : option Number;
  opt_attack : option Number;
  opt_release : option Number;
  opt_rawAttack : option Z;
  opt_rawRelease : option Z;
}.

(** [WebMidi.defaults.note] (WebMidi.ts, the constructor): the duration
    is [Infinity], attack and release are the velocity 64 scaled. *)
Definition defaultDuration : Number := PosInf.
Definition defaultVelocity : Number := Fin (Utilities.from7bitToFloat (Fin 64)).

(** *** The setters

    Every setter of the class names its parameter [arg] and reads the
    identifier [value] in its body.  Nothing declares [value]: not the
    setter, not the class, not the module, and no file under src/ defines
    a global of that name.  Evaluating it throws a [ReferenceError],
    before the setter has assigned anything. *)

(** [set duration(arg)]: with validation the first statement is
    [value = parseFloat(value)], without it [this._duration = value]. *)
Definition set_duration (wm : WebMidi.t) (arg : Number) (this : t)
  : Completion t :=
  if WebMidi.validation wm then Throw ReferenceError
  else Throw ReferenceError.

(** [set attack(arg)]: [value = parseFloat(value)], or
    [this._attack = value]. *)
Definition set_attack (wm : WebMidi.t) (arg : Number) (this : t)
  : Completion t :=
  if WebMidi.validation wm then Throw ReferenceError
  else Throw ReferenceError.

(** [set release(arg)]: [value = parseFloat(value)], or
    [this._release = value]. *)
Definition set_release (wm : WebMidi.t) (arg : Number) (this : t)
  : Completion t :=
  if WebMidi.validation wm then Throw ReferenceError
  else Throw ReferenceError.

(** [set identifier(arg)]: the first statement is
    [const fragments = Utilities.getNoteDetails(value)]. *)
Definition set_identifier (wm : WebMidi.t) (arg : string * Z) (this : t)
  : Completion t :=
  Throw ReferenceError.

(** *** The constructor *)

(** An assignment the constructor makes when the option is given. *)
Definition whenGiven {A} (option : option A) (set : A -> t -> Completion t)
  (this : t) : Completion t :=
  match option with
  | Some a => set a this
  | None => Normal this
  end.

(** [new Note(value, options)] for a note number; [options] is [None]
    when the argument is [undefined].  The defaults are assigned through
    the setters before [options] is read. *)
Definition new (wm : WebMidi.t) (value : Z) (options : option Options)
  : Completion t :=
  this ← set_duration wm defaultDuration blank;
  this ← set_attack wm defaultVelocity this;
  this ← set_release wm defaultVelocity this;
  match options with
  | None => Throw TypeError
  | Some o =>
      let scaled (raw : Z) := Fin (Utilities.from7bitToFloat (Fin (inject_Z raw))) in
      this ← whenGiven (opt_duration o) (set_duration wm) this;
      this ← whenGiven (opt_attack o) (set_attack wm) this;
      this ← whenGiven (scaled <$> opt_rawAttack o) (set_attack wm) this;
      this ← whenGiven (opt_release o) (set_release wm) this;
      this ← whenGiven (scaled <$> opt_rawRelease o) (set_release wm) this;
      (* Utilities.toNoteIdentifier(value), without an octave offset *)
      identifier ← Utilities.toNoteIdentifier (Some value) (JInt 0);
      set_identifier wm identifier this
  end.

(** *** The getters the channel parser reads *)

Definition attack (n : t) : Payload := _attack n.
Definition release (n : t) : Payload := _release n.

(** The number a property holds, for [Utilities.fromFloatTo7Bit]. *)
Definition numeric (p : Payload) : Number :=
  match p with
  | PNumber n => n
  | PBool true => Fin 1
  | PBool false => Fin 0
  | PUndefined => NaN
  end.

Definition rawAttack (n : t) : Z := Utilities.fromFloatTo7Bit (numeric (_attack n)).
Definition rawRelease (n : t) : Z := Utilities.fromFloatTo7Bit (numeric (_release n)).

End Note.

Module Event.

Record Controller := {
  number : option Z;
  name : option string;
}.

(** Who dispatched the event: the input that received the bytes, or the
    channel of the given number. *)
Inductive Target := OfInput | OfChannel (number : Z).

(** An event object: the properties of the incoming event and those the
    parser adds.  A property that was never assigned is [None] or
    [PUndefined]. *)
Record t := {
  type : option string;
  target : Target;
  message : Message.t;
  timestamp : Q;
  note : option Note.t;
  value : Payload;
  rawValue : Payload;
  velocity : Payload;
  rawVelocity : Payload;
  controller : option Controller;
  identifier : option (string * Z);
  key : Payload;
  rawKey : Payload;
}.

(** The event an input hands to its channel. *)
Definition incoming (m : Message.t) (time : Q) : t :=
  {| type := Some "midimessage"; target := OfInput; message := m;
     timestamp := time; note := None; value := PUndefined;
     rawValue := PUndefined; velocity := PUndefined;
     rawVelocity := PUndefined; controller := None; identifier := None;
     key := PUndefined; rawKey := PUndefined |}.

Definition with_type (ty : option string) (e : t) : t :=
  {| type := ty; target := target e; message := message e;
     timestamp := timestamp e; note := note e; value := value e;
     rawValue := rawValue e; velocity := velocity e;
     rawVelocity := rawVelocity e; controller := controller e;
     identifier := identifier e; key := key e; rawKey := rawKey e |}.

Definition with_target (tg : Target) (e : t) : t :=
  {| type := type e; target := tg; message := message e;
     timestamp := timestamp e; note := note e; value := value e;
     rawValue := rawValue e; velocity := velocity e;
     rawVelocity := rawVelocity e; controller := controller e;
     identifier := identifier e; key := key e; rawKey := rawKey e |}.

Definition with_note (n : Note.t) (e : t) : t :=
  {| type := type e; target := target e; message := message e;
     timestamp := timestamp e; note := Some n; value := value e;
     rawValue := rawValue e; velocity := velocity e;
     rawVelocity := rawVelocity e; controller := controller e;
     identifier := identifier e; key := key e; rawKey := rawKey e |}.

Definition with_value (v raw : Payload) (e : t) : t :=
  {| type := type e; target := target e; message := message e;
     timestamp := timestamp e; note := note e; value := v;
     rawValue := raw; velocity := velocity e;
     rawVelocity := rawVelocity e; controller := controller e;
     identifier := identifier e; key := key e; rawKey := rawKey e |}.

Definition with_velocity (v raw : Payload) (e : t) : t :=
  {| type := type e; target := target e; message := message e;
     timestamp := timestamp e; note := note e; value := value e;
     rawValue := rawValue e; velocity := v;
     rawVelocity := raw; controller := controller e;
     identifier := identifier e; key := key e; rawKey := rawKey e |}.

Definition with_controller (c : Controller) (e : t) : t :=
  {| type := type e; target := target e; message := message e;
     timestamp := timestamp e; note := note e; value := value e;
     rawValue := rawValue e; velocity := velocity e;
     rawVelocity := rawVelocity e; controller := Some c;
     identifier := identifier e; key := key e; rawKey := rawKey e |}.

Definition with_key (id : string * Z) (k raw : Payload) (e : t) : t :=
  {| type := type e; target := target e; message := message e;
     timestamp := timestamp e; note := note e; value := value e;
     rawValue := rawValue e; velocity := velocity e;
     rawVelocity := rawVelocity e; controller := controller e;
     identifier := Some id; key := k; rawKey := raw |}.

End Event.

(** ** InputChannel *)

Module Input.

(** The one property of the parent [Input] the channel reads. *)
Record t := {
  octaveOffset : JsVal;
}.

End Input.

Module InputChannel.

(** The channel object.  [validation] is the property [this.validation]
    that the setter of [octaveOffset] reads: neither the class nor the
    emitter it extends defines it, the constructor leaves it
    [undefined]. *)
Record t := {
  _input : Input.t;
  _number : Z;
  _octaveOffset : JsVal;
  validation : JsVal;
}.

Definition constructor (input : Input.t) (number : Z) : t :=
  {| _input := input; _number := number; _octaveOffset := JInt 0;
     validation := JUndefined |}.

Definition octaveOffset (this : t) : JsVal := _octaveOffset this.
Definition input (this : t) : Input.t := _input this.

(** [set octaveOffset(value)] *)
Definition set_octaveOffset (this : t) (value : JsVal) : Completion t :=
  let store v :=
    {| _input := _input this; _number := _number this;
       _octaveOffset := v; validation := validation this |} in
  if truthy (validation this) then
    let value := parseIntVal value in
    if isNaN value then Throw TypeError
    else Normal (store value)
  else Normal (store value).

(** *** Emitting: the calls to [this.emit], in order, then the outcome *)

Definition Emitting (A : Type) : Type := list Event.t * Completion A.

Definition pure {A} (a : A) : Emitting A := ([], Normal a).

Definition bind {A B} (m : Emitting A) (f : A -> Emitting B) : Emitting B :=
  match m with
  | (out, Normal a) => let '(out', r) := f a in ((out ++ out')%list, r)
  | (out, Throw k) => (out, Throw k)
  end.

Definition lift {A} (c : Completion A) : Emitting A := ([], c).

Notation "x <- m ;; k" := (bind m (fun x => k))
  (at level 100, m at next level, right associativity).

(** [this.emit(event.type, event)]: the emitter refuses an event name
    that is not a string. *)
Definition emit (e : Event.t) : Emitting unit :=
  match Event.type e with
  | Some _ => ([e], Normal tt)
  | None => ([], Throw TypeError)
  end.

(** The names of the emitted events. *)
Definition names {A} (m : Emitting A) : list string :=
  omap Event.type m.1.

(** *** getCcNameByNumber *)

Definition getCcNameByNumber (wm : WebMidi.t) (number : option Z)
  : Completion (option string) :=
  if WebMidi.validation wm then
    match number with
    | Some n =>
        if (0 <=? n) && (n <=? 127)
        then Normal (Utilities.getPropertyByValue
                       (WebMidi.MIDI_CONTROL_CHANGE_MESSAGES wm) n)
        else Throw RangeError
    | None => Throw RangeError
    end
  else
    Normal (n ← number;
            Utilities.getPropertyByValue
              (WebMidi.MIDI_CONTROL_CHANGE_MESSAGES wm) n).

(** *** _parseChannelModeMessage *)

Definition _parseChannelModeMessage (e : Event.t) : Emitting unit :=
  let event := Event.with_type (Event.controller e ≫= Event.name) e in
  let event :=
    if bool_decide (Event.type event = Some "localcontrol")
    then Event.with_value
           (PBool (bool_decide (Message.data (Event.message event) !! 2%nat
                                = Some 127)))
           (Event.rawValue event) event
    else event in
  let event :=
    if bool_decide (Event.type event = Some "omnimodeon")
    then Event.with_value (PBool true) (Event.rawValue event)
           (Event.with_type (Some "omnimode") event)
    else if bool_decide (Event.type event = Some "omnimodeoff")
    then Event.with_value (PBool false) (Event.rawValue event)
           (Event.with_type (Some "omnimode") event)
    else event in
  let event :=
    if bool_decide (Event.type event = Some "monomodeon")
    then Event.with_value (PBool true) (Event.rawValue event)
           (Event.with_type (Some "monomode") event)
    else if bool_decide (Event.type event = Some "polymodeon")
    then Event.with_value (PBool false) (Event.rawValue event)
           (Event.with_type (Some "monomode") event)
    else event in
  emit event.

(** *** _parseEventForStandardMessages *)

(** [this.octaveOffset + this.input.octaveOffset + WebMidi.octaveOffset] *)
Definition offsetFromChannel (wm : WebMidi.t) (this : t) : JsVal :=
  Js.add (Js.add (octaveOffset this) (Input.octaveOffset (input this)))
    (WebMidi.octaveOffset wm).

(** [WebMidi.octaveOffset + this.input.octaveOffset + this.octaveOffset] *)
Definition offsetFromGlobal (wm : WebMidi.t) (this : t) : JsVal :=
  Js.add (Js.add (WebMidi.octaveOffset wm) (Input.octaveOffset (input this)))
    (octaveOffset this).

Definition _parseEventForStandardMessages
  (wm : WebMidi.t) (this : t) (e : Event.t) : Emitting unit :=
  let type :=
    match Message.type (Event.message e) with
    | Some s => if String.eqb s "" then "unknownmidimessage" else s
    | None => "unknownmidimessage"
    end in
  let event := Event.with_type (Some type) e in
  let data1 := Message.dataBytes (Event.message e) !! 0%nat in
  let data2 := Message.dataBytes (Event.message e) !! 1%nat in
  event <-
    (if String.eqb type "noteoff"
        || (String.eqb type "noteon" && bool_decide (data2 = Some 0))
     then
       number <- lift (Utilities.offsetNumber data1
                         (offsetFromChannel wm this)) ;;
       note <- lift (Note.new wm number
                       (Some {| Note.opt_duration := None;
                                Note.opt_attack := None;
                                Note.opt_release := None;
                                Note.opt_rawAttack := Some 0;
                                Note.opt_rawRelease := data2 |})) ;;
       let event := Event.with_note note event in
       let event :=
         Event.with_value (PNumber (Fin (Utilities.toNormalized (ofByte data2))))
           (byteProperty data2) event in
       pure (Event.with_velocity
               (Note.release note)
               (PNumber (Fin (inject_Z (Note.rawRelease note)))) event)
     else if String.eqb type "noteon" then
       number <- lift (Utilities.offsetNumber data1
                         (offsetFromChannel wm this)) ;;
       note <- lift (Note.new wm number
                       (Some {| Note.opt_duration := None;
                                Note.opt_attack := None;
                                Note.opt_release := None;
                                Note.opt_rawAttack := data2;
                                Note.opt_rawRelease := None |})) ;;
       let event := Event.with_note note event in
       let event :=
         Event.with_value (PNumber (Fin (Utilities.toNormalized (ofByte data2))))
           (byteProperty data2) event in
       pure (Event.with_velocity
               (Note.attack note)
               (PNumber (Fin (inject_Z (Note.rawAttack note)))) event)
     else if String.eqb type "keyaftertouch" then
       identifier <- lift (Utilities.toNoteIdentifier data1
                             (offsetFromGlobal wm this)) ;;
       key <- lift (Utilities.toNoteNumber identifier) ;;
       let event :=
         Event.with_key identifier (PNumber (Fin (inject_Z key)))
           (byteProperty data1) event in
       let event :=
         Event.with_value (PNumber (Fin (Utilities.toNormalized (ofByte data2))))
           (byteProperty data2) event in
       number <- lift (Utilities.offsetNumber data1
                         (offsetFromChannel wm this)) ;;
       note <- lift (Note.new wm number None) ;;
       pure (Event.with_note note event)
     else if String.eqb type "controlchange" then
       name <- lift (getCcNameByNumber wm data1) ;;
       let event :=
         Event.with_controller
           {| Event.number := data1; Event.name := name |} event in
       let event :=
         Event.with_value (PNumber (Fin (Utilities.toNormalized (ofByte data2))))
           (byteProperty data2) event in
       _ <- (if match data1 with Some n => 120 <=? n | None => false end
             then _parseChannelModeMessage event
             else pure tt) ;;
       pure event
     else if String.eqb type "programchange" then
       pure (Event.with_value (PNumber (addByte 1 data1))
               (byteProperty data1) event)
     else if String.eqb type "channelaftertouch" then
       pure (Event.with_value
               (PNumber (Fin (Utilities.toNormalized (ofByte data1))))
               (byteProperty data1) event)
     else if String.eqb type "pitchbend" then
       pure (Event.with_value
               (PNumber (Js.div (Js.sub (addByte (shl data2 7) data1) 8192) 8192))
               (PNumber (addByte (shl data2 7) data1)) event)
     else
       pure (Event.with_type (Some "unknownmessage") event)) ;;
  emit event.

(** *** _processMidiMessageEvent *)

Definition _processMidiMessageEvent
  (wm : WebMidi.t) (this : t) (e : Event.t) : Emitting unit :=
  let event :=
    Event.with_type (Some "midimessage")
      (Event.with_target (Event.OfChannel (_number this)) e) in
  _ <- emit event ;;
  _parseEventForStandardMessages wm this event.

(** A run of incoming events, one after the other; a throw ends it. *)
Fixpoint processAll (wm : WebMidi.t) (this : t) (es : list Event.t)
  : Emitting unit :=
  match es with
  | [] => pure tt
  | e :: rest =>
      _ <- _processMidiMessageEvent wm this e ;;
      processAll wm this rest
  end.

(** *** getChannelModeByNumber *)

(** [Math.floor(number)] *)
Definition floor (number : Number) : Number :=
  match number with
  | Fin q => Fin (inject_Z (Qfloor q))
  | other => other
  end.

(** [number >= 120 && number <= 127] *)
Definition isChannelModeNumber (number : Number) : bool :=
  match number with
  | Fin q => Qle_bool 120 q && Qle_bool q 127
  | _ => false
  end.

(** The loop over the properties of the table: the first name whose value
    is the number. *)
Fixpoint firstChannelMode (table : list (string * Z)) (number : Number)
  : option string :=
  match table with
  | [] => None
  | (cm, v) :: rest =>
      if match number with
         | Fin q => Qeq_bool q (inject_Z v)
         | _ => false
         end
      then Some cm
      else firstChannelMode rest number
  end.

(** [getChannelModeByNumber(number)]; [None] is the value [false].
    [WebMidi.MIDI_CHANNEL_MODE_MESSAGES] is not defined under src/: the
    table is a parameter, in property order. *)
Definition getChannelModeByNumber (wm : WebMidi.t)
  (MIDI_CHANNEL_MODE_MESSAGES : list (string * Z)) (number : Number)
  : option string :=
  let number := if WebMidi.validation wm then floor number else number in
  if negb (isChannelModeNumber number) then None
  else firstChannelMode MIDI_CHANNEL_MODE_MESSAGES number.

End InputChannel.

(** ** Listener and EventEmitter *)

Module EventEmitter.

(** [String(EventEmitter.ANY_EVENT)], the key under which the global
    listeners are kept in [eventMap]. *)
Definition ANY_EVENT_KEY : string := "Symbol(Any event)".

(** What is passed as the [event] parameter: a value (a primitive string
    is [OfValue (JString s)]), a [String] object, or the symbol
    [EventEmitter.ANY_EVENT]. *)
Inductive EventArg :=
| OfValue (v : JsVal)
| StringObject (s : string)
| ANY_EVENT.

(** [typeof event === "string" || event instanceof String] *)
Definition isString (event : EventArg) : bool :=
  match event with
  | OfValue (JString _) | StringObject _ => true
  | _ => false
  end.

(** [event === EventEmitter.ANY_EVENT] *)
Definition isAnyEvent (event : EventArg) : bool :=
  match event with
  | ANY_EVENT => true
  | _ => false
  end.

(** [String(event)] *)
Definition keyOf (event : EventArg) : string :=
  match event with
  | OfValue v => ToString v
  | StringObject s => s
  | ANY_EVENT => ANY_EVENT_KEY
  end.

(** What is passed as a callback: a function, known by its identity, or
    some other value. *)
Inductive Callback :=
| Fn (id : nat)
| NotFn (v : JsVal).

(** The [context] of a listener: the emitter itself ([target]) or a value
    of the caller. *)
Inductive Context :=
| Target
| Value (v : JsVal).

Definition contextTruthy (c : Context) : bool :=
  match c with
  | Target => true
  | Value v => truthy v
  end.

(** [a === b] *)
Definition strictEq (a b : JsVal) : bool :=
  match a, b with
  | JNaN, _ | _, JNaN => false
  | _, _ => bool_decide (a = b)
  end.

Definition contextEq (a b : Context) : bool :=
  match a, b with
  | Target, Target => true
  | Value v, Value w => strictEq v w
  | _, _ => false
  end.

(** The number held by [listener.remaining]. *)
Inductive Remaining :=
| Finite (n : Z)
| Infinity.

Definition remainingVal (r : Remaining) : JsVal :=
  match r with
  | Finite n => JInt n
  | Infinity => JInfinity false
  end.

(** [remaining > 0], [--remaining] and [remaining < 1] *)
Definition positive (r : Remaining) : bool :=
  match r with
  | Finite n => 0 <? n
  | Infinity => true
  end.

Definition decrement (r : Remaining) : Remaining :=
  match r with
  | Finite n => Finite (n - 1)
  | Infinity => Infinity
  end.

Definition belowOne (r : Remaining) : bool :=
  match r with
  | Finite n => n <? 1
  | Infinity => false
  end.

(** The value of [options.arguments]: absent, an array, or one value. *)
Inductive ArgumentsOption :=
| NoArguments
| ArgumentsArray (l : list JsVal)
| OneArgument (v : JsVal).

(** The [options] object of [addListener]; [None] is an absent
    property. *)
Record Options := {
  opt_arguments : ArgumentsOption;
  opt_context : option Context;
  opt_duration : option JsVal;
  opt_prepend : bool;
  opt_remaining : option JsVal;
}.

Definition emptyOptions : Options :=
  {| opt_arguments := NoArguments; opt_context := None;
     opt_duration := None; opt_prepend := false; opt_remaining := None |}.

(** The [options] object of [removeListener]. *)
Record RemoveOptions := {
  rem_context : option Context;
  rem_remaining : JsVal;
}.

(** A [Listener] object.  Its [target] is the emitter of the model. *)
Record Listener := {
  arguments : option (list JsVal);
  callback : nat;
  context : Context;
  count : Z;
  event : EventArg;
  remaining : Remaining;
  suspended : bool;
}.

(** The emitter and the objects it refers to.  [eventMap] maps an event
    name to an array, [arrays] holds the arrays of listeners and
    [listeners] the [Listener] objects, both by reference, so that an
    array or a listener reached from two places is one object.  [timers]
    lists the [setTimeout] calls made for listeners with a duration.
    [eventMap] is made by [{}]: only its own properties are modelled.
    For a name of [Object.prototype] that has no listener the source
    finds the inherited value where the model finds nothing, see
    [inherited] below. *)
Record t := {
  eventMap : gmap string nat;
  eventsSuspended : bool;
  arrays : list (list nat);
  listeners : list Listener;
  timers : list (nat * JsVal);
}.

Definition constructor (suspended : bool) : t :=
  {| eventMap := ∅; eventsSuspended := suspended; arrays := [];
     listeners := []; timers := [] |}.

Definition with_eventMap (m : gmap string nat) (st : t) : t :=
  {| eventMap := m; eventsSuspended := eventsSuspended st;
     arrays := arrays st; listeners := listeners st; timers := timers st |}.

Definition with_arrays (a : list (list nat)) (st : t) : t :=
  {| eventMap := eventMap st; eventsSuspended := eventsSuspended st;
     arrays := a; listeners := listeners st; timers := timers st |}.

Definition with_listeners (l : list Listener) (st : t) : t :=
  {| eventMap := eventMap st; eventsSuspended := eventsSuspended st;
     arrays := arrays st; listeners := l; timers := timers st |}.

Definition with_timers (tm : list (nat * JsVal)) (st : t) : t :=
  {| eventMap := eventMap st; eventsSuspended := eventsSuspended st;
     arrays := arrays st; listeners := listeners st; timers := tm |}.

Definition with_eventsSuspended (b : bool) (st : t) : t :=
  {| eventMap := eventMap st; eventsSuspended := b;
     arrays := arrays st; listeners := listeners st; timers := timers st |}.

(** What [this.eventMap[key]] finds for a key that has no array of its
    own: [None] is [undefined], the other values are the [length] of the
    inherited value, if it has one. *)
Definition inheritedLength (key : string) : option (option nat) :=
  (fun found : nat * (string * option nat) => found.2.2)
    <$> list_find (fun entry : string * option nat => entry.1 = key)
          Object_prototype.

(** Whether [eventMap] inherits a value for the key.  The source takes
    what [this.eventMap[key]] finds for the array of the event.  For such
    a key it finds the inherited value, which is truthy and no array:
    addListener makes no array and throws on [push], hasListener answers
    by the [length] of the value; both are modelled so.  No array is ever
    stored under such a key.  removeListener, getListeners, suspendEvent,
    unsuspendEvent and emit are modelled on the keys of [eventMap] itself:
    they are the source on every key that has listeners or is not
    inherited; on an inherited key without listeners the source throws
    (getListeners returns the inherited value) where they find no
    listener. *)
Definition inherited (key : string) : bool :=
  match inheritedLength key with
  | Some _ => true
  | None => false
  end.

(** Whether [this.eventMap[key]] finds an inherited value: the key has no
    array of its own and is inherited. *)
Definition findsInherited (st : t) (key : string) : bool :=
  match eventMap st !! key with
  | Some _ => false
  | None => inherited key
  end.

(** A new array; its reference is returned. *)
Definition newArray (l : list nat) (st : t) : nat * t :=
  (length (arrays st), with_arrays (arrays st ++ [l])%list st).

Definition arrayAt (st : t) (ref : nat) : list nat :=
  default [] (arrays st !! ref).

(** The listeners registered under a key, in the order of the array. *)
Definition registered (st : t) (key : string) : list nat :=
  match eventMap st !! key with
  | Some ref => arrayAt st ref
  | None => []
  end.

Definition updateListener (f : Listener -> Listener) (ref : nat) (st : t) : t :=
  with_listeners (alter f ref (listeners st)) st.

Definition with_remaining (r : Remaining) (l : Listener) : Listener :=
  {| arguments := arguments l; callback := callback l; context := context l;
     count := count l; event := event l; remaining := r;
     suspended := suspended l |}.

Definition with_count (c : Z) (l : Listener) : Listener :=
  {| arguments := arguments l; callback := callback l; context := context l;
     count := c; event := event l; remaining := remaining l;
     suspended := suspended l |}.

Definition with_suspended (b : bool) (l : Listener) : Listener :=
  {| arguments := arguments l; callback := callback l; context := context l;
     count := count l; event := event l; remaining := remaining l;
     suspended := b |}.

(** *** The Listener constructor (build/Listener.js) *)

(** What the constructor stores in [this.arguments]: a value that is
    neither [undefined] nor an array is wrapped in an array; [None] is
    [undefined]. *)
Definition argumentsOf (a : ArgumentsOption) : option (list JsVal) :=
  match a with
  | NoArguments | OneArgument JUndefined => None
  | ArgumentsArray l => Some l
  | OneArgument v => Some [v]
  end.

(** [new Listener(event, target, callback, options)], the target being
    the emitter: the new object and the delay of the timer it sets, if
    any.  [options] is [None] when the argument is [undefined]: reading
    [options.arguments] then throws a [TypeError]. *)
Definition newListener (event : EventArg) (callback : Callback)
  (options : option Options) : Completion (Listener * option JsVal) :=
  if negb (isString event) && negb (isAnyEvent event)
  then Throw TypeError
  else
    match callback with
    | NotFn _ => Throw TypeError
    | Fn f =>
        match options with
        | None => Throw TypeError
        | Some options =>
            let args := argumentsOf (opt_arguments options) in
            let duration := default (JInfinity false) (opt_duration options) in
            let remaining :=
              match parseInt (default (JInfinity false) (opt_remaining options)) with
              | Some n => if 1 <=? n then Finite n else Infinity
              | None => Infinity
              end in
            Normal ({| arguments := args;
                       callback := f;
                       context := default Target (opt_context options);
                       count := 0;
                       event := event;
                       remaining := remaining;
                       suspended := false |},
                    if strictEq duration (JInfinity false) then None
                    else Some duration)
        end
    end.

(** *** removeListener and Listener.remove *)

(** The test of the filter in [removeListener]: whether a listener is
    kept.  [callback] is [None] when the argument is [undefined]; when
    the first disjunct does not hold, [options.remaining] is read, which
    throws a [TypeError] for [options] undefined. *)
Definition kept (cb : option Callback) (options : option RemoveOptions)
  (l : Listener) : Completion bool :=
  let otherCallback :=
    match cb with
    | Some (Fn f) => negb (Nat.eqb (callback l) f)
    | Some (NotFn v) => truthy v
    | None => false
    end in
  if otherCallback then Normal true
  else
    match options with
    | None => Throw TypeError
    | Some o =>
        Normal
          ((truthy (rem_remaining o)
            && negb (strictEq (rem_remaining o) (remainingVal (remaining l))))
           || match rem_context o with
              | Some c => contextTruthy c && negb (contextEq c (context l))
              | None => false
              end)
    end.

Fixpoint filterKept (cb : option Callback) (options : option RemoveOptions)
  (st : t) (refs : list nat) : Completion (list nat) :=
  match refs with
  | [] => Normal []
  | r :: rest =>
      match listeners st !! r with
      | None => Throw TypeError
      | Some l =>
          keep ← kept cb options l;
          tail ← filterKept cb options st rest;
          Normal (if keep : bool then r :: tail else tail)
      end
  end.

Definition removeListener (event : EventArg) (cb : option Callback)
  (options : option RemoveOptions) (st : t) : Completion unit * t :=
  match event with
  | OfValue JUndefined => (Normal tt, with_eventMap ∅ st)
  | _ =>
      let key := keyOf event in
      match eventMap st !! key with
      | None => (Normal tt, st)
      | Some ref =>
          match filterKept cb options st (arrayAt st ref) with
          | Throw k => (Throw k, st)
          | Normal [] =>
              (Normal tt, with_eventMap (delete key (eventMap st)) st)
          | Normal l =>
              let '(r, st) := newArray l st in
              (Normal tt, with_eventMap (<[key := r]> (eventMap st)) st)
          end
      end
  end.

(** [listener.remove()] *)
Definition remove (ref : nat) (st : t) : Completion unit * t :=
  match listeners st !! ref with
  | None => (Throw TypeError, st)
  | Some l =>
      removeListener (event l) (Some (Fn (callback l)))
        (Some {| rem_context := Some (context l);
                 rem_remaining := remainingVal (remaining l) |}) st
  end.

(** *** addListener and addOneTimeListener *)

Definition addListener (event : EventArg) (cb : Callback)
  (options : option Options) (st : t) : Completion nat * t :=
  if match event with
     | OfValue (JString s) | StringObject s => (String.length s <? 1)%nat
     | ANY_EVENT => false
     | OfValue _ => true
     end
  then (Throw TypeError, st)
  else
    match cb with
    | NotFn _ => (Throw TypeError, st)
    | Fn _ =>
        match newListener event cb options with
        | Throw k => (Throw k, st)
        | Normal (l, timer) =>
            let listener := length (listeners st) in
            let st := with_listeners (listeners st ++ [l])%list st in
            let st :=
              match timer with
              | Some delay => with_timers (timers st ++ [(listener, delay)])%list st
              | None => st
              end in
            let key := keyOf event in
            if findsInherited st key
            then
              (* the inherited value is not replaced and has no [push] *)
              (Throw TypeError, st)
            else
              let '(ref, st) :=
                match eventMap st !! key with
                | Some ref => (ref, st)
                | None =>
                    let '(ref, st) := newArray [] st in
                    (ref, with_eventMap (<[key := ref]> (eventMap st)) st)
                end in
              match options with
              | None => (Throw TypeError, st)
              | Some o =>
                  let grow (a : list nat) :=
                    if opt_prepend o then listener :: a
                    else (a ++ [listener])%list in
                  (Normal listener, with_arrays (alter grow ref (arrays st)) st)
              end
        end
    end.

Definition addOneTimeListener (event : EventArg) (cb : Callback)
  (options : option Options) (st : t) : Completion nat * t :=
  match options with
  | None => (Throw TypeError, st)
  | Some o =>
      addListener event cb
        (Some {| opt_arguments := opt_arguments o;
                 opt_context := opt_context o;
                 opt_duration := opt_duration o;
                 opt_prepend := opt_prepend o;
                 opt_remaining := Some (JInt 1) |}) st
  end.

(** *** getListeners, suspendEvent, unsuspendEvent *)

Definition getListeners (event : EventArg) (st : t) : list nat :=
  registered st (keyOf event).

Definition getListenerCount (event : EventArg) (st : t) : nat :=
  length (getListeners event st).

Definition suspendEvent (event : EventArg) (st : t) : t :=
  foldl (fun st ref => updateListener (with_suspended true) ref st) st
    (getListeners event st).

Definition unsuspendEvent (event : EventArg) (st : t) : t :=
  foldl (fun st ref => updateListener (with_suspended false) ref st) st
    (getListeners event st).

(** *** emit *)

(** What [emit] returns: [undefined] or the array of results. *)
Inductive Returned :=
| ReturnedUndefined
| ReturnedArray (results : list JsVal).

Section Emit.

(** What calling a function does: [run f context params] is the call
    [f.apply(context, params)], which may change the emitter and its
    listeners and returns a value or throws. *)
Variable run : nat -> Context -> list JsVal -> t -> Completion JsVal * t.

(** The function passed to [forEach], for one listener. *)
Definition visit (args : list JsVal) (ref : nat) (results : list JsVal)
  (st : t) : Completion (list JsVal) * t :=
  match listeners st !! ref with
  | None => (Throw TypeError, st)
  | Some listener =>
      if suspended listener then (Normal results, st)
      else
        let params := (args ++ default [] (arguments listener))%list in
        let '(called, st) :=
          if positive (remaining listener) then
            match run (callback listener) (context listener) params st with
            | (Normal v, st) =>
                (Normal (results ++ [v])%list,
                 updateListener (fun l => with_count (count l + 1) l) ref st)
            | (Throw k, st) => (Throw k, st)
            end
          else (Normal results, st) in
        match called with
        | Throw k => (Throw k, st)
        | Normal results =>
            let st :=
              updateListener
                (fun l => with_remaining (decrement (remaining l)) l) ref st in
            match listeners st !! ref with
            | None => (Throw TypeError, st)
            | Some l =>
                if belowOne (remaining l) then
                  match remove ref st with
                  | (Normal _, st) => (Normal results, st)
                  | (Throw k, st) => (Throw k, st)
                  end
                else (Normal results, st)
            end
        end
  end.

(** [listeners.forEach(...)]: the indices [k], [k+1], ... below the
    length the array had when the loop began, each element read when
    its turn comes. *)
Fixpoint forEach (args : list JsVal) (array : nat) (k todo : nat)
  (results : list JsVal) (st : t) : Completion (list JsVal) * t :=
  match todo with
  | O => (Normal results, st)
  | S todo =>
      match arrayAt st array !! k with
      | None => forEach args array (S k) todo results st
      | Some ref =>
          match visit args ref results st with
          | (Normal results, st) => forEach args array (S k) todo results st
          | (Throw e, st) => (Throw e, st)
          end
      end
  end.

Definition emit (event : EventArg) (args : list JsVal) (st : t)
  : Completion Returned * t :=
  if negb (isString event) then (Throw TypeError, st)
  else if eventsSuspended st then (Normal ReturnedUndefined, st)
  else
    let '(array, st) :=
      match eventMap st !! ANY_EVENT_KEY with
      | Some ref => (ref, st)
      | None => newArray [] st
      end in
    let '(array, st) :=
      match eventMap st !! keyOf event with
      | Some ref => newArray (arrayAt st array ++ arrayAt st ref)%list st
      | None => (array, st)
      end in
    match forEach args array 0 (length (arrayAt st array)) [] st with
    | (Normal results, st) => (Normal (ReturnedArray results), st)
    | (Throw k, st) => (Throw k, st)
    end.

End Emit.

(** *** What the statements about [emit] refer to *)

(** The values returned for the listeners of [refs], in that order, when
    the function [f] called with context [c] and parameters [p] returns
    [answer f c p]: a suspended listener is passed over. *)
Definition answers (answer : nat -> Context -> list JsVal -> JsVal)
  (args : list JsVal) (st : t) (refs : list nat) : list JsVal :=
  refs ≫= fun ref =>
    match listeners st !! ref with
    | Some l =>
        if suspended l then []
        else [answer (callback l) (context l)
                (args ++ default [] (arguments l))%list]
    | None => []
    end.

(** Two listeners that differ at most in their [count]. *)
Definition sameButCount (l l' : Listener) : Prop :=
  with_count 0 l = with_count 0 l'.

(** The listeners are never removed on their own: their [remaining] is
    [Infinity], as when [options.remaining] is not given. *)
Definition unbounded (st : t) (refs : list nat) : Prop :=
  ∀ ref, ref ∈ refs ->
    ∃ l, listeners st !! ref = Some l ∧ remaining l = Infinity.

(** The listeners are suspended or never removed on their own. *)
Definition calm (st : t) (refs : list nat) : Prop :=
  ∀ ref, ref ∈ refs ->
    ∃ l, listeners st !! ref = Some l
         ∧ (suspended l = true ∨ remaining l = Infinity).

(** *** hasListener and eventCount *)

(** What is passed as the [callback] of [hasListener]: nothing, a
    [Listener] object, a function, or some other value. *)
Inductive Sought :=
| AnyListener
| TheListener (ref : nat)
| TheFunction (f : nat)
| OtherValue (v : JsVal).

(** Whether some listener of the array has the function as its callback;
    reading the callback of a missing element throws. *)
Fixpoint someCallback (f : nat) (st : t) (refs : list nat) : Completion bool :=
  match refs with
  | [] => Normal false
  | r :: rest =>
      match listeners st !! r with
      | None => Throw TypeError
      | Some l =>
          found ← someCallback f st rest;
          Normal (Nat.eqb (callback l) f || found)
      end
  end.

Definition hasListener (event : EventArg) (sought : Sought) (st : t)
  : Completion bool :=
  match event with
  | OfValue JUndefined =>
      Normal
        (match eventMap st !! ANY_EVENT_KEY with
         | Some ref => (0 <? length (arrayAt st ref))%nat
         | None => false
         end
         || existsb (fun entry : string * nat =>
                       (0 <? length (arrayAt st entry.2))%nat)
              (map_to_list (eventMap st)))
  | _ =>
      match eventMap st !! keyOf event with
      | Some ref =>
          let array := arrayAt st ref in
          if (0 <? length array)%nat then
            match sought with
            | TheListener l => Normal (bool_decide (l ∈ array))
            | TheFunction f => someCallback f st array
            | OtherValue JUndefined | OtherValue JNull | AnyListener =>
                Normal true
            | OtherValue _ => Normal false
            end
          else Normal false
      | None =>
          match inheritedLength (keyOf event) with
          | Some (Some length) =>
              (* an inherited function: it has a [length] and no [filter] *)
              if (0 <? length)%nat then
                match sought with
                | TheListener _ | TheFunction _ => Throw TypeError
                | OtherValue JUndefined | OtherValue JNull | AnyListener =>
                    Normal true
                | OtherValue _ => Normal false
                end
              else Normal false
          | Some None | None => Normal false
          end
      end
  end.

(** [get eventCount()]: the number of keys of [eventMap]. *)
Definition eventCount (st : t) : nat := size (eventMap st).

(** *** What the emitter keeps true *)

(** Every key of [eventMap] refers to an array of the emitter, the array
    is not empty and holds listeners of the emitter, and no two keys share
    an array. *)
Record wellFormed (st : t) : Prop := {
  wf_array : ∀ key ref,
    eventMap st !! key = Some ref -> (ref < length (arrays st))%nat;
  wf_listener : ∀ key ref r,
    eventMap st !! key = Some ref -> r ∈ arrayAt st ref ->
    (r < length (listeners st))%nat;
  wf_nonempty : ∀ key ref,
    eventMap st !! key = Some ref -> arrayAt st ref ≠ [];
  wf_unshared : ∀ key key' ref,
    eventMap st !! key = Some ref -> eventMap st !! key' = Some ref ->
    key = key';
}.

(** The test of [removeListener] when [options] is given: whether a
    listener stays. *)
Definition stays (cb : option Callback) (o : RemoveOptions) (l : Listener)
  : bool :=
  match cb with
  | Some (Fn f) => negb (Nat.eqb (callback l) f)
  | Some (NotFn v) => truthy v
  | None => false
  end
  || (truthy (rem_remaining o)
      && negb (strictEq (rem_remaining o) (remainingVal (remaining l))))
  || match rem_context o with
     | Some c => contextTruthy c && negb (contextEq c (context l))
     | None => false
     end.

(** Whether the listener of reference [r] stays. *)
Definition staysAt (cb : option Callback) (o : RemoveOptions) (st : t)
  (r : nat) : bool :=
  match listeners st !! r with
  | Some l => stays cb o l
  | None => false
  end.

(** The listeners of [refs] that stay. *)
Definition staying (cb : option Callback) (o : RemoveOptions) (st : t)
  (refs : list nat) : list nat :=
  filter (fun r => staysAt cb o st r = true) refs.

(** A valid [event] argument of [addListener]. *)
Definition validEvent (event : EventArg) : Prop :=
  match event with
  | OfValue (JString s) | StringObject s => s ≠ ""
  | ANY_EVENT => True
  | OfValue _ => False
  end.

(** *** The calls a user makes *)

(** A call of a method of the emitter or of one of its listeners, or an
    assignment to [eventsSuspended]. *)
Inductive Call :=
| CallAddListener (event : EventArg) (cb : Callback)
    (options : option Options)
| CallAddOneTimeListener (event : EventArg) (cb : Callback)
    (options : option Options)
| CallRemoveListener (event : EventArg) (cb : option Callback)
    (options : option RemoveOptions)
| CallRemove (listener : nat)
| CallSuspendEvent (event : EventArg)
| CallUnsuspendEvent (event : EventArg)
| CallEmit (event : EventArg) (args : list JsVal)
| SetEventsSuspended (b : bool).

Section Calls.

Variable run : nat -> Context -> list JsVal -> t -> Completion JsVal * t.

(** The emitter after a call, whether the call returned or threw. *)
Definition after (c : Call) (st : t) : t :=
  match c with
  | CallAddListener event cb options => (addListener event cb options st).2
  | CallAddOneTimeListener event cb options =>
      (addOneTimeListener event cb options st).2
  | CallRemoveListener event cb options =>
      (removeListener event cb options st).2
  | CallRemove listener => (remove listener st).2
  | CallSuspendEvent event => suspendEvent event st
  | CallUnsuspendEvent event => unsuspendEvent event st
  | CallEmit event args => (emit run event args st).2
  | SetEventsSuspended b => with_eventsSuspended b st
  end.

(** The emitter after a run of calls. *)
Definition afterAll (cs : list Call) (st : t) : t :=
  foldl (fun st c => after c st) st cs.

End Calls.

End EventEmitter.

(** ** The port lookups of WebMidi *)

Module Ports.

(** The two properties of an [Input] or [Output] the lookups read. *)
Record Port := {
  id : string;
  name : string;
}.

(** The properties of the [WebMidi] object the lookups read; [interface]
    is [None] when it is [null]. *)
Record t := {
  validation : bool;
  interface : option nat;
  _inputs : list Port;
  _disconnectedInputs : list Port;
  _outputs : list Port;
  _disconnectedOutputs : list Port;
}.

(** [get enabled()] *)
Definition enabled (this : t) : bool :=
  match interface this with
  | Some _ => true
  | None => false
  end.

Definition inputs (this : t) : list Port := _inputs this.
Definition outputs (this : t) : list Port := _outputs this.

(** The [options] argument; [None] is [undefined]. *)
Record Options := {
  disconnected : bool;
}.

(** [id.toString()]: [undefined] and [null] have no method. *)
Definition toString (v : JsVal) : Completion string :=
  match v with
  | JUndefined | JNull => Throw TypeError
  | _ => Normal (ToString v)
  end.

(** The loop [if (ports[i].id === id.toString()) return ports[i]];
    [None] is [undefined]. *)
Fixpoint findById (ports : list Port) (id' : JsVal) : Completion (option Port) :=
  match ports with
  | [] => Normal None
  | port :: rest =>
      s ← toString id';
      if String.eqb (id port) s then Normal (Some port)
      else findById rest id'
  end.

(** [~port.name.indexOf(name)]: the name contains the string of [name]. *)
Definition contains (port : Port) (name' : JsVal) : bool :=
  match String.index 0 (ToString name') (name port) with
  | Some _ => true
  | None => false
  end.

(** The loop [if (~ports[i].name.indexOf(name)) return ports[i]]. *)
Fixpoint findByName (ports : list Port) (name' : JsVal) : option Port :=
  match ports with
  | [] => None
  | port :: rest =>
      if contains port name' then Some port else findByName rest name'
  end.

Definition getInputById (this : t) (id' : JsVal) (options : option Options)
  : Completion (option Port) :=
  if validation this && negb (enabled this) then Throw Error
  else if validation this && negb (truthy id') then Normal None
  else
    match options with
    | None => Throw TypeError
    | Some o =>
        if disconnected o then findById (_disconnectedInputs this) id'
        else findById (inputs this) id'
    end.

Definition getInputByName (this : t) (name' : JsVal) (options : option Options)
  : Completion (option Port) :=
  if validation this && negb (enabled this) then Throw Error
  else if validation this && negb (truthy name') then Normal None
  else
    match options with
    | None => Throw TypeError
    | Some o =>
        if disconnected o then Normal (findByName (_disconnectedInputs this) name')
        else Normal (findByName (inputs this) name')
    end.

Definition getOutputById (this : t) (id' : JsVal) (options : option Options)
  : Completion (option Port) :=
  if validation this && negb (enabled this) then Throw Error
  else if validation this && negb (truthy id') then Normal None
  else
    match options with
    | None => Throw TypeError
    | Some o =>
        if disconnected o then findById (_disconnectedOutputs this) id'
        else findById (outputs this) id'
    end.

Definition getOutputByName (this : t) (name' : JsVal) (options : option Options)
  : Completion (option Port) :=
  if validation this && negb (enabled this) then Throw Error
  else if validation this && negb (truthy name') then Normal None
  else
    match options with
    | None => Throw TypeError
    | Some o =>
        if disconnected o then Normal (findByName (_disconnectedOutputs this) name')
        else Normal (findByName (outputs this) name')
    end.

End Ports.

(** ** Tables and inputs the statements refer to *)

Module Enumerations.

(** Modelled from the spec: the table [MIDI_CONTROL_CHANGE_MESSAGES] is
    not under src/.  Its entries here are the channel mode messages, with
    the numbers 120 to 127 the spec gives them.  The names are in the
    order in which build/InputChannel.d.ts lists the names of the table
    (the [@fires controlchange-...] tags, lines 104 to 111): allsoundoff,
    resetallcontrollers, localcontrol, allnotesoff, omnimodeoff,
    omnimodeon, monomodeon, polymodeon.  That is 126 monomodeon and
    127 polymodeon, where the spec pairs the two the other way round. *)
Definition MIDI_CONTROL_CHANGE_MESSAGES : list (string * Z) :=
  [("allsoundoff", 120); ("resetallcontrollers", 121);
   ("localcontrol", 122); ("allnotesoff", 123); ("omnimodeoff", 124);
   ("omnimodeon", 125); ("monomodeon", 126); ("polymodeon", 127)].

(** The names of the parameter number events (RPN and NRPN). *)
Definition parameterNumberEvents : list string :=
  ["nrpn"; "nrpn-dataentrycoarse"; "nrpn-dataentryfine";
   "nrpn-dataincrement"; "nrpn-datadecrement";
   "rpn"; "rpn-dataentrycoarse"; "rpn-dataentryfine";
   "rpn-dataincrement"; "rpn-datadecrement"].

Definition isParameterNumberEvent (name : string) : bool :=
  bool_decide (name ∈ parameterNumberEvents).

(** The name of the event specific to a controller number. *)
Definition controllerEvent (n : Z) : string :=
  "controlchange-controller" +:+ pretty n.

(** The event name and value the spec gives to a channel mode controller
    number. *)
Definition channelModeAlias (n : Z) : option (string * bool) :=
  match n with
  | 124 => Some ("omnimode", false)
  | 125 => Some ("omnimode", true)
  | 126 => Some ("monomode", false)
  | 127 => Some ("monomode", true)
  | _ => None
  end.

(** An incoming control change whose controller number is below 120. *)
Definition plainControlChange (e : Event.t) : Prop :=
  Message.type (Event.message e) = Some "controlchange"
  ∧ ∃ n, Message.dataBytes (Event.message e) !! 0%nat = Some n
         ∧ 0 <= n <= 119.

(** The "midimessage" event a channel makes of an incoming event. *)
Definition midimessage (this : InputChannel.t) (e : Event.t) : Event.t :=
  Event.with_type (Some "midimessage")
    (Event.with_target (Event.OfChannel (InputChannel._number this)) e).

(** The "controlchange" event made of an incoming control change. *)
Definition controlchange (wm : WebMidi.t) (this : InputChannel.t)
  (e : Event.t) : Event.t :=
  let data1 := Message.dataBytes (Event.message e) !! 0%nat in
  let data2 := Message.dataBytes (Event.message e) !! 1%nat in
  Event.with_value
    (PNumber (Fin (Utilities.from7bitToFloat (ofByte data2))))
    (byteProperty data2)
    (Event.with_controller
       {| Event.number := data1;
          Event.name :=
            n ← data1;
            Utilities.getPropertyByValue
              (WebMidi.MIDI_CONTROL_CHANGE_MESSAGES wm) n |}
       (Event.with_type (Some "controlchange") (midimessage this e))).

End Enumerations.

Module Sample.

(** The library as it starts: validation on, no octave offset. *)
Definition webmidi : WebMidi.t :=
  {| WebMidi.validation := true;
     WebMidi._octaveOffset := JInt 0;
     WebMidi.MIDI_CONTROL_CHANGE_MESSAGES :=
       Enumerations.MIDI_CONTROL_CHANGE_MESSAGES |}.

(** Channel 1 of an input without octave offset. *)
Definition channel : InputChannel.t :=
  InputChannel.constructor {| Input.octaveOffset := JInt 0 |} 1.

(** The event an input builds for the bytes it received. *)
Definition received (bytes : list Z) : Event.t :=
  Event.incoming (Message.new bytes) 0.

(** CC99 = 3, CC98 = 12, CC6 = 64, CC38 = 0 on channel 1. *)
Definition nrpnSequence : list Event.t :=
  [received [176; 99; 3]; received [176; 98; 12];
   received [176; 6; 64]; received [176; 38; 0]].

(** Every function returns its own identity and leaves the emitter
    alone. *)
Definition identify (f : nat) (_ : EventEmitter.Context) (_ : list JsVal)
  (st : EventEmitter.t) : Completion JsVal * EventEmitter.t :=
  (Normal (JInt (Z.of_nat f)), st).

(** A fresh emitter on which function 0 listens to "noteon" (listener A),
    then function 1 to every event (listener B). *)
Definition twoListeners : EventEmitter.t :=
  let st := EventEmitter.constructor false in
  let st :=
    (EventEmitter.addListener (EventEmitter.OfValue (JString "noteon"))
       (EventEmitter.Fn 0) (Some EventEmitter.emptyOptions) st).2 in
  (EventEmitter.addListener EventEmitter.ANY_EVENT
     (EventEmitter.Fn 1) (Some EventEmitter.emptyOptions) st).2.

(** Function 1 removes the listeners of function 0 from "noteon" when it
    is called; the other functions are as in [identify]. *)
Definition removing (f : nat) (c : EventEmitter.Context) (p : list JsVal)
  (st : EventEmitter.t) : Completion JsVal * EventEmitter.t :=
  if Nat.eqb f 1 then
    (Normal (JInt 1),
     (EventEmitter.removeListener (EventEmitter.OfValue (JString "noteon"))
        (Some (EventEmitter.Fn 0))
        (Some {| EventEmitter.rem_context := None;
                 EventEmitter.rem_remaining := JUndefined |}) st).2)
  else identify f c p st.

(** A fresh emitter on which functions 1 and 2 listen to every event. *)
Definition twoGlobalListeners : EventEmitter.t :=
  let st := EventEmitter.constructor false in
  let st :=
    (EventEmitter.addListener EventEmitter.ANY_EVENT
       (EventEmitter.Fn 1) (Some EventEmitter.emptyOptions) st).2 in
  (EventEmitter.addListener EventEmitter.ANY_EVENT
     (EventEmitter.Fn 2) (Some EventEmitter.emptyOptions) st).2.

(** Function 1 registers function 3 for every event, in front of the
    others, when it is called. *)
Definition prepending (f : nat) (c : EventEmitter.Context) (p : list JsVal)
  (st : EventEmitter.t) : Completion JsVal * EventEmitter.t :=
  if Nat.eqb f 1 then
    (Normal (JInt 1),
     (EventEmitter.addListener EventEmitter.ANY_EVENT (EventEmitter.Fn 3)
        (Some {| EventEmitter.opt_arguments := EventEmitter.NoArguments;
                 EventEmitter.opt_context := None;
                 EventEmitter.opt_duration := None;
                 EventEmitter.opt_prepend := true;
                 EventEmitter.opt_remaining := None |}) st).2)
  else identify f c p st.

(** A fresh emitter with function 0 as a one-time listener of "noteon". *)
Definition oneTimeListener : EventEmitter.t :=
  (EventEmitter.addOneTimeListener (EventEmitter.OfValue (JString "noteon"))
     (EventEmitter.Fn 0) (Some EventEmitter.emptyOptions)
     (EventEmitter.constructor false)).2.

End Sample.

(** * Properties *)

(** ** Arithmetic of the data bytes *)

Lemma toInt32_small z : - 2 ^ 31 <= z < 2 ^ 31 -> toInt32 z = z.
Proof.
  intros Hz. unfold toInt32.
  destruct (Z_lt_dec z 0) as [Hneg | Hpos].
  - assert (Hm : z mod 2 ^ 32 = z + 2 ^ 32).
    { symmetry. apply (Z.mod_unique z (2 ^ 32) (-1)); lia. }
    rewrite Hm. destruct (Z.ltb_spec (z + 2 ^ 32) (2 ^ 31)); lia.
  - rewrite Z.mod_small by lia.
    destruct (Z.ltb_spec z (2 ^ 31)); lia.
Qed.

Lemma shl_byte b : 0 <= b <= 255 -> shl (Some b) 7 = Z.shiftl b 7.
Proof.
  intros Hb. unfold shl. change (default 0 (Some b)) with b.
  change (Z.land 7 31) with 7.
  rewrite (toInt32_small b) by lia.
  rewrite Z.shiftl_mul_pow2 by lia.
  apply toInt32_small. lia.
Qed.

(** ** The channel parser *)

Ltac enter_parser :=
  unfold InputChannel._processMidiMessageEvent,
    InputChannel._parseEventForStandardMessages;
  cbn [Event.message Event.with_type Event.with_target Event.type
       InputChannel.emit InputChannel.bind].

Ltac leave_parser :=
  cbn [InputChannel.bind InputChannel.pure InputChannel.lift
       InputChannel.emit Event.type Event.with_value Event.with_type
       Event.with_note Event.with_velocity Event.with_controller
       Event.with_key app].

(** A control change below 120 yields the "midimessage" event and the
    "controlchange" event, nothing else. *)
Lemma controlchange_below_120 wm this e :
  Enumerations.plainControlChange e ->
  InputChannel._processMidiMessageEvent wm this e
  = ([Enumerations.midimessage this e; Enumerations.controlchange wm this e],
     Normal tt).
Proof.
  intros (Hty & n & H1 & Hn).
  enter_parser. rewrite Hty, H1.
  cbn [String.eqb Ascii.eqb Bool.eqb orb andb].
  unfold InputChannel.getCcNameByNumber, Enumerations.controlchange.
  rewrite H1.
  assert (Hrange : (0 <=? n) && (n <=? 127) = true)
    by (apply andb_true_intro; split; apply Z.leb_le; lia).
  assert (Hmode : (120 <=? n) = false) by (apply Z.leb_gt; lia).
  rewrite Hrange, Hmode.
  destruct (WebMidi.validation wm); reflexivity.
Qed.

Lemma controllerEvent_not_generic n :
  Enumerations.controllerEvent n ∉ ["midimessage"; "controlchange"].
Proof.
  unfold Enumerations.controllerEvent. cbn [String.app String.append].
  intros Hin. apply elem_of_cons in Hin as [Heq | Hin]; [discriminate |].
  apply elem_of_cons in Hin as [Heq | Hin]; [discriminate |].
  by apply elem_of_nil in Hin.
Qed.

(** C2, as the code has it: for every controller number n in 0..119, a
    control change with data1 = n makes the channel emit the "midimessage"
    event and then the generic "controlchange" event, whose value is the
    second data byte scaled to 0..1 and whose rawValue is that byte; no
    event named "controlchange-controller<n>" is emitted. *)
Theorem controlchange_emits_generic_event_only wm this e n :
  Message.type (Event.message e) = Some "controlchange" ->
  Message.dataBytes (Event.message e) !! 0%nat = Some n ->
  0 <= n <= 119 ->
  let data2 := Message.dataBytes (Event.message e) !! 1%nat in
  let emitted := InputChannel._processMidiMessageEvent wm this e in
  ∃ event,
    emitted = ([Enumerations.midimessage this e; event], Normal tt)
    ∧ InputChannel.names emitted = ["midimessage"; "controlchange"]
    ∧ (Event.number <$> Event.controller event) = Some (Some n)
    ∧ Event.value event
      = PNumber (Fin (Utilities.from7bitToFloat (ofByte data2)))
    ∧ Event.rawValue event = byteProperty data2
    ∧ Enumerations.controllerEvent n ∉ InputChannel.names emitted.
Proof.
  intros Hty H1 Hn data2 emitted.
  assert (Hrun : emitted
                 = ([Enumerations.midimessage this e;
                     Enumerations.controlchange wm this e], Normal tt)).
  { apply controlchange_below_120. split; [exact Hty | exists n; auto]. }
  exists (Enumerations.controlchange wm this e).
  rewrite Hrun.
  repeat split; try reflexivity.
  - unfold Enumerations.controlchange. cbn. by rewrite H1.
  - apply controllerEvent_not_generic.
Qed.

Lemma controlchange_emits_generic_event_only_witness :
  ∃ event,
    InputChannel._processMidiMessageEvent Sample.webmidi Sample.channel
      (Sample.received [176; 7; 100])
    = ([Enumerations.midimessage Sample.channel (Sample.received [176; 7; 100]);
        event], Normal tt)
    ∧ Event.value event = PNumber (Fin (100 # 127)).
Proof.
  destruct (controlchange_emits_generic_event_only Sample.webmidi
              Sample.channel (Sample.received [176; 7; 100]) 7)
    as (event & Hrun & _ & _ & Hvalue & _);
    [reflexivity | reflexivity | lia |].
  exists event. split; [exact Hrun | exact Hvalue].
Defined.

(** C2, as stated, fails: the control change of controller 7 (bytes 176, 7,
    100) does not make the channel emit both "controlchange" and
    "controlchange-controller7". *)
Lemma controlchange_controller7_not_emitted :
  ¬ (let names :=
       InputChannel.names
         (InputChannel._processMidiMessageEvent Sample.webmidi Sample.channel
            (Sample.received [176; 7; 100])) in
     "controlchange" ∈ names ∧ Enumerations.controllerEvent 7 ∈ names).
Proof.
  intros [_ Hin]. revert Hin.
  change (InputChannel.names _) with ["midimessage"; "controlchange"].
  apply controllerEvent_not_generic.
Qed.

(** Control changes below 120, one after the other: two events each. *)
Lemma processAll_plain wm this es :
  Forall Enumerations.plainControlChange es ->
  InputChannel.processAll wm this es
  = (es ≫= (fun e => [Enumerations.midimessage this e;
                      Enumerations.controlchange wm this e]),
     Normal tt).
Proof.
  induction 1 as [| e es He _ IH]; [reflexivity |].
  cbn [InputChannel.processAll].
  rewrite (controlchange_below_120 wm this e He), IH.
  reflexivity.
Qed.

(** C3, as the code has it: the assembler of parameter numbers is disabled
    (commented out), so every run of control changes with controller
    numbers below 120, which covers 6, 38 and 96 to 101, yields for each
    message the "midimessage" event and the "controlchange" event, in
    order, and never an event of the nrpn or rpn family, complete or
    partial. *)
Theorem control_changes_emit_no_parameter_number_event wm this es :
  Forall Enumerations.plainControlChange es ->
  let emitted := InputChannel.processAll wm this es in
  emitted.2 = Normal tt
  ∧ InputChannel.names emitted
    = es ≫= (fun _ => ["midimessage"; "controlchange"])
  ∧ filter (fun name => Enumerations.isParameterNumberEvent name = true)
      (InputChannel.names emitted) = [].
Proof.
  intros Hes emitted. subst emitted.
  rewrite (processAll_plain wm this es Hes).
  assert (Hnames :
    InputChannel.names
      (es ≫= (fun e => [Enumerations.midimessage this e;
                        Enumerations.controlchange wm this e]),
       Normal tt)
    = es ≫= (fun _ => ["midimessage"; "controlchange"])).
  { unfold InputChannel.names. cbn [fst].
    clear Hes. induction es as [| e es IH]; [reflexivity |].
    cbn. f_equal. f_equal. exact IH. }
  split; [reflexivity |]. split; [exact Hnames |].
  rewrite Hnames. clear. induction es as [| e es IH]; [reflexivity |].
  cbn. exact IH.
Qed.

Lemma control_changes_emit_no_parameter_number_event_witness :
  InputChannel.names
    (InputChannel.processAll Sample.webmidi Sample.channel Sample.nrpnSequence)
  = ["midimessage"; "controlchange"; "midimessage"; "controlchange";
     "midimessage"; "controlchange"; "midimessage"; "controlchange"].
Proof.
  refine (proj1 (proj2 (control_changes_emit_no_parameter_number_event
                          Sample.webmidi Sample.channel Sample.nrpnSequence _))).
  repeat constructor; try reflexivity;
    eexists; (split; [reflexivity | lia]).
Defined.

(** C3, as stated, fails: CC99 = 3, CC98 = 12, CC6 = 64, CC38 = 0 do not
    yield exactly one event of the nrpn family. *)
Lemma nrpn_sequence_emits_no_nrpn_event :
  length
    (filter (fun name => Enumerations.isParameterNumberEvent name = true)
       (InputChannel.names
          (InputChannel.processAll Sample.webmidi Sample.channel
             Sample.nrpnSequence)))
  ≠ 1%nat.
Proof. vm_compute. discriminate. Qed.




(** C5, as the code has it: the collapse goes by the name of the
    controller.  A control change whose controller number, 120 or more,
    is named omnimodeoff in the table emits "omnimode" with value false,
    omnimodeon "omnimode" with value true, monomodeon "monomode" with
    value true and polymodeon "monomode" with value false, each before
    the "controlchange" event.  Which number bears which name is for the
    table to say. *)
Theorem channel_mode_names_collapse wm this e n name alias value :
  Message.type (Event.message e) = Some "controlchange" ->
  Message.dataBytes (Event.message e) !! 0%nat = Some n ->
  120 <= n ->
  InputChannel.getCcNameByNumber wm (Some n) = Normal (Some name) ->
  (name, alias, value)
  ∈ [("omnimodeoff", "omnimode", false); ("omnimodeon", "omnimode", true);
     ("monomodeon", "monomode", true); ("polymodeon", "monomode", false)] ->
  ∃ mode generic,
    InputChannel._processMidiMessageEvent wm this e
    = ([Enumerations.midimessage this e; mode; generic], Normal tt)
    ∧ Event.type mode = Some alias
    ∧ Event.value mode = PBool value
    ∧ Event.controller mode
      = Some {| Event.number := Some n; Event.name := Some name |}
    ∧ Event.type generic = Some "controlchange".
Proof.
  intros Hty H1 Hn Hname Hin.
  enter_parser. rewrite Hty, H1.
  cbn [String.eqb Ascii.eqb Bool.eqb orb andb].
  rewrite Hname.
  replace (120 <=? n) with true by (symmetry; apply Z.leb_le; lia).
  repeat (apply elem_of_cons in Hin as [[= -> -> ->] | Hin];
          [eexists _, _; (split; [reflexivity |]); repeat split;
           reflexivity |]).
  by apply elem_of_nil in Hin.
Qed.

Lemma channel_mode_names_collapse_witness :
  ∃ mode generic,
    InputChannel._processMidiMessageEvent Sample.webmidi Sample.channel
      (Sample.received [176; 127; 0])
    = ([Enumerations.midimessage Sample.channel
          (Sample.received [176; 127; 0]); mode; generic], Normal tt)
    ∧ Event.type mode = Some "monomode"
    ∧ Event.value mode = PBool false
    ∧ Event.controller mode
      = Some {| Event.number := Some 127; Event.name := Some "polymodeon" |}
    ∧ Event.type generic = Some "controlchange".
Proof.
  apply (channel_mode_names_collapse Sample.webmidi Sample.channel
           (Sample.received [176; 127; 0]) 127 "polymodeon" "monomode" false);
    [reflexivity | reflexivity | lia | reflexivity |].
  do 3 right. left.
Defined.

(** C5, as stated, fails at 126 and 127: with the names in the order of
    the table, controller 126 is monomodeon and emits "monomode" with
    value true, where the spec has false. *)
Lemma channel_mode_126_is_monomode_true :
  Enumerations.channelModeAlias 126 = Some ("monomode", false)
  ∧ (let emitted :=
       (InputChannel._processMidiMessageEvent Sample.webmidi Sample.channel
          (Sample.received [176; 126; 0])).1 in
     (Event.type <$> emitted !! 1%nat) = Some (Some "monomode")
     ∧ (Event.value <$> emitted !! 1%nat) = Some (PBool true)).
Proof. split; [reflexivity |]. split; reflexivity. Qed.

(** C7: for data bytes in 0..127, the pitchbend event has rawValue
    (data2<<7)+data1 and value ((data2<<7)+data1-8192)/8192. *)
Theorem pitchbend_value wm this e data1 data2 :
  Message.type (Event.message e) = Some "pitchbend" ->
  Message.dataBytes (Event.message e) !! 0%nat = Some data1 ->
  Message.dataBytes (Event.message e) !! 1%nat = Some data2 ->
  0 <= data1 <= 127 ->
  0 <= data2 <= 127 ->
  ∃ event q,
    InputChannel._processMidiMessageEvent wm this e
    = ([Enumerations.midimessage this e; event], Normal tt)
    ∧ Event.type event = Some "pitchbend"
    ∧ Event.rawValue event
      = PNumber (Fin (inject_Z (Z.shiftl data2 7 + data1)))
    ∧ Event.value event = PNumber (Fin q)
    ∧ (q == inject_Z (Z.shiftl data2 7 + data1 - 8192) / 8192)%Q.
Proof.
  intros Hty H1 H2 Hd1 Hd2.
  enter_parser. rewrite Hty, H1, H2.
  cbn [String.eqb Ascii.eqb Bool.eqb orb andb].
  rewrite shl_byte by lia.
  leave_parser.
  eexists _, _. split; [reflexivity |].
  split; [reflexivity |]. split; [reflexivity |]. split; [reflexivity |].
  rewrite !Qred_correct.
  unfold Z.sub. rewrite (inject_Z_plus _ (- 8192)).
  reflexivity.
Qed.

(** data1 = 127 and data2 = 127 give 8191/8192. *)
Lemma pitchbend_value_witness :
  ∃ event,
    InputChannel._processMidiMessageEvent Sample.webmidi Sample.channel
      (Sample.received [224; 127; 127])
    = ([Enumerations.midimessage Sample.channel
          (Sample.received [224; 127; 127]); event], Normal tt)
    ∧ Event.rawValue event = PNumber (Fin 16383)
    ∧ ∃ q, Event.value event = PNumber (Fin q) ∧ (q == 8191 # 8192)%Q.
Proof.
  destruct (pitchbend_value Sample.webmidi Sample.channel
              (Sample.received [224; 127; 127]) 127 127)
    as (event & q & Hrun & _ & Hraw & Hvalue & Hq);
    [reflexivity | reflexivity | reflexivity | lia | lia |].
  exists event. split; [exact Hrun |]. split; [exact Hraw |].
  exists q. split; [exact Hvalue |]. rewrite Hq. reflexivity.
Defined.

(** data1 = 0 and data2 = 64, the centre, give the value 0. *)
Example pitchbend_centre :
  Event.value <$>
    (InputChannel._processMidiMessageEvent Sample.webmidi Sample.channel
       (Sample.received [224; 0; 64])).1 !! 1%nat
  = Some (PNumber (Fin 0)).
Proof. reflexivity. Qed.

(** ** The numeric conversions *)

Lemma clamp_inside lo hi x :
  (lo <= x)%Q -> (x <= hi)%Q -> Utilities.clamp lo hi x = x.
Proof.
  intros Hlo Hhi. unfold Utilities.clamp.
  apply Qle_bool_iff in Hlo. rewrite Hlo.
  apply Qle_bool_iff in Hhi. rewrite Hhi. reflexivity.
Qed.

Lemma round_integer z : Utilities.round (inject_Z z) = z.
Proof.
  unfold Utilities.round, Qfloor, inject_Z, Qplus. cbn [Qnum Qden].
  symmetry. apply (Z.div_unique _ _ _ 1); lia.
Qed.

(** C8: for every integer v in 0..127, converting to a float and back
    gives v: fromFloatTo7Bit(from7bitToFloat(v)) = v, where
    from7bitToFloat(v) = clamp(v,0,127)/127 and
    fromFloatTo7Bit(x) = round(clamp(x,0,1)*127). *)
Theorem from7bit_round_trip v :
  0 <= v <= 127 ->
  Utilities.fromFloatTo7Bit
    (Fin (Utilities.from7bitToFloat (Fin (inject_Z v)))) = v.
Proof.
  intros Hv. unfold Utilities.fromFloatTo7Bit, Utilities.from7bitToFloat.
  assert (H0 : (0 <= inject_Z v)%Q)
    by (change 0%Q with (inject_Z 0); rewrite <- Zle_Qle; lia).
  assert (H127 : (inject_Z v <= 127)%Q)
    by (change 127%Q with (inject_Z 127); rewrite <- Zle_Qle; lia).
  rewrite (clamp_inside 0 127 (inject_Z v) H0 H127).
  set (q := Qred (inject_Z v / 127)).
  assert (Hq : (q == inject_Z v / 127)%Q) by apply Qred_correct.
  assert (Hq0 : (0 <= q)%Q).
  { rewrite Hq. apply Qle_shift_div_l; [reflexivity |].
    rewrite Qmult_0_l. exact H0. }
  assert (Hq1 : (q <= 1)%Q).
  { rewrite Hq. apply Qle_shift_div_r; [reflexivity |].
    rewrite Qmult_1_l. exact H127. }
  rewrite (clamp_inside 0 1 q Hq0 Hq1).
  transitivity (Utilities.round (inject_Z v)); [| apply round_integer].
  unfold Utilities.round. apply Qfloor_comp.
  rewrite Hq. field.
Qed.

Lemma from7bit_round_trip_witness :
  Utilities.fromFloatTo7Bit (Fin (Utilities.from7bitToFloat (Fin 100))) = 100.
Proof. apply (from7bit_round_trip 100). lia. Defined.

(** The same round trip on binary64 numbers, where v/127 is rounded: every
    byte still comes back. *)
Lemma from7bit_round_trip_binary64 v :
  0 <= v <= 127 ->
  Binary64.fromFloatTo7Bit (Binary64.from7bitToFloat (Binary64.ofByte v)) = v.
Proof.
  intros Hv.
  assert (Hall :
    forallb
      (fun n => Binary64.fromFloatTo7Bit
                  (Binary64.from7bitToFloat (Binary64.ofByte (Z.of_nat n)))
                =? Z.of_nat n)
      (seq 0 128) = true) by (vm_compute; reflexivity).
  rewrite forallb_forall in Hall.
  specialize (Hall (Z.to_nat v)).
  rewrite Z2Nat.id in Hall by lia.
  apply Z.eqb_eq, Hall, in_seq. lia.
Qed.

(** The infinities and a non-numeric input, as the spec lists them. *)
Example from7bitToFloat_special :
  Utilities.from7bitToFloat PosInf = 1%Q
  ∧ Utilities.from7bitToFloat NegInf = 0%Q
  ∧ Utilities.from7bitToFloat NaN = 0%Q
  ∧ Utilities.from7bitToFloat (Fin 200) = 1%Q
  ∧ Utilities.from7bitToFloat (Fin (-5)) = 0%Q.
Proof. repeat split; reflexivity. Qed.

(** ** The setters of octaveOffset *)

(** C6, evaluated on the code: on a channel, assigning "abc", which
    parseInt cannot read, throws nothing and stores "abc", the guard
    reading [this.validation], which a channel does not have; on WebMidi
    the setter reads the undeclared identifier [value] and throws a
    ReferenceError, whatever is assigned. *)
Theorem octaveOffset_setters_miss_the_validation :
  parseInt (JString "abc") = None
  ∧ (∀ input number,
       InputChannel.set_octaveOffset
         (InputChannel.constructor input number) (JString "abc")
       = Normal {| InputChannel._input := input;
                   InputChannel._number := number;
                   InputChannel._octaveOffset := JString "abc";
                   InputChannel.validation := JUndefined |})
  ∧ (∀ this arg, WebMidi.set_octaveOffset this arg None = Throw ReferenceError).
Proof.
  split; [reflexivity |]. split; [reflexivity |].
  intros this arg. unfold WebMidi.set_octaveOffset.
  destruct (WebMidi.validation this); reflexivity.
Qed.

(** Had the channel a truthy [validation] property, the guarded path would
    run: a value that parseInt cannot read throws a TypeError and nothing
    is stored, a value it can read is stored as the integer. *)
Lemma set_octaveOffset_guarded this value :
  truthy (InputChannel.validation this) = true ->
  match parseInt value with
  | None => InputChannel.set_octaveOffset this value = Throw TypeError
  | Some n =>
      InputChannel.octaveOffset <$> InputChannel.set_octaveOffset this value
      = Normal (JInt n)
  end.
Proof.
  intros Hguard. unfold InputChannel.set_octaveOffset, parseIntVal.
  rewrite Hguard. destruct (parseInt value); reflexivity.
Qed.

(** No assignment makes a constructed channel validate: the setter keeps
    [validation] as it is. *)
Lemma set_octaveOffset_keeps_validation this value this' :
  InputChannel.set_octaveOffset this value = Normal this' ->
  InputChannel.validation this' = InputChannel.validation this.
Proof.
  unfold InputChannel.set_octaveOffset.
  destruct (truthy (InputChannel.validation this));
    [destruct (isNaN (parseIntVal value)); [discriminate |] |];
    intros [= <-]; reflexivity.
Qed.

(** Values parseInt reads and values it does not. *)
Example parseInt_samples :
  parseInt (JString "  -12px") = Some (-12)
  ∧ parseInt (JString "0x1F") = Some 31
  ∧ parseInt (JInt 7) = Some 7
  ∧ parseInt (JString "") = None
  ∧ parseInt JUndefined = None
  ∧ parseInt JNull = None
  ∧ parseInt (JInfinity false) = None.
Proof. repeat split; reflexivity. Qed.

(** ** The emitter *)

(** Visiting a listener that is never removed on its own changes nothing
    but its [count]. *)
Section Quiet.

Import EventEmitter.

Variable answer : nat -> Context -> list JsVal -> JsVal.
Variable run : nat -> Context -> list JsVal -> t -> Completion JsVal * t.

(** Every function returns a value and leaves the emitter alone. *)
Hypothesis quiet : ∀ f c p st, run f c p st = (Normal (answer f c p), st).

#[local] Instance sameButCount_refl : Reflexive sameButCount.
Proof. intros l. reflexivity. Qed.

#[local] Instance sameButCount_trans : Transitive sameButCount.
Proof. intros l1 l2 l3. unfold sameButCount. congruence. Qed.

Lemma answers_app args st refs refs' :
  answers answer args st (refs ++ refs')
  = (answers answer args st refs ++ answers answer args st refs')%list.
Proof. unfold answers. apply bind_app. Qed.

Lemma answers_sameButCount args st st' refs :
  Forall2 sameButCount (listeners st) (listeners st') ->
  answers answer args st' refs = answers answer args st refs.
Proof.
  intros Hsame. unfold answers.
  induction refs as [| ref refs IH]; [reflexivity |].
  cbn. rewrite IH. f_equal.
  destruct (listeners st !! ref) as [l |] eqn:Hl.
  - destruct (Forall2_lookup_l _ _ _ _ _ Hsame Hl) as (l' & Hl' & Heq).
    rewrite Hl'. unfold sameButCount in Heq.
    injection Heq as Harg Hcb Hctx _ _ Hsusp.
    rewrite Harg, Hcb, Hctx, Hsusp. reflexivity.
  - apply lookup_ge_None_1 in Hl.
    rewrite (Forall2_length _ _ _ Hsame) in Hl.
    by rewrite (lookup_ge_None_2 _ _ Hl).
Qed.




Lemma arrayAt_newArray l st :
  arrayAt (newArray l st).2 (newArray l st).1 = l.
Proof.
  unfold arrayAt, newArray. cbn.
  by rewrite list_lookup_middle.
Qed.

Lemma arrayAt_newArray_empty st ref :
  arrayAt (newArray [] st).2 ref = arrayAt st ref.
Proof.
  unfold arrayAt, newArray. cbn.
  destruct (decide (ref < length (arrays st))%nat) as [Hlt | Hge].
  - by rewrite lookup_app_l.
  - rewrite (lookup_ge_None_2 (arrays st)) by lia.
    destruct (decide (ref = length (arrays st))) as [-> | Hne].
    + by rewrite list_lookup_middle.
    + rewrite lookup_ge_None_2; [reflexivity |].
      rewrite length_app. cbn. lia.
Qed.



End Quiet.


(** C10: for a non-empty event name and a function, addListener without
    the options argument throws a TypeError, raised by the Listener
    constructor reading [options.arguments], and registers nothing: the
    emitter is as it was. *)
Theorem addListener_without_options_throws st s f :
  s ≠ "" ->
  EventEmitter.newListener (EventEmitter.OfValue (JString s))
    (EventEmitter.Fn f) None = Throw TypeError
  ∧ EventEmitter.addListener (EventEmitter.OfValue (JString s))
      (EventEmitter.Fn f) None st = (Throw TypeError, st).
Proof.
  intros Hs. split; [reflexivity |].
  unfold EventEmitter.addListener.
  destruct s as [| c s]; [contradiction |].
  reflexivity.
Qed.

Lemma addListener_without_options_throws_witness :
  EventEmitter.addListener (EventEmitter.OfValue (JString "noteon"))
    (EventEmitter.Fn 0) None Sample.twoListeners
  = (Throw TypeError, Sample.twoListeners).
Proof.
  apply (addListener_without_options_throws Sample.twoListeners "noteon" 0).
  discriminate.
Defined.

(** C9, evaluated on the code: on a suspended emitter, emit with a string
    event name runs no listener and returns [undefined], not an array. *)
Theorem emit_suspended_returns_undefined run s args st :
  EventEmitter.eventsSuspended st = true ->
  EventEmitter.emit run (EventEmitter.OfValue (JString s)) args st
  = (Normal EventEmitter.ReturnedUndefined, st).
Proof.
  intros Hsuspended. unfold EventEmitter.emit.
  cbn [EventEmitter.isString negb]. rewrite Hsuspended. reflexivity.
Qed.

Lemma emit_suspended_returns_undefined_witness :
  (EventEmitter.emit Sample.identify (EventEmitter.OfValue (JString "noteon"))
     [] (EventEmitter.with_eventsSuspended true Sample.twoListeners)).1
  = Normal EventEmitter.ReturnedUndefined.
Proof.
  rewrite (emit_suspended_returns_undefined Sample.identify "noteon" []
             (EventEmitter.with_eventsSuspended true Sample.twoListeners));
    reflexivity.
Defined.

(** When the emitter is not suspended, emit returns an array unless a
    function threw. *)
Lemma emit_returns_array_unless_suspended run s args st :
  EventEmitter.eventsSuspended st = false ->
  (∃ results,
     (EventEmitter.emit run (EventEmitter.OfValue (JString s)) args st).1
     = Normal (EventEmitter.ReturnedArray results))
  ∨ (∃ k,
     (EventEmitter.emit run (EventEmitter.OfValue (JString s)) args st).1
     = Throw k).
Proof.
  intros Hsuspended. unfold EventEmitter.emit.
  cbn [EventEmitter.isString negb]. rewrite Hsuspended.
  destruct (match EventEmitter.eventMap st !! EventEmitter.ANY_EVENT_KEY with
            | Some ref => (ref, st)
            | None => EventEmitter.newArray [] st
            end) as [array st0].
  destruct (match EventEmitter.eventMap st0 !! _ with
            | Some ref => _
            | None => (array, st0)
            end) as [array1 st1].
  destruct (EventEmitter.forEach run args array1 0 _ [] st1)
    as [[results | k] st2]; [left | right]; eexists; reflexivity.
Qed.

(** emit refuses an event that is not a string, [ANY_EVENT] included. *)
Lemma emit_refuses_the_symbol run args st :
  EventEmitter.emit run EventEmitter.ANY_EVENT args st = (Throw TypeError, st).
Proof. reflexivity. Qed.

(** The global listener removes listener A while the loop runs: A is still
    called in this cycle, the loop going over the array made before, and
    is gone afterwards. *)
Example removal_during_emit :
  let after :=
    EventEmitter.emit Sample.removing (EventEmitter.OfValue (JString "noteon"))
      [] Sample.twoListeners in
  after.1 = Normal (EventEmitter.ReturnedArray [JInt 1; JInt 0])
  ∧ EventEmitter.getListeners (EventEmitter.OfValue (JString "noteon")) after.2
    = [].
Proof. split; vm_compute; reflexivity. Qed.

(** With no listener under the event name the loop goes over the array of
    the global listeners itself: a listener put in front of it during the
    loop shifts the others, so that function 1 is called twice and
    function 2 not at all. *)
Example prepending_during_emit :
  (EventEmitter.emit Sample.prepending (EventEmitter.OfValue (JString "noteon"))
     [] Sample.twoGlobalListeners).1
  = Normal (EventEmitter.ReturnedArray [JInt 1; JInt 1]).
Proof. vm_compute. reflexivity. Qed.

(** A one-time listener is called once and then removed. *)
Example one_time_listener :
  let after :=
    EventEmitter.emit Sample.identify (EventEmitter.OfValue (JString "noteon"))
      [] Sample.oneTimeListener in
  after.1 = Normal (EventEmitter.ReturnedArray [JInt 0])
  ∧ EventEmitter.getListeners (EventEmitter.OfValue (JString "noteon")) after.2
    = []
  ∧ (EventEmitter.emit Sample.identify
       (EventEmitter.OfValue (JString "noteon")) [] after.2).1
    = Normal (EventEmitter.ReturnedArray []).
Proof. repeat split; vm_compute; reflexivity. Qed.

(** Registration order is array order: without [prepend], addListener
    puts the new listener at the end of the array of its event, with
    [prepend] at the front.  The array of the event, if there is one, is
    an array of the emitter. *)
Lemma addListener_registers_in_order event f options st :
  match event with
  | EventEmitter.OfValue (JString s) | EventEmitter.StringObject s => s ≠ ""
  | EventEmitter.ANY_EVENT => True
  | EventEmitter.OfValue _ => False
  end ->
  EventEmitter.inherited (EventEmitter.keyOf event) = false ->
  (∀ ref, EventEmitter.eventMap st !! EventEmitter.keyOf event = Some ref ->
          (ref < length (EventEmitter.arrays st))%nat) ->
  let new := length (EventEmitter.listeners st) in
  let before := EventEmitter.registered st (EventEmitter.keyOf event) in
  ∃ st',
    EventEmitter.addListener event (EventEmitter.Fn f) (Some options) st
    = (Normal new, st')
    ∧ EventEmitter.registered st' (EventEmitter.keyOf event)
      = if EventEmitter.opt_prepend options then new :: before
        else (before ++ [new])%list.
Proof.
  intros Hevent Hplain Hwf new before. subst new before.
  unfold EventEmitter.addListener, EventEmitter.newListener.
  assert (Hlen :
    match event with
    | EventEmitter.OfValue (JString s) | EventEmitter.StringObject s =>
        (String.length s <? 1)%nat
    | EventEmitter.ANY_EVENT => false
    | EventEmitter.OfValue _ => true
    end = false).
  { destruct event as [[] | s |]; try contradiction; try reflexivity;
      destruct s; [contradiction | reflexivity | contradiction | reflexivity]. }
  rewrite Hlen.
  assert (Hstr : negb (EventEmitter.isString event)
                 && negb (EventEmitter.isAnyEvent event) = false)
    by (destruct event as [[] | s |]; try contradiction; reflexivity).
  rewrite Hstr. cbn zeta.
  set (l := EventEmitter.Build_Listener _ _ _ _ _ _ _).
  set (timer := if EventEmitter.strictEq _ _ then None else Some _).
  set (st1 := match timer with
              | Some delay => _
              | None => EventEmitter.with_listeners _ st
              end).
  assert (Hmap : EventEmitter.eventMap st1 = EventEmitter.eventMap st)
    by (subst st1; destruct timer; reflexivity).
  assert (Harr : EventEmitter.arrays st1 = EventEmitter.arrays st)
    by (subst st1; destruct timer; reflexivity).
  unfold EventEmitter.findsInherited.
  rewrite Hmap. unfold EventEmitter.registered.
  destruct (EventEmitter.eventMap st !! EventEmitter.keyOf event)
    as [ref |] eqn:Hkey.
  - specialize (Hwf ref eq_refl).
    eexists. split; [reflexivity |].
    cbn [EventEmitter.eventMap EventEmitter.with_arrays]. rewrite Hmap, Hkey.
    unfold EventEmitter.arrayAt.
    cbn [EventEmitter.arrays EventEmitter.with_arrays].
    rewrite list_lookup_alter_eq, Harr.
    destruct (lookup_lt_is_Some_2 _ _ Hwf) as [a Ha]. rewrite Ha.
    reflexivity.
  - rewrite Hplain. unfold EventEmitter.newArray.
    cbn [EventEmitter.eventMap EventEmitter.with_arrays
         EventEmitter.with_eventMap EventEmitter.arrays].
    eexists. split; [reflexivity |].
    cbn [EventEmitter.eventMap EventEmitter.with_arrays
         EventEmitter.with_eventMap EventEmitter.arrays].
    rewrite lookup_insert_eq.
    unfold EventEmitter.arrayAt.
    cbn [EventEmitter.arrays EventEmitter.with_arrays].
    rewrite list_lookup_alter_eq, list_lookup_middle by reflexivity.
    cbn. destruct (EventEmitter.opt_prepend options); reflexivity.
Qed.

(** * Further properties of the emitter *)

(** ** Arrays and listeners by reference *)

Lemma arrayAt_newArray_old l st ref :
  (ref < length (EventEmitter.arrays st))%nat ->
  EventEmitter.arrayAt (EventEmitter.newArray l st).2 ref
  = EventEmitter.arrayAt st ref.
Proof.
  intros Href. unfold EventEmitter.arrayAt, EventEmitter.newArray. cbn.
  by rewrite lookup_app_l.
Qed.

Lemma arrayAt_nonempty_valid st ref :
  EventEmitter.arrayAt st ref ≠ [] ->
  (ref < length (EventEmitter.arrays st))%nat.
Proof.
  unfold EventEmitter.arrayAt. intros Hne.
  destruct (EventEmitter.arrays st !! ref) as [a |] eqn:Ha.
  - by apply lookup_lt_Some in Ha.
  - by destruct Hne.
Qed.

Lemma wellFormed_constructor suspended :
  EventEmitter.wellFormed (EventEmitter.constructor suspended).
Proof. split; cbn; intros *; by rewrite lookup_empty. Qed.

Lemma wellFormed_newArray l st :
  EventEmitter.wellFormed st ->
  EventEmitter.wellFormed (EventEmitter.newArray l st).2.
Proof.
  intros [Harr Hlis Hne Hun]. split.
  - intros key ref Hkey. change (EventEmitter.eventMap st !! key = Some ref) in Hkey.
    unfold EventEmitter.newArray. cbn. rewrite length_app. cbn.
    specialize (Harr key ref Hkey). lia.
  - intros key ref r Hkey Hr.
    change (EventEmitter.eventMap st !! key = Some ref) in Hkey.
    pose proof (Harr key ref Hkey) as Href.
    rewrite (arrayAt_newArray_old l st ref Href) in Hr.
    exact (Hlis key ref r Hkey Hr).
  - intros key ref Hkey.
    change (EventEmitter.eventMap st !! key = Some ref) in Hkey.
    pose proof (Harr key ref Hkey) as Href.
    rewrite (arrayAt_newArray_old l st ref Href).
    exact (Hne key ref Hkey).
  - exact Hun.
Qed.

Lemma wellFormed_updateListener f ref st :
  EventEmitter.wellFormed st ->
  EventEmitter.wellFormed (EventEmitter.updateListener f ref st).
Proof.
  intros [Harr Hlis Hne Hun]. split; cbn; try assumption.
  intros key a r Hkey Hr. rewrite length_alter.
  exact (Hlis key a r Hkey Hr).
Qed.

(** The same emitter but for its listeners, whose number is the same. *)
Lemma wellFormed_same_shape st st' :
  EventEmitter.eventMap st' = EventEmitter.eventMap st ->
  EventEmitter.arrays st' = EventEmitter.arrays st ->
  length (EventEmitter.listeners st') = length (EventEmitter.listeners st) ->
  EventEmitter.wellFormed st -> EventEmitter.wellFormed st'.
Proof.
  intros Hmap Harrays Hlen [Harr Hlis Hne Hun].
  split; unfold EventEmitter.arrayAt in *;
    rewrite ?Hmap, ?Harrays, ?Hlen; assumption.
Qed.

(** ** addListener *)

Lemma validEvent_dec event :
  EventEmitter.validEvent event ∨ ¬ EventEmitter.validEvent event.
Proof.
  destruct event as [[] | s |]; cbn; auto;
    destruct (decide (s = "")); auto.
Qed.

Lemma validEvent_accepted event :
  EventEmitter.validEvent event ->
  match event with
  | EventEmitter.OfValue (JString s) | EventEmitter.StringObject s =>
      (String.length s <? 1)%nat
  | EventEmitter.ANY_EVENT => false
  | EventEmitter.OfValue _ => true
  end = false
  ∧ negb (EventEmitter.isString event) && negb (EventEmitter.isAnyEvent event)
    = false.
Proof.
  destruct event as [[] | s |]; cbn; try contradiction; auto;
    destruct s; cbn; auto; contradiction.
Qed.

Lemma invalidEvent_refused event :
  ¬ EventEmitter.validEvent event ->
  match event with
  | EventEmitter.OfValue (JString s) | EventEmitter.StringObject s =>
      (String.length s <? 1)%nat
  | EventEmitter.ANY_EVENT => false
  | EventEmitter.OfValue _ => true
  end = true.
Proof.
  destruct event as [[] | s |]; cbn; auto; try tauto;
    destruct s; cbn; auto; intros H; destruct H; discriminate.
Qed.

Lemma alter_at_end {A} (g : A -> A) (l : list A) (x : A) :
  alter g (length l) (l ++ [x])%list = (l ++ [g x])%list.
Proof. induction l as [| a l IH]; [reflexivity |]. cbn. f_equal. exact IH. Qed.

(** What a successful addListener leaves: one more listener, and the array
    of the event grown by its reference, a new array when the event had
    none. *)
Lemma addListener_added event f options st :
  EventEmitter.validEvent event ->
  EventEmitter.findsInherited st (EventEmitter.keyOf event) = false ->
  let new := length (EventEmitter.listeners st) in
  let key := EventEmitter.keyOf event in
  let grow (a : list nat) :=
    if EventEmitter.opt_prepend options then new :: a else (a ++ [new])%list in
  ∃ l st',
    EventEmitter.addListener event (EventEmitter.Fn f) (Some options) st
    = (Normal new, st')
    ∧ EventEmitter.listeners st' = (EventEmitter.listeners st ++ [l])%list
    ∧ EventEmitter.callback l = f
    ∧ EventEmitter.event l = event
    ∧ EventEmitter.suspended l = false
    ∧ EventEmitter.eventsSuspended st' = EventEmitter.eventsSuspended st
    ∧ match EventEmitter.eventMap st !! key with
      | Some ref =>
          EventEmitter.eventMap st' = EventEmitter.eventMap st
          ∧ EventEmitter.arrays st' = alter grow ref (EventEmitter.arrays st)
      | None =>
          EventEmitter.eventMap st'
          = <[key := length (EventEmitter.arrays st)]> (EventEmitter.eventMap st)
          ∧ EventEmitter.arrays st' = (EventEmitter.arrays st ++ [[new]])%list
      end.
Proof.
  intros Hevent Hplain new key grow.
  destruct (validEvent_accepted event Hevent) as [Hlen Hstr].
  unfold EventEmitter.addListener, EventEmitter.newListener.
  rewrite Hlen, Hstr. cbn zeta.
  set (l := EventEmitter.Build_Listener _ _ _ _ _ _ _).
  set (timer := if EventEmitter.strictEq _ _ then None else Some _).
  set (st1 := match timer with
              | Some delay => _
              | None => EventEmitter.with_listeners _ st
              end).
  assert (Hmap : EventEmitter.eventMap st1 = EventEmitter.eventMap st)
    by (subst st1; destruct timer; reflexivity).
  assert (Harr : EventEmitter.arrays st1 = EventEmitter.arrays st)
    by (subst st1; destruct timer; reflexivity).
  assert (Hlis : EventEmitter.listeners st1
                 = (EventEmitter.listeners st ++ [l])%list)
    by (subst st1; destruct timer; reflexivity).
  assert (Hsus : EventEmitter.eventsSuspended st1
                 = EventEmitter.eventsSuspended st)
    by (subst st1; destruct timer; reflexivity).
  unfold EventEmitter.findsInherited in Hplain |- *.
  rewrite Hmap. fold key in Hplain |- *.
  destruct (EventEmitter.eventMap st !! key) as [ref |] eqn:Hkey.
  - exists l. eexists. split; [reflexivity |].
    cbn [EventEmitter.listeners EventEmitter.with_arrays
         EventEmitter.eventMap EventEmitter.arrays
         EventEmitter.eventsSuspended].
    rewrite Hlis, Hmap, Harr, Hsus. repeat split; reflexivity.
  - exists l. rewrite Hplain. unfold EventEmitter.newArray.
    cbn [EventEmitter.eventMap EventEmitter.with_arrays
         EventEmitter.with_eventMap EventEmitter.arrays].
    eexists. split; [reflexivity |].
    cbn [EventEmitter.listeners EventEmitter.with_arrays
         EventEmitter.with_eventMap EventEmitter.eventMap EventEmitter.arrays
         EventEmitter.eventsSuspended].
    rewrite Hlis, Hmap, Harr, Hsus. repeat split; try reflexivity.
    rewrite alter_at_end. cbn.
    destruct (EventEmitter.opt_prepend options); reflexivity.
Qed.

Lemma inherited_findsInherited st key :
  EventEmitter.inherited key = false ->
  EventEmitter.findsInherited st key = false.
Proof.
  intros Hplain. unfold EventEmitter.findsInherited.
  by destruct (EventEmitter.eventMap st !! key).
Qed.

(** addListener on a name for which [eventMap] finds an inherited value:
    the listener is made, and its timer set, before [push] throws. *)
Lemma addListener_inherited event f options st :
  EventEmitter.validEvent event ->
  EventEmitter.findsInherited st (EventEmitter.keyOf event) = true ->
  ∃ l st',
    EventEmitter.addListener event (EventEmitter.Fn f) (Some options) st
    = (Throw TypeError, st')
    ∧ EventEmitter.eventMap st' = EventEmitter.eventMap st
    ∧ EventEmitter.arrays st' = EventEmitter.arrays st
    ∧ EventEmitter.listeners st' = (EventEmitter.listeners st ++ [l])%list.
Proof.
  intros Hevent Hfinds.
  destruct (validEvent_accepted event Hevent) as [Hlen Hstr].
  unfold EventEmitter.addListener, EventEmitter.newListener.
  rewrite Hlen, Hstr. cbn zeta.
  set (l := EventEmitter.Build_Listener _ _ _ _ _ _ _).
  set (timer := if EventEmitter.strictEq _ _ then None else Some _).
  set (st1 := match timer with
              | Some delay => _
              | None => EventEmitter.with_listeners _ st
              end).
  assert (Hmap : EventEmitter.eventMap st1 = EventEmitter.eventMap st)
    by (subst st1; destruct timer; reflexivity).
  assert (Harr : EventEmitter.arrays st1 = EventEmitter.arrays st)
    by (subst st1; destruct timer; reflexivity).
  assert (Hlis : EventEmitter.listeners st1
                 = (EventEmitter.listeners st ++ [l])%list)
    by (subst st1; destruct timer; reflexivity).
  assert (Hsame : EventEmitter.findsInherited st1 (EventEmitter.keyOf event)
                  = true)
    by (unfold EventEmitter.findsInherited in *; by rewrite Hmap).
  rewrite Hsame. exists l, st1. by repeat split.
Qed.

(** X2: addListener refuses an event that is an empty string or neither a
    string nor ANY_EVENT, a callback that is not a function, and a missing
    options object: it throws a TypeError and the emitter is as it was.
    With a valid event, a function and an options object it succeeds and
    returns the new listener when Object.prototype does not define the
    name of the event; when it does (as for "constructor") the call throws
    a TypeError and registers nothing, the inherited value taking the
    place of the array of the event. *)
Theorem addListener_refuses_or_registers event cb options st :
  (¬ EventEmitter.validEvent event
   ∨ (∃ v, cb = EventEmitter.NotFn v)
   ∨ options = None ->
   EventEmitter.addListener event cb options st = (Throw TypeError, st))
  ∧ (EventEmitter.validEvent event ->
     EventEmitter.inherited (EventEmitter.keyOf event) = false ->
     ∀ f o, cb = EventEmitter.Fn f -> options = Some o ->
     ∃ st', EventEmitter.addListener event cb options st
            = (Normal (length (EventEmitter.listeners st)), st'))
  ∧ (EventEmitter.validEvent event ->
     EventEmitter.inherited (EventEmitter.keyOf event) = true ->
     EventEmitter.wellFormed st ->
     EventEmitter.getListeners event st = [] ->
     ∀ f o, cb = EventEmitter.Fn f -> options = Some o ->
     ∃ st', EventEmitter.addListener event cb options st
            = (Throw TypeError, st')
            ∧ EventEmitter.eventCount st' = EventEmitter.eventCount st
            ∧ ∀ event', EventEmitter.getListeners event' st'
                        = EventEmitter.getListeners event' st).
Proof.
  split; [| split].
  - intros Hbad. unfold EventEmitter.addListener.
    destruct (validEvent_dec event) as [Hvalid | Hinvalid].
    + destruct (validEvent_accepted event Hvalid) as [Hlen Hstr].
      rewrite Hlen.
      destruct cb as [f | v]; [| reflexivity].
      destruct options as [o |].
      * destruct Hbad as [Hbad | [[v Hv] | Hnone]];
          [contradiction | discriminate | discriminate].
      * unfold EventEmitter.newListener. rewrite Hstr. reflexivity.
    + rewrite (invalidEvent_refused event Hinvalid). reflexivity.
  - intros Hvalid Hplain f o -> ->.
    destruct (addListener_added event f o st Hvalid
                (inherited_findsInherited st _ Hplain))
      as (l & st' & Hrun & _).
    exists st'. exact Hrun.
  - intros Hvalid Hinherited Hwf Hnone f o -> ->.
    assert (Hfinds : EventEmitter.findsInherited st (EventEmitter.keyOf event)
                     = true).
    { unfold EventEmitter.findsInherited.
      unfold EventEmitter.getListeners, EventEmitter.registered in Hnone.
      destruct (EventEmitter.eventMap st !! EventEmitter.keyOf event)
        as [ref |] eqn:Hkey; [| exact Hinherited].
      by destruct (EventEmitter.wf_nonempty st Hwf _ _ Hkey). }
    destruct (addListener_inherited event f o st Hvalid Hfinds)
      as (l & st' & Hrun & Hmap & Harr & _).
    exists st'. split; [exact Hrun |].
    split; [unfold EventEmitter.eventCount; by rewrite Hmap |].
    intros event'.
    unfold EventEmitter.getListeners, EventEmitter.registered,
      EventEmitter.arrayAt.
    by rewrite Hmap, Harr.
Qed.

Lemma addListener_refuses_or_registers_witness :
  EventEmitter.addListener (EventEmitter.OfValue (JString "noteon"))
    (EventEmitter.NotFn (JString "f")) (Some EventEmitter.emptyOptions)
    (EventEmitter.constructor false)
  = (Throw TypeError, EventEmitter.constructor false)
  ∧ (∃ st',
       EventEmitter.addListener (EventEmitter.OfValue (JString "noteon"))
         (EventEmitter.Fn 0) (Some EventEmitter.emptyOptions)
         (EventEmitter.constructor false)
       = (Normal 0%nat, st'))
  ∧ (∃ st',
       EventEmitter.addListener (EventEmitter.OfValue (JString "constructor"))
         (EventEmitter.Fn 0) (Some EventEmitter.emptyOptions)
         (EventEmitter.constructor false)
       = (Throw TypeError, st')
       ∧ EventEmitter.eventCount st' = 0%nat).
Proof.
  split; [| split].
  - apply (addListener_refuses_or_registers
             (EventEmitter.OfValue (JString "noteon"))
             (EventEmitter.NotFn (JString "f"))
             (Some EventEmitter.emptyOptions) (EventEmitter.constructor false)).
    right. left. by eexists.
  - apply (proj1 (proj2 (addListener_refuses_or_registers
                           (EventEmitter.OfValue (JString "noteon"))
                           (EventEmitter.Fn 0) (Some EventEmitter.emptyOptions)
                           (EventEmitter.constructor false)))
             ltac:(discriminate) eq_refl 0%nat EventEmitter.emptyOptions
             eq_refl eq_refl).
  - destruct (proj2 (proj2 (addListener_refuses_or_registers
                              (EventEmitter.OfValue (JString "constructor"))
                              (EventEmitter.Fn 0)
                              (Some EventEmitter.emptyOptions)
                              (EventEmitter.constructor false)))
                ltac:(discriminate) eq_refl (wellFormed_constructor false)
                eq_refl 0%nat EventEmitter.emptyOptions eq_refl eq_refl)
      as (st' & Hrun & Hcount & _).
    exists st'. split; [exact Hrun | exact Hcount].
Defined.

Lemma addListener_refused event cb options st :
  ¬ EventEmitter.validEvent event
  ∨ (∃ v, cb = EventEmitter.NotFn v)
  ∨ options = None ->
  EventEmitter.addListener event cb options st = (Throw TypeError, st).
Proof.
  intros Hbad. unfold EventEmitter.addListener.
  destruct (validEvent_dec event) as [Hvalid | Hinvalid].
  - destruct (validEvent_accepted event Hvalid) as [Hlen Hstr].
    rewrite Hlen.
    destruct cb as [f | v]; [| reflexivity].
    destruct options as [o |].
    + destruct Hbad as [Hbad | [[v Hv] | Hnone]];
        [contradiction | discriminate | discriminate].
    + unfold EventEmitter.newListener. rewrite Hstr. reflexivity.
  - rewrite (invalidEvent_refused event Hinvalid). reflexivity.
Qed.

(** The lists of every event after a successful addListener. *)
Lemma addListener_lists event f options st :
  EventEmitter.wellFormed st ->
  EventEmitter.validEvent event ->
  EventEmitter.findsInherited st (EventEmitter.keyOf event) = false ->
  let new := length (EventEmitter.listeners st) in
  let key := EventEmitter.keyOf event in
  ∃ l st',
    EventEmitter.addListener event (EventEmitter.Fn f) (Some options) st
    = (Normal new, st')
    ∧ EventEmitter.listeners st' = (EventEmitter.listeners st ++ [l])%list
    ∧ EventEmitter.callback l = f
    ∧ EventEmitter.wellFormed st'
    ∧ EventEmitter.registered st' key
      = (if EventEmitter.opt_prepend options
         then new :: EventEmitter.registered st key
         else EventEmitter.registered st key ++ [new])%list
    ∧ (∀ key', key' ≠ key ->
         EventEmitter.registered st' key' = EventEmitter.registered st key')
    ∧ EventEmitter.eventCount st'
      = match EventEmitter.eventMap st !! key with
        | Some _ => EventEmitter.eventCount st
        | None => S (EventEmitter.eventCount st)
        end.
Proof.
  intros Hwf Hvalid Hplain new key.
  destruct (addListener_added event f options st Hvalid Hplain)
    as (l & st' & Hrun & Hlis & Hcb & _ & _ & _ & Hshape).
  fold new key in Hrun, Hshape.
  exists l, st'. split; [exact Hrun |]. split; [exact Hlis |].
  split; [exact Hcb |].
  destruct Hwf as [Harr Hmem Hne Hun].
  unfold EventEmitter.registered, EventEmitter.eventCount.
  destruct (EventEmitter.eventMap st !! key) as [ref |] eqn:Hkey.
  - destruct Hshape as [Hmap Harrays].
    pose proof (Harr key ref Hkey) as Href.
    destruct (lookup_lt_is_Some_2 _ _ Href) as [a Ha].
    assert (Hat : ∀ r, EventEmitter.arrayAt st' r
                       = if decide (ref = r)
                         then (if EventEmitter.opt_prepend options
                               then new :: a else a ++ [new])%list
                         else EventEmitter.arrayAt st r).
    { intros r. unfold EventEmitter.arrayAt. rewrite Harrays.
      rewrite list_lookup_alter. case_decide; [subst r | reflexivity].
      rewrite Ha. reflexivity. }
    assert (Hold : EventEmitter.arrayAt st ref = a)
      by (unfold EventEmitter.arrayAt; by rewrite Ha).
    split; [split |].
    + intros k r Hk. rewrite Hmap in Hk. rewrite Harrays, length_alter.
      eauto.
    + intros k r x Hk Hx. rewrite Hmap in Hk. rewrite Hlis, length_app. cbn.
      rewrite Hat in Hx. case_decide.
      * subst r. assert (x = new ∨ x ∈ a) as [-> | Hin].
        { destruct (EventEmitter.opt_prepend options).
          - apply elem_of_cons in Hx. tauto.
          - apply elem_of_app in Hx as [? | Hx]; [tauto |].
            apply list_elem_of_singleton in Hx. tauto. }
        -- subst new. lia.
        -- rewrite <- Hold in Hin. specialize (Hmem key ref x Hkey Hin). lia.
      * specialize (Hmem k r x Hk Hx). lia.
    + intros k r Hk. rewrite Hmap in Hk. rewrite Hat. case_decide.
      * destruct (EventEmitter.opt_prepend options); [discriminate |].
        intros Hnil. by apply app_eq_nil in Hnil as [_ ?].
      * eauto.
    + intros k k' r Hk Hk'. rewrite Hmap in Hk, Hk'. eauto.
    + rewrite Hmap, Hkey, Hat, decide_True by reflexivity.
      split; [by rewrite Hold |]. split; [| reflexivity].
      intros key' Hne'.
      destruct (EventEmitter.eventMap st !! key') as [r |] eqn:Hk';
        [| reflexivity].
      rewrite Hat, decide_False; [reflexivity |].
      intros Heq. subst r. apply Hne'. exact (Hun key' key ref Hk' Hkey).
  - destruct Hshape as [Hmap Harrays].
    assert (Hat : ∀ r, (r < length (EventEmitter.arrays st))%nat ->
                       EventEmitter.arrayAt st' r = EventEmitter.arrayAt st r).
    { intros r Hr. unfold EventEmitter.arrayAt. rewrite Harrays.
      by rewrite lookup_app_l. }
    assert (Hnew : EventEmitter.arrayAt st' (length (EventEmitter.arrays st))
                   = [new]).
    { unfold EventEmitter.arrayAt. rewrite Harrays.
      by rewrite list_lookup_middle. }
    split; [split |].
    + intros k r Hk. rewrite Hmap in Hk. rewrite Harrays, length_app. cbn.
      apply lookup_insert_Some in Hk as [[_ <-] | [_ Hk]]; [lia |].
      specialize (Harr k r Hk). lia.
    + intros k r x Hk Hx. rewrite Hmap in Hk. rewrite Hlis, length_app. cbn.
      apply lookup_insert_Some in Hk as [[_ <-] | [_ Hk]].
      * rewrite Hnew in Hx. apply list_elem_of_singleton in Hx.
        subst x new. lia.
      * rewrite (Hat r (Harr k r Hk)) in Hx.
        specialize (Hmem k r x Hk Hx). lia.
    + intros k r Hk. rewrite Hmap in Hk.
      apply lookup_insert_Some in Hk as [[_ <-] | [_ Hk]].
      * by rewrite Hnew.
      * rewrite (Hat r (Harr k r Hk)). eauto.
    + intros k k' r Hk Hk'. rewrite Hmap in Hk, Hk'.
      apply lookup_insert_Some in Hk as [[<- <-] | [Hne1 Hk]];
        apply lookup_insert_Some in Hk' as [[<- Heq] | [Hne2 Hk']];
        try reflexivity.
      * specialize (Harr k' _ Hk'). lia.
      * subst r. specialize (Harr k _ Hk). lia.
      * eauto.
    + rewrite Hmap, lookup_insert_eq, Hnew.
      split; [by destruct (EventEmitter.opt_prepend options) |].
      split.
      * intros key' Hne'. rewrite lookup_insert_ne by congruence.
        destruct (EventEmitter.eventMap st !! key') as [r |] eqn:Hk';
          [| reflexivity].
        apply Hat. eauto.
      * by rewrite map_size_insert_None.
Qed.

Lemma wellFormed_more_listeners st st' :
  EventEmitter.eventMap st' = EventEmitter.eventMap st ->
  EventEmitter.arrays st' = EventEmitter.arrays st ->
  (length (EventEmitter.listeners st)
   <= length (EventEmitter.listeners st'))%nat ->
  EventEmitter.wellFormed st -> EventEmitter.wellFormed st'.
Proof.
  intros Hmap Harrays Hlen [Harr Hlis Hne Hun].
  split; unfold EventEmitter.arrayAt in *; rewrite ?Hmap, ?Harrays;
    try assumption.
  intros key ref r Hkey Hr. specialize (Hlis key ref r Hkey Hr). lia.
Qed.

Lemma wellFormed_addListener event cb options st :
  EventEmitter.wellFormed st ->
  EventEmitter.wellFormed (EventEmitter.addListener event cb options st).2.
Proof.
  intros Hwf.
  destruct (validEvent_dec event) as [Hvalid | Hinvalid];
    [| rewrite addListener_refused by auto; exact Hwf].
  destruct cb as [f | v];
    [| rewrite addListener_refused by eauto; exact Hwf].
  destruct options as [o |];
    [| rewrite addListener_refused by auto; exact Hwf].
  destruct (EventEmitter.findsInherited st (EventEmitter.keyOf event))
    eqn:Hfinds.
  - destruct (addListener_inherited event f o st Hvalid Hfinds)
      as (l & st' & Hrun & Hmap & Harrays & Hlis).
    rewrite Hrun. cbn [snd].
    apply (wellFormed_more_listeners st st' Hmap Harrays); [| exact Hwf].
    rewrite Hlis, length_app. lia.
  - destruct (addListener_lists event f o st Hwf Hvalid Hfinds)
      as (l & st' & Hrun & _ & _ & Hwf' & _).
    rewrite Hrun. exact Hwf'.
Qed.

(** ** removeListener *)

Lemma removeListener_defined event cb options st :
  event ≠ EventEmitter.OfValue JUndefined ->
  EventEmitter.removeListener event cb options st
  = let key := EventEmitter.keyOf event in
    match EventEmitter.eventMap st !! key with
    | None => (Normal tt, st)
    | Some ref =>
        match EventEmitter.filterKept cb options st
                (EventEmitter.arrayAt st ref) with
        | Throw k => (Throw k, st)
        | Normal [] =>
            (Normal tt,
             EventEmitter.with_eventMap
               (delete key (EventEmitter.eventMap st)) st)
        | Normal l =>
            let '(r, st) := EventEmitter.newArray l st in
            (Normal tt,
             EventEmitter.with_eventMap
               (<[key := r]> (EventEmitter.eventMap st)) st)
        end
    end.
Proof. destruct event as [[] | |]; try reflexivity. contradiction. Qed.

Lemma kept_options cb o l :
  EventEmitter.kept cb (Some o) l = Normal (EventEmitter.stays cb o l).
Proof.
  unfold EventEmitter.kept, EventEmitter.stays.
  destruct (match cb with
            | Some (EventEmitter.Fn f) => _
            | Some (EventEmitter.NotFn v) => _
            | None => false
            end); reflexivity.
Qed.

Lemma filterKept_options cb o st refs :
  (∀ r, r ∈ refs -> (r < length (EventEmitter.listeners st))%nat) ->
  EventEmitter.filterKept cb (Some o) st refs
  = Normal (EventEmitter.staying cb o st refs).
Proof.
  unfold EventEmitter.staying.
  induction refs as [| r refs IH]; intros Hvalid; [reflexivity |].
  cbn [EventEmitter.filterKept].
  destruct (lookup_lt_is_Some_2 (EventEmitter.listeners st) r) as [l Hl];
    [apply Hvalid; left |].
  rewrite Hl, kept_options, IH by (intros x Hx; apply Hvalid; by right).
  rewrite filter_cons.
  assert (Hr : EventEmitter.staysAt cb o st r = EventEmitter.stays cb o l)
    by (unfold EventEmitter.staysAt; by rewrite Hl).
  destruct (EventEmitter.stays cb o l); case_decide; try reflexivity;
    congruence.
Qed.

Lemma staying_subset cb o st refs r :
  r ∈ EventEmitter.staying cb o st refs -> r ∈ refs.
Proof. unfold EventEmitter.staying. intros Hr. by apply list_elem_of_filter in Hr as [_ ?]. Qed.

(** The lists of every event after removeListener with an event and
    options. *)
Lemma removeListener_lists event cb o st :
  EventEmitter.wellFormed st ->
  event ≠ EventEmitter.OfValue JUndefined ->
  let key := EventEmitter.keyOf event in
  ∃ st',
    EventEmitter.removeListener event cb (Some o) st = (Normal tt, st')
    ∧ EventEmitter.listeners st' = EventEmitter.listeners st
    ∧ EventEmitter.wellFormed st'
    ∧ EventEmitter.registered st' key
      = EventEmitter.staying cb o st (EventEmitter.registered st key)
    ∧ (∀ key', key' ≠ key ->
         EventEmitter.registered st' key' = EventEmitter.registered st key').
Proof.
  intros Hwf Hevent key.
  rewrite (removeListener_defined event cb (Some o) st Hevent). fold key.
  cbn zeta. unfold EventEmitter.registered.
  destruct (EventEmitter.eventMap st !! key) as [ref |] eqn:Hkey.
  2:{ exists st. rewrite Hkey.
      split; [reflexivity |]. split; [reflexivity |]. split; [exact Hwf |].
      split; [reflexivity | intros; reflexivity]. }
  destruct Hwf as [Harr Hmem Hne Hun].
  rewrite filterKept_options by (intros r Hr; exact (Hmem key ref r Hkey Hr)).
  destruct (EventEmitter.staying cb o st (EventEmitter.arrayAt st ref))
    as [| x l] eqn:Hstay.
  - eexists. split; [reflexivity |]. split; [reflexivity |].
    split; [split |].
    + intros k r Hk. cbn in Hk.
      apply lookup_delete_Some in Hk as [_ Hk]. exact (Harr k r Hk).
    + intros k r y Hk Hy. cbn in Hk.
      apply lookup_delete_Some in Hk as [_ Hk].
      exact (Hmem k r y Hk Hy).
    + intros k r Hk. cbn in Hk.
      apply lookup_delete_Some in Hk as [_ Hk]. exact (Hne k r Hk).
    + intros k k' r Hk Hk'. cbn in Hk, Hk'.
      apply lookup_delete_Some in Hk as [_ Hk].
      apply lookup_delete_Some in Hk' as [_ Hk']. eauto.
    + cbn [EventEmitter.eventMap EventEmitter.with_eventMap].
      rewrite lookup_delete_eq. split; [reflexivity |].
      intros key' Hne'. by rewrite lookup_delete_ne by congruence.
  - set (new := x :: l) in *.
    assert (Hsub : ∀ r, r ∈ new -> r ∈ EventEmitter.arrayAt st ref)
      by (intros r Hr; rewrite <- Hstay in Hr;
          exact (staying_subset _ _ _ _ _ Hr)).
    assert (Hat : ∀ r, (r < length (EventEmitter.arrays st))%nat ->
                       EventEmitter.arrayAt (EventEmitter.newArray new st).2 r
                       = EventEmitter.arrayAt st r)
      by (intros r Hr; by apply arrayAt_newArray_old).
    pose proof (arrayAt_newArray new st) as Hnew.
    destruct (EventEmitter.newArray new st) as [fresh st0] eqn:Hst0.
    cbn [fst snd] in Hat, Hnew.
    assert (Hfresh : fresh = length (EventEmitter.arrays st))
      by (injection Hst0 as <- _; reflexivity).
    assert (Hmap0 : EventEmitter.eventMap st0 = EventEmitter.eventMap st)
      by (injection Hst0 as _ <-; reflexivity).
    assert (Hlis0 : EventEmitter.listeners st0 = EventEmitter.listeners st)
      by (injection Hst0 as _ <-; reflexivity).
    assert (Hlen0 : length (EventEmitter.arrays st0)
                    = S (length (EventEmitter.arrays st))).
    { injection Hst0 as _ <-. cbn. rewrite length_app. cbn. lia. }
    set (st1 := EventEmitter.with_eventMap
                  (<[key := fresh]> (EventEmitter.eventMap st0)) st0).
    assert (Hmap1 : EventEmitter.eventMap st1
                    = <[key := fresh]> (EventEmitter.eventMap st))
      by (subst st1; cbn; by rewrite Hmap0).
    assert (Hat1 : ∀ r, EventEmitter.arrayAt st1 r = EventEmitter.arrayAt st0 r)
      by reflexivity.
    assert (Hlen1 : length (EventEmitter.arrays st1)
                    = S (length (EventEmitter.arrays st)))
      by exact Hlen0.
    assert (Hlis1 : EventEmitter.listeners st1 = EventEmitter.listeners st)
      by exact Hlis0.
    exists st1. split; [reflexivity |]. split; [exact Hlis1 |].
    clearbody st1.
    split; [split |].
    + intros k r Hk. rewrite Hmap1 in Hk. rewrite Hlen1.
      apply lookup_insert_Some in Hk as [[_ <-] | [_ Hk]]; [lia |].
      specialize (Harr k r Hk). lia.
    + intros k r y Hk Hy. rewrite Hmap1 in Hk. rewrite Hat1 in Hy.
      rewrite Hlis1.
      apply lookup_insert_Some in Hk as [[_ <-] | [_ Hk]].
      * rewrite Hnew in Hy. exact (Hmem key ref y Hkey (Hsub y Hy)).
      * rewrite (Hat r (Harr k r Hk)) in Hy. exact (Hmem k r y Hk Hy).
    + intros k r Hk. rewrite Hmap1 in Hk. rewrite Hat1.
      apply lookup_insert_Some in Hk as [[_ <-] | [_ Hk]].
      * by rewrite Hnew.
      * rewrite (Hat r (Harr k r Hk)). eauto.
    + intros k k' r Hk Hk'. rewrite Hmap1 in Hk, Hk'.
      apply lookup_insert_Some in Hk as [[<- <-] | [Hne1 Hk]];
        apply lookup_insert_Some in Hk' as [[<- Heq] | [Hne2 Hk']];
        try reflexivity.
      * specialize (Harr k' _ Hk'). lia.
      * subst r. specialize (Harr k _ Hk). lia.
      * eauto.
    + rewrite Hmap1, lookup_insert_eq, Hat1, Hnew. split; [reflexivity |].
      intros key' Hne'. rewrite lookup_insert_ne by congruence.
      destruct (EventEmitter.eventMap st !! key') as [r |] eqn:Hk';
        [| reflexivity].
      rewrite Hat1. apply Hat. eauto.
Qed.

(** ** What addListener leaves *)

(** X1: addListener with a valid event whose name Object.prototype does
    not define, a function and an options object returns the new listener
    and registers it under the event: at the end of the list of the event,
    or at its start when options.prepend is set.  The lists of the other
    events and the listeners made before are as they were. *)
Theorem addListener_appends_or_prepends event f options st :
  EventEmitter.wellFormed st ->
  EventEmitter.validEvent event ->
  EventEmitter.inherited (EventEmitter.keyOf event) = false ->
  let new := length (EventEmitter.listeners st) in
  ∃ st',
    EventEmitter.addListener event (EventEmitter.Fn f) (Some options) st
    = (Normal new, st')
    ∧ EventEmitter.getListeners event st'
      = (if EventEmitter.opt_prepend options
         then new :: EventEmitter.getListeners event st
         else EventEmitter.getListeners event st ++ [new])%list
    ∧ (∀ event', EventEmitter.keyOf event' ≠ EventEmitter.keyOf event ->
         EventEmitter.getListeners event' st'
         = EventEmitter.getListeners event' st)
    ∧ (∃ l, EventEmitter.listeners st' !! new = Some l
            ∧ EventEmitter.callback l = f)
    ∧ (∀ r l, EventEmitter.listeners st !! r = Some l ->
              EventEmitter.listeners st' !! r = Some l).
Proof.
  intros Hwf Hvalid Hplain new.
  destruct (addListener_lists event f options st Hwf Hvalid
              (inherited_findsInherited st _ Hplain))
    as (l & st' & Hadd & Hlis & Hcb & _ & Hown & Hframe & _).
  exists st'. split; [exact Hadd |]. split; [exact Hown |].
  split; [intros event' Hne; exact (Hframe _ Hne) |].
  rewrite Hlis. split.
  - exists l. split; [| exact Hcb]. subst new. by rewrite list_lookup_middle.
  - intros r l' Hr. by apply lookup_app_l_Some.
Qed.

Lemma addListener_appends_or_prepends_witness :
  ∃ st',
    EventEmitter.addListener (EventEmitter.OfValue (JString "noteon"))
      (EventEmitter.Fn 7) (Some EventEmitter.emptyOptions) Sample.twoListeners
    = (Normal 2%nat, st')
    ∧ EventEmitter.getListeners (EventEmitter.OfValue (JString "noteon")) st'
      = [0%nat; 2%nat]
    ∧ EventEmitter.getListeners EventEmitter.ANY_EVENT st' = [1%nat].
Proof.
  assert (Hwf : EventEmitter.wellFormed Sample.twoListeners)
    by (unfold Sample.twoListeners; do 2 apply wellFormed_addListener;
        apply wellFormed_constructor).
  destruct (addListener_appends_or_prepends
              (EventEmitter.OfValue (JString "noteon")) 7
              EventEmitter.emptyOptions Sample.twoListeners Hwf)
    as (st' & Hadd & Hown & Hframe & _);
    [cbn; discriminate | reflexivity |].
  exists st'. split; [exact Hadd |]. split; [exact Hown |].
  exact (Hframe EventEmitter.ANY_EVENT ltac:(discriminate)).
Defined.

(** An event has an array exactly when it has listeners. *)
Lemma registered_nil st key :
  EventEmitter.wellFormed st ->
  EventEmitter.registered st key = [] <-> EventEmitter.eventMap st !! key = None.
Proof.
  intros Hwf. unfold EventEmitter.registered.
  destruct (EventEmitter.eventMap st !! key) as [ref |] eqn:Hkey.
  - split; [| discriminate]. intros Hnil.
    by destruct (EventEmitter.wf_nonempty st Hwf key ref Hkey).
  - done.
Qed.

(** X3: after addListener with a valid event whose name Object.prototype
    does not define, a function and an options object (the call then
    succeeds), eventCount is one more when the event had no listener and
    the same otherwise; the listeners of ANY_EVENT are counted under their
    key like those of any event. *)
Theorem eventCount_after_addListener event f options st :
  EventEmitter.wellFormed st ->
  EventEmitter.validEvent event ->
  EventEmitter.inherited (EventEmitter.keyOf event) = false ->
  EventEmitter.eventCount
    (EventEmitter.addListener event (EventEmitter.Fn f) (Some options) st).2
  = if bool_decide (EventEmitter.getListeners event st = [])
    then S (EventEmitter.eventCount st)
    else EventEmitter.eventCount st.
Proof.
  intros Hwf Hvalid Hplain.
  destruct (addListener_lists event f options st Hwf Hvalid
              (inherited_findsInherited st _ Hplain))
    as (l & st' & Hadd & _ & _ & _ & _ & _ & Hcount).
  rewrite Hadd. cbn [snd]. rewrite Hcount.
  unfold EventEmitter.getListeners.
  pose proof (registered_nil st (EventEmitter.keyOf event) Hwf) as Hnil.
  destruct (EventEmitter.eventMap st !! EventEmitter.keyOf event) as [ref |];
    case_bool_decide as Hreg; try reflexivity.
  - apply Hnil in Hreg. discriminate.
  - destruct Hreg. by apply Hnil.
Qed.

Lemma eventCount_after_addListener_witness :
  EventEmitter.eventCount
    (EventEmitter.addListener EventEmitter.ANY_EVENT (EventEmitter.Fn 0)
       (Some EventEmitter.emptyOptions) (EventEmitter.constructor false)).2
  = 1%nat.
Proof.
  rewrite (eventCount_after_addListener EventEmitter.ANY_EVENT 0
             EventEmitter.emptyOptions (EventEmitter.constructor false)
             (wellFormed_constructor false) I eq_refl).
  reflexivity.
Defined.

(** ** hasListener *)

Lemma someCallback_spec f st refs :
  (∀ r, r ∈ refs -> (r < length (EventEmitter.listeners st))%nat) ->
  ∃ b, EventEmitter.someCallback f st refs = Normal b
       ∧ (b = true <->
          ∃ r l, r ∈ refs ∧ EventEmitter.listeners st !! r = Some l
                 ∧ EventEmitter.callback l = f).
Proof.
  induction refs as [| r refs IH]; intros Hvalid.
  - exists false. split; [reflexivity |]. split; [discriminate |].
    intros (r & l & Hr & _). by apply elem_of_nil in Hr.
  - destruct (lookup_lt_is_Some_2 (EventEmitter.listeners st) r) as [l Hl];
      [apply Hvalid; left |].
    destruct IH as (b & Hrest & Hb); [intros x Hx; apply Hvalid; by right |].
    cbn [EventEmitter.someCallback]. rewrite Hl, Hrest. cbn.
    eexists. split; [reflexivity |].
    rewrite orb_true_iff, Nat.eqb_eq, Hb. split.
    + intros [Hf | (r' & l' & Hr' & Hl' & Hf)].
      * exists r, l. split; [left | done].
      * exists r', l'. split; [by right | done].
    + intros (r' & l' & Hr' & Hl' & Hf).
      apply elem_of_cons in Hr' as [-> | Hr'].
      * left. congruence.
      * right. eauto.
Qed.

(** X4: for an event that is given and whose name Object.prototype does
    not define, hasListener(event) tells whether the
    event has a listener, hasListener(event, listener) whether that
    Listener object is registered for the event, hasListener(event,
    function) whether some listener of the event has the function as its
    callback, and a second argument that is neither, nor undefined or
    null, gives false. *)
Theorem hasListener_tells_what_is_registered event st :
  EventEmitter.wellFormed st ->
  event ≠ EventEmitter.OfValue JUndefined ->
  EventEmitter.inherited (EventEmitter.keyOf event) = false ->
  EventEmitter.hasListener event EventEmitter.AnyListener st
  = Normal (bool_decide (EventEmitter.getListeners event st ≠ []))
  ∧ (∀ r, EventEmitter.hasListener event (EventEmitter.TheListener r) st
          = Normal (bool_decide (r ∈ EventEmitter.getListeners event st)))
  ∧ (∀ f, ∃ b,
       EventEmitter.hasListener event (EventEmitter.TheFunction f) st
       = Normal b
       ∧ (b = true <->
          ∃ r l, r ∈ EventEmitter.getListeners event st
                 ∧ EventEmitter.listeners st !! r = Some l
                 ∧ EventEmitter.callback l = f))
  ∧ (∀ v, v ≠ JUndefined -> v ≠ JNull ->
          EventEmitter.hasListener event (EventEmitter.OtherValue v) st
          = Normal false).
Proof.
  intros Hwf Hevent Hplain.
  assert (Hnone : EventEmitter.inheritedLength (EventEmitter.keyOf event)
                  = None).
  { unfold EventEmitter.inherited in Hplain.
    by destruct (EventEmitter.inheritedLength (EventEmitter.keyOf event)). }
  assert (Hhas : ∀ sought,
    EventEmitter.hasListener event sought st
    = match EventEmitter.eventMap st !! EventEmitter.keyOf event with
      | Some ref =>
          let array := EventEmitter.arrayAt st ref in
          if (0 <? length array)%nat then
            match sought with
            | EventEmitter.TheListener l => Normal (bool_decide (l ∈ array))
            | EventEmitter.TheFunction f => EventEmitter.someCallback f st array
            | EventEmitter.OtherValue JUndefined
            | EventEmitter.OtherValue JNull
            | EventEmitter.AnyListener => Normal true
            | EventEmitter.OtherValue _ => Normal false
            end
          else Normal false
      | None => Normal false
      end).
  { intros sought. unfold EventEmitter.hasListener. rewrite Hnone.
    destruct event as [[] | |]; try reflexivity. contradiction. }
  unfold EventEmitter.getListeners, EventEmitter.registered.
  destruct (EventEmitter.eventMap st !! EventEmitter.keyOf event)
    as [ref |] eqn:Hkey.
  - pose proof (EventEmitter.wf_nonempty st Hwf _ _ Hkey) as Hne.
    assert (Hlen : (0 <? length (EventEmitter.arrayAt st ref))%nat = true).
    { apply Nat.ltb_lt. destruct (EventEmitter.arrayAt st ref); [done | cbn; lia]. }
    split; [| split; [| split]].
    + rewrite Hhas. cbn zeta. rewrite Hlen. by rewrite bool_decide_eq_true_2.
    + intros r. rewrite Hhas. cbn zeta. by rewrite Hlen.
    + intros f. rewrite Hhas. cbn zeta. rewrite Hlen.
      apply someCallback_spec. intros r Hr.
      exact (EventEmitter.wf_listener st Hwf _ _ r Hkey Hr).
    + intros v Hu Hn. rewrite Hhas. cbn zeta. rewrite Hlen.
      destruct v; try reflexivity; contradiction.
  - split; [| split; [| split]].
    + rewrite Hhas. by rewrite bool_decide_eq_false_2 by (intros H; by apply H).
    + intros r. rewrite Hhas. rewrite bool_decide_eq_false_2; [done |].
      apply not_elem_of_nil.
    + intros f. rewrite Hhas. exists false. split; [reflexivity |].
      split; [discriminate |]. intros (r & l & Hr & _). by apply elem_of_nil in Hr.
    + intros v _ _. by rewrite Hhas.
Qed.

Lemma hasListener_tells_what_is_registered_witness :
  EventEmitter.hasListener (EventEmitter.OfValue (JString "noteon"))
    EventEmitter.AnyListener Sample.twoListeners
  = Normal true.
Proof.
  assert (Hwf : EventEmitter.wellFormed Sample.twoListeners)
    by (unfold Sample.twoListeners; do 2 apply wellFormed_addListener;
        apply wellFormed_constructor).
  destruct (hasListener_tells_what_is_registered
              (EventEmitter.OfValue (JString "noteon")) Sample.twoListeners
              Hwf ltac:(discriminate) eq_refl) as [Hany _].
  rewrite Hany. reflexivity.
Defined.

(** X5: hasListener() without an event is true exactly when eventCount is
    not 0, the key of the global listeners included. *)
Theorem hasListener_without_event sought st :
  EventEmitter.wellFormed st ->
  EventEmitter.hasListener (EventEmitter.OfValue JUndefined) sought st
  = Normal (bool_decide (EventEmitter.eventCount st ≠ 0%nat)).
Proof.
  intros Hwf. unfold EventEmitter.hasListener, EventEmitter.eventCount.
  rewrite <- length_map_to_list.
  destruct (map_to_list (EventEmitter.eventMap st)) as [| [k ref] rest] eqn:Hl.
  - apply map_to_list_empty_iff in Hl. rewrite Hl, lookup_empty. reflexivity.
  - assert (Hk : EventEmitter.eventMap st !! k = Some ref)
      by (apply elem_of_map_to_list; rewrite Hl; left).
    pose proof (EventEmitter.wf_nonempty st Hwf _ _ Hk) as Hne.
    cbn [existsb snd length].
    destruct (EventEmitter.arrayAt st ref); [done |].
    cbn. by rewrite orb_true_r.
Qed.

Lemma hasListener_without_event_witness :
  EventEmitter.hasListener (EventEmitter.OfValue JUndefined)
    EventEmitter.AnyListener Sample.twoListeners
  = Normal true.
Proof.
  rewrite (hasListener_without_event EventEmitter.AnyListener
             Sample.twoListeners).
  - reflexivity.
  - unfold Sample.twoListeners; do 2 apply wellFormed_addListener;
      apply wellFormed_constructor.
Defined.

(** ** removeListener *)

Lemma removeListener_eventCount event cb o st :
  EventEmitter.wellFormed st ->
  event ≠ EventEmitter.OfValue JUndefined ->
  let key := EventEmitter.keyOf event in
  EventEmitter.eventCount
    (EventEmitter.removeListener event cb (Some o) st).2
  = if bool_decide (EventEmitter.registered st key ≠ []
                    ∧ EventEmitter.staying cb o st
                        (EventEmitter.registered st key) = [])
    then pred (EventEmitter.eventCount st)
    else EventEmitter.eventCount st.
Proof.
  intros Hwf Hevent key.
  pose proof (registered_nil st key Hwf) as Hnil.
  rewrite removeListener_defined by exact Hevent. fold key.
  unfold EventEmitter.registered in *.
  destruct (EventEmitter.eventMap st !! key) as [ref |] eqn:Hkey.
  - rewrite filterKept_options
      by (intros r Hr; exact (EventEmitter.wf_listener st Hwf key ref r Hkey Hr)).
    assert (Hne : EventEmitter.arrayAt st ref ≠ [])
      by (intros H; apply Hnil in H; discriminate).
    destruct (EventEmitter.staying cb o st (EventEmitter.arrayAt st ref))
      as [| x l] eqn:Hstay.
    + rewrite bool_decide_eq_true_2 by done.
      unfold EventEmitter.eventCount. cbn.
      by rewrite map_size_delete, Hkey.
    + rewrite bool_decide_eq_false_2 by (intros [_ ?]; discriminate).
      unfold EventEmitter.eventCount. cbn.
      by rewrite map_size_insert, Hkey.
  - rewrite bool_decide_eq_false_2 by (intros [H _]; by apply H).
    reflexivity.
Qed.

(** X6: removeListener with an event whose name Object.prototype does not
    define and an options object does not throw.
    The event keeps, in their order, the listeners that differ from what
    is asked: another callback, or a truthy options.remaining or
    options.context that is not theirs.  The other events and the Listener
    objects are untouched, and eventCount drops by one exactly when the
    event loses its last listener. *)
Theorem removeListener_keeps_what_differs event cb o st :
  EventEmitter.wellFormed st ->
  event ≠ EventEmitter.OfValue JUndefined ->
  EventEmitter.inherited (EventEmitter.keyOf event) = false ->
  ∃ st',
    EventEmitter.removeListener event cb (Some o) st = (Normal tt, st')
    ∧ EventEmitter.getListeners event st'
      = EventEmitter.staying cb o st (EventEmitter.getListeners event st)
    ∧ (∀ event', EventEmitter.keyOf event' ≠ EventEmitter.keyOf event ->
         EventEmitter.getListeners event' st'
         = EventEmitter.getListeners event' st)
    ∧ EventEmitter.listeners st' = EventEmitter.listeners st
    ∧ EventEmitter.eventCount st'
      = if bool_decide (EventEmitter.getListeners event st ≠ []
                        ∧ EventEmitter.getListeners event st' = [])
        then pred (EventEmitter.eventCount st)
        else EventEmitter.eventCount st.
Proof.
  intros Hwf Hevent _.
  pose proof (removeListener_eventCount event cb o st Hwf Hevent) as Hcount.
  destruct (removeListener_lists event cb o st Hwf Hevent)
    as (st' & Hrem & Hlis & _ & Hown & Hframe).
  exists st'. rewrite Hrem in Hcount. cbn [snd] in Hcount.
  split; [exact Hrem |]. split; [exact Hown |].
  split; [intros event' Hne; exact (Hframe _ Hne) |].
  split; [exact Hlis |].
  unfold EventEmitter.getListeners. rewrite Hown. exact Hcount.
Qed.

Lemma removeListener_keeps_what_differs_witness :
  ∃ st',
    EventEmitter.removeListener (EventEmitter.OfValue (JString "noteon"))
      (Some (EventEmitter.Fn 0))
      (Some {| EventEmitter.rem_context := None;
               EventEmitter.rem_remaining := JUndefined |})
      Sample.twoListeners
    = (Normal tt, st')
    ∧ EventEmitter.getListeners (EventEmitter.OfValue (JString "noteon")) st'
      = []
    ∧ EventEmitter.getListeners EventEmitter.ANY_EVENT st' = [1%nat]
    ∧ EventEmitter.eventCount st' = 1%nat.
Proof.
  assert (Hwf : EventEmitter.wellFormed Sample.twoListeners)
    by (unfold Sample.twoListeners; do 2 apply wellFormed_addListener;
        apply wellFormed_constructor).
  destruct (removeListener_keeps_what_differs
              (EventEmitter.OfValue (JString "noteon"))
              (Some (EventEmitter.Fn 0))
              {| EventEmitter.rem_context := None;
                 EventEmitter.rem_remaining := JUndefined |}
              Sample.twoListeners Hwf ltac:(discriminate) eq_refl)
    as (st' & Hrem & Hown & Hframe & _ & Hcount).
  exists st'. split; [exact Hrem |]. split; [exact Hown |].
  split; [exact (Hframe EventEmitter.ANY_EVENT ltac:(discriminate)) |].
  rewrite Hcount, Hown. reflexivity.
Defined.

(** Without the options object, a listener the callback test does not
    keep makes the filter throw. *)
Lemma filterKept_throws cb st refs r l :
  r ∈ refs ->
  EventEmitter.listeners st !! r = Some l ->
  EventEmitter.kept cb None l = Throw TypeError ->
  EventEmitter.filterKept cb None st refs = Throw TypeError.
Proof.
  intros Hr Hl Hkept.
  induction refs as [| x refs IH]; [by apply elem_of_nil in Hr |].
  cbn [EventEmitter.filterKept].
  destruct (EventEmitter.listeners st !! x) as [lx |] eqn:Hx; [| reflexivity].
  assert (Hany : ∀ l', EventEmitter.kept cb None l' = Throw TypeError
                       ∨ EventEmitter.kept cb None l' = Normal true).
  { intros l'. unfold EventEmitter.kept.
    destruct (match cb with
              | Some (EventEmitter.Fn f) => _
              | Some (EventEmitter.NotFn v) => _
              | None => false
              end); [by right | by left]. }
  apply elem_of_cons in Hr as [-> | Hr].
  - rewrite Hl in Hx. injection Hx as <-. by rewrite Hkept.
  - destruct (Hany lx) as [-> | ->]; [reflexivity |].
    cbn. by rewrite (IH Hr).
Qed.

(** X7: removeListener(event) and removeListener(event, callback), without
    the options object, throw a TypeError and remove nothing as soon as
    the event has a listener that the callback test does not keep (any
    listener when no callback is given, a listener of that callback
    otherwise): the filter then reads options.remaining. *)
Theorem removeListener_without_options_throws event cb st r l :
  event ≠ EventEmitter.OfValue JUndefined ->
  r ∈ EventEmitter.getListeners event st ->
  EventEmitter.listeners st !! r = Some l ->
  cb = None ∨ cb = Some (EventEmitter.Fn (EventEmitter.callback l)) ->
  EventEmitter.removeListener event cb None st = (Throw TypeError, st).
Proof.
  intros Hevent Hr Hl Hcb.
  rewrite removeListener_defined by exact Hevent. cbn zeta.
  unfold EventEmitter.getListeners, EventEmitter.registered in Hr.
  destruct (EventEmitter.eventMap st !! EventEmitter.keyOf event) as [ref |];
    [| by apply elem_of_nil in Hr].
  rewrite (filterKept_throws cb st _ r l Hr Hl); [reflexivity |].
  unfold EventEmitter.kept.
  destruct Hcb as [-> | ->]; [reflexivity |].
  by rewrite Nat.eqb_refl.
Qed.

Lemma removeListener_without_options_throws_witness :
  EventEmitter.removeListener (EventEmitter.OfValue (JString "noteon"))
    None None Sample.twoListeners
  = (Throw TypeError, Sample.twoListeners).
Proof.
  eapply (removeListener_without_options_throws
            (EventEmitter.OfValue (JString "noteon")) None
            Sample.twoListeners 0%nat).
  - discriminate.
  - vm_compute. left.
  - reflexivity.
  - by left.
Defined.

(** ** What every emitter keeps true *)

Lemma filterKept_without_options cb st refs l :
  EventEmitter.filterKept cb None st refs = Normal l ->
  EventEmitter.filterKept cb
    (Some {| EventEmitter.rem_context := None;
             EventEmitter.rem_remaining := JUndefined |}) st refs
  = Normal l.
Proof.
  revert l. induction refs as [| r refs IH]; intros l; [done |].
  cbn [EventEmitter.filterKept].
  destruct (EventEmitter.listeners st !! r) as [lr |]; [| done].
  unfold EventEmitter.kept. cbn [EventEmitter.rem_remaining
    EventEmitter.rem_context truthy andb orb].
  destruct (match cb with
            | Some (EventEmitter.Fn f) => _
            | Some (EventEmitter.NotFn v) => _
            | None => false
            end); [| done].
  cbn.
  destruct (EventEmitter.filterKept cb None st refs) as [tail | k]; [| done].
  rewrite (IH tail eq_refl). done.
Qed.

Lemma wellFormed_removeListener event cb options st :
  EventEmitter.wellFormed st ->
  EventEmitter.wellFormed (EventEmitter.removeListener event cb options st).2.
Proof.
  intros Hwf.
  assert (Hcase : event = EventEmitter.OfValue JUndefined
                  ∨ event ≠ EventEmitter.OfValue JUndefined)
    by (destruct event as [[] | |]; (by left) || (right; discriminate)).
  destruct Hcase as [-> | Hevent].
  - cbn. split; cbn; intros *; rewrite lookup_empty; discriminate.
  - destruct options as [o |].
    + destruct (removeListener_lists event cb o st Hwf Hevent)
        as (st' & -> & _ & Hwf' & _). exact Hwf'.
    + pose proof (removeListener_lists event cb
                    {| EventEmitter.rem_context := None;
                       EventEmitter.rem_remaining := JUndefined |}
                    st Hwf Hevent) as (st' & Hrem & _ & Hwf' & _).
      rewrite removeListener_defined in Hrem |- * by exact Hevent.
      cbn zeta in *.
      destruct (EventEmitter.eventMap st !! EventEmitter.keyOf event)
        as [ref |]; [| exact Hwf].
      destruct (EventEmitter.filterKept cb None st _) as [l | k] eqn:Hf;
        [| exact Hwf].
      rewrite (filterKept_without_options _ _ _ _ Hf) in Hrem.
      rewrite Hrem. exact Hwf'.
Qed.

Lemma wellFormed_remove ref st :
  EventEmitter.wellFormed st ->
  EventEmitter.wellFormed (EventEmitter.remove ref st).2.
Proof.
  intros Hwf. unfold EventEmitter.remove.
  destruct (EventEmitter.listeners st !! ref); [| exact Hwf].
  by apply wellFormed_removeListener.
Qed.

Lemma wellFormed_updateListeners f refs : ∀ st,
  EventEmitter.wellFormed st ->
  EventEmitter.wellFormed
    (foldl (fun st ref => EventEmitter.updateListener f ref st) st refs).
Proof.
  induction refs as [| r refs IH]; intros st Hwf; [exact Hwf |].
  cbn. apply IH. by apply wellFormed_updateListener.
Qed.

Lemma wellFormed_addOneTimeListener event cb options st :
  EventEmitter.wellFormed st ->
  EventEmitter.wellFormed
    (EventEmitter.addOneTimeListener event cb options st).2.
Proof.
  intros Hwf. unfold EventEmitter.addOneTimeListener.
  destruct options; [| exact Hwf]. by apply wellFormed_addListener.
Qed.

Section Kept.

Import EventEmitter.

Variable run : nat -> Context -> list JsVal -> t -> Completion JsVal * t.

(** The functions called leave the emitter well formed, as they do when
    they only use its methods. *)
Hypothesis run_wellFormed :
  ∀ f c p st, wellFormed st -> wellFormed (run f c p st).2.

Lemma wellFormed_visit args ref results st :
  wellFormed st -> wellFormed (visit run args ref results st).2.
Proof.
  intros Hwf. unfold visit.
  destruct (listeners st !! ref) as [l |]; [| exact Hwf].
  destruct (suspended l); [exact Hwf |].
  set (params := (args ++ default [] (arguments l))%list).
  assert (Hcalled : ∃ called st1,
    (if positive (remaining l) then
       match run (callback l) (context l) params st with
       | (Normal v, st) =>
           (Normal (results ++ [v])%list,
            updateListener (fun l => with_count (count l + 1) l) ref st)
       | (Throw k, st) => (Throw k, st)
       end
     else (Normal results, st)) = (called, st1) ∧ wellFormed st1).
  { destruct (positive (remaining l)); [| by eauto].
    pose proof (run_wellFormed (callback l) (context l) params st Hwf) as H1.
    destruct (run (callback l) (context l) params st) as [[v | k] st1];
      cbn [snd] in H1; eexists _, _; (split; [reflexivity |]);
      [by apply wellFormed_updateListener | exact H1]. }
  destruct Hcalled as (called & st1 & -> & Hwf1).
  destruct called as [results' | k]; [| exact Hwf1].
  set (st2 := updateListener _ ref st1).
  assert (Hwf2 : wellFormed st2) by by apply wellFormed_updateListener.
  clearbody st2.
  destruct (listeners st2 !! ref) as [l2 |]; [| exact Hwf2].
  destruct (belowOne (remaining l2)); [| exact Hwf2].
  pose proof (wellFormed_remove ref st2 Hwf2) as Hwf3.
  destruct (remove ref st2) as [[u | k] st3]; exact Hwf3.
Qed.

Lemma wellFormed_forEach args array todo : ∀ k results st,
  wellFormed st -> wellFormed (forEach run args array k todo results st).2.
Proof.
  induction todo as [| todo IH]; intros k results st Hwf; [exact Hwf |].
  cbn [forEach].
  destruct (arrayAt st array !! k) as [ref |]; [| by apply IH].
  pose proof (wellFormed_visit args ref results st Hwf) as Hwf1.
  destruct (visit run args ref results st) as [[results' | e] st1];
    [by apply IH | exact Hwf1].
Qed.

Lemma wellFormed_emit event args st :
  wellFormed st -> wellFormed (emit run event args st).2.
Proof.
  intros Hwf. unfold emit.
  destruct (negb (isString event)); [exact Hwf |].
  destruct (eventsSuspended st); [exact Hwf |].
  assert (H0 : ∃ array st0,
    match eventMap st !! ANY_EVENT_KEY with
    | Some ref => (ref, st)
    | None => newArray [] st
    end = (array, st0) ∧ wellFormed st0).
  { destruct (eventMap st !! ANY_EVENT_KEY); [by eauto |].
    pose proof (wellFormed_newArray [] st Hwf) as H.
    destruct (newArray [] st); by eauto. }
  destruct H0 as (array0 & st0 & -> & Hwf0).
  assert (H1 : ∃ array st1,
    match eventMap st0 !! keyOf event with
    | Some ref => newArray (arrayAt st0 array0 ++ arrayAt st0 ref)%list st0
    | None => (array0, st0)
    end = (array, st1) ∧ wellFormed st1).
  { destruct (eventMap st0 !! keyOf event); [| by eauto].
    pose proof (wellFormed_newArray
                  (arrayAt st0 array0 ++ arrayAt st0 n)%list st0 Hwf0) as H.
    destruct (newArray _ st0); by eauto. }
  destruct H1 as (array & st1 & -> & Hwf1).
  pose proof (wellFormed_forEach args array (length (arrayAt st1 array))
                0%nat [] st1 Hwf1) as Hwf2.
  destruct (forEach run args array 0 _ [] st1) as [[results | k] st2];
    exact Hwf2.
Qed.

Lemma wellFormed_after c st :
  wellFormed st -> wellFormed (after run c st).
Proof.
  intros Hwf. destruct c; cbn [after].
  - by apply wellFormed_addListener.
  - by apply wellFormed_addOneTimeListener.
  - by apply wellFormed_removeListener.
  - by apply wellFormed_remove.
  - by apply wellFormed_updateListeners.
  - by apply wellFormed_updateListeners.
  - by apply wellFormed_emit.
  - destruct Hwf. by split.
Qed.

Lemma wellFormed_afterAll cs : ∀ st,
  wellFormed st -> wellFormed (afterAll run cs st).
Proof.
  induction cs as [| c cs IH]; intros st Hwf; [exact Hwf |].
  cbn. apply IH. by apply wellFormed_after.
Qed.

(** X8: whatever calls are made on an emitter fresh from the constructor
    (addListener, addOneTimeListener, removeListener, listener.remove,
    suspendEvent, unsuspendEvent, emit, assignments to eventsSuspended),
    whether they return or throw, every key of eventMap holds an array of
    the emitter that is not empty and lists listeners of the emitter, and
    no two keys share an array; the functions called are assumed to keep
    this true, as they do when they only use these calls. *)
Theorem emitter_stays_well_formed cs suspended :
  wellFormed (afterAll run cs (constructor suspended)).
Proof. apply wellFormed_afterAll, wellFormed_constructor. Qed.

End Kept.

Lemma removing_wellFormed f c p st :
  EventEmitter.wellFormed st ->
  EventEmitter.wellFormed (Sample.removing f c p st).2.
Proof.
  intros Hwf. unfold Sample.removing, Sample.identify.
  destruct (Nat.eqb f 1); [| exact Hwf].
  by apply wellFormed_removeListener.
Qed.

Lemma emitter_stays_well_formed_witness :
  EventEmitter.wellFormed
    (EventEmitter.afterAll Sample.removing
       [EventEmitter.CallAddListener (EventEmitter.OfValue (JString "noteon"))
          (EventEmitter.Fn 0) (Some EventEmitter.emptyOptions);
        EventEmitter.CallAddListener EventEmitter.ANY_EVENT
          (EventEmitter.Fn 1) (Some EventEmitter.emptyOptions);
        EventEmitter.CallEmit (EventEmitter.OfValue (JString "noteon")) []]
       (EventEmitter.constructor false)).
Proof.
  exact (emitter_stays_well_formed Sample.removing removing_wellFormed _ _).
Defined.

(** ** suspendEvent and unsuspendEvent *)

Lemma updateListeners_shape f refs : ∀ st,
  foldl (fun st ref => EventEmitter.updateListener f ref st) st refs
  = EventEmitter.with_listeners
      (EventEmitter.listeners
         (foldl (fun st ref => EventEmitter.updateListener f ref st) st refs))
      st.
Proof.
  induction refs as [| r refs IH]; intros st.
  - by destruct st.
  - cbn [foldl]. rewrite IH at 1. reflexivity.
Qed.

Lemma updateListeners_lookup f refs (Hf : ∀ l, f (f l) = f l) : ∀ st r,
  EventEmitter.listeners
    (foldl (fun st ref => EventEmitter.updateListener f ref st) st refs) !! r
  = (if bool_decide (r ∈ refs) then f else id)
    <$> EventEmitter.listeners st !! r.
Proof.
  induction refs as [| a refs IH]; intros st r.
  - cbn. by destruct (EventEmitter.listeners st !! r).
  - cbn [foldl]. rewrite IH. unfold EventEmitter.updateListener.
    cbn [EventEmitter.listeners EventEmitter.with_listeners].
    destruct (decide (r = a)) as [-> | Hne].
    + rewrite list_lookup_alter_eq.
      rewrite (bool_decide_eq_true_2 (a ∈ a :: refs)) by left.
      destruct (EventEmitter.listeners st !! a) as [l |]; [| done].
      cbn. case_bool_decide; cbn; by rewrite ?Hf.
    + rewrite list_lookup_alter_ne by done.
      destruct (EventEmitter.listeners st !! r) as [l |]; [| done].
      cbn. f_equal.
      do 2 case_bool_decide; try reflexivity.
      * exfalso. apply H0. by right.
      * exfalso. apply elem_of_cons in H0 as [? | ?]; done.
Qed.

(** X9: suspendEvent(event) sets [suspended] on exactly the listeners
    registered under the event and unsuspendEvent(event) clears it on
    exactly those; the other listeners and every registration are as they
    were. *)
Theorem suspendEvent_marks_its_listeners event st r l :
  EventEmitter.listeners st !! r = Some l ->
  EventEmitter.listeners (EventEmitter.suspendEvent event st) !! r
  = Some (if bool_decide (r ∈ EventEmitter.getListeners event st)
          then EventEmitter.with_suspended true l else l)
  ∧ EventEmitter.listeners (EventEmitter.unsuspendEvent event st) !! r
    = Some (if bool_decide (r ∈ EventEmitter.getListeners event st)
            then EventEmitter.with_suspended false l else l)
  ∧ (∀ event',
       EventEmitter.getListeners event' (EventEmitter.suspendEvent event st)
       = EventEmitter.getListeners event' st
       ∧ EventEmitter.getListeners event'
           (EventEmitter.unsuspendEvent event st)
         = EventEmitter.getListeners event' st).
Proof.
  intros Hl. unfold EventEmitter.suspendEvent, EventEmitter.unsuspendEvent.
  rewrite !updateListeners_lookup, Hl by done.
  split; [by case_bool_decide |]. split; [by case_bool_decide |].
  intros event'. split; by rewrite updateListeners_shape.
Qed.

Lemma suspendEvent_marks_its_listeners_witness :
  EventEmitter.suspended
    <$> EventEmitter.listeners
          (EventEmitter.suspendEvent (EventEmitter.OfValue (JString "noteon"))
             Sample.twoListeners) !! 0%nat
  = Some true.
Proof.
  destruct (suspendEvent_marks_its_listeners
              (EventEmitter.OfValue (JString "noteon")) Sample.twoListeners
              0%nat _ eq_refl) as [-> _].
  reflexivity.
Defined.

(** X10: unsuspendEvent after suspendEvent of the same event gives back
    the emitter as it was, when no listener of the event was suspended
    before. *)
Theorem unsuspendEvent_undoes_suspendEvent event st :
  (∀ r l, r ∈ EventEmitter.getListeners event st ->
          EventEmitter.listeners st !! r = Some l ->
          EventEmitter.suspended l = false) ->
  EventEmitter.unsuspendEvent event (EventEmitter.suspendEvent event st) = st.
Proof.
  intros Hfree.
  assert (Hsame : EventEmitter.getListeners event
                    (EventEmitter.suspendEvent event st)
                  = EventEmitter.getListeners event st)
    by (unfold EventEmitter.suspendEvent; by rewrite updateListeners_shape).
  set (st1 := EventEmitter.suspendEvent event st) in *.
  assert (H1 : st1 = EventEmitter.with_listeners (EventEmitter.listeners st1) st)
    by apply updateListeners_shape.
  assert (H2 : EventEmitter.unsuspendEvent event st1
               = EventEmitter.with_listeners
                   (EventEmitter.listeners
                      (EventEmitter.unsuspendEvent event st1)) st1)
    by apply updateListeners_shape.
  assert (Hl : EventEmitter.listeners (EventEmitter.unsuspendEvent event st1)
               = EventEmitter.listeners st).
  { apply list_eq. intros r. unfold EventEmitter.unsuspendEvent.
    rewrite updateListeners_lookup, Hsame by done.
    subst st1. unfold EventEmitter.suspendEvent.
    rewrite updateListeners_lookup by done.
    destruct (EventEmitter.listeners st !! r) as [l |] eqn:Hl; [| done].
    cbn. f_equal. case_bool_decide as Hr; [| done].
    specialize (Hfree r l Hr Hl). destruct l. cbn in *. by subst. }
  rewrite H2, Hl, H1. by destruct st.
Qed.

Lemma unsuspendEvent_undoes_suspendEvent_witness :
  EventEmitter.unsuspendEvent EventEmitter.ANY_EVENT
    (EventEmitter.suspendEvent EventEmitter.ANY_EVENT Sample.twoListeners)
  = Sample.twoListeners.
Proof.
  apply (unsuspendEvent_undoes_suspendEvent EventEmitter.ANY_EVENT
           Sample.twoListeners).
  intros r l Hr Hl. vm_compute in Hr.
  apply list_elem_of_singleton in Hr. subst r.
  vm_compute in Hl. injection Hl as <-. reflexivity.
Defined.

(** ** emit when the functions leave the emitter alone *)

(** The array emit visits: the listeners of ANY_EVENT, then those of the
    event, in a new array when the event has listeners. *)
Lemma emit_visits run s args st :
  EventEmitter.eventsSuspended st = false ->
  ∃ array st1 more,
    EventEmitter.arrayAt st1 array
    = (EventEmitter.registered st EventEmitter.ANY_EVENT_KEY
       ++ EventEmitter.registered st s)%list
    ∧ EventEmitter.eventMap st1 = EventEmitter.eventMap st
    ∧ EventEmitter.arrays st1 = (EventEmitter.arrays st ++ more)%list
    ∧ EventEmitter.listeners st1 = EventEmitter.listeners st
    ∧ EventEmitter.eventsSuspended st1 = false
    ∧ EventEmitter.emit run (EventEmitter.OfValue (JString s)) args st
      = match EventEmitter.forEach run args array 0
                (length (EventEmitter.arrayAt st1 array)) [] st1 with
        | (Normal results, st) =>
            (Normal (EventEmitter.ReturnedArray results), st)
        | (Throw k, st) => (Throw k, st)
        end.
Proof.
  intros Hsusp. unfold EventEmitter.emit.
  cbn [EventEmitter.isString negb EventEmitter.keyOf ToString]. rewrite Hsusp.
  assert (H0 : ∃ array0 st0 more0,
    match EventEmitter.eventMap st !! EventEmitter.ANY_EVENT_KEY with
    | Some ref => (ref, st)
    | None => EventEmitter.newArray [] st
    end = (array0, st0)
    ∧ EventEmitter.arrayAt st0 array0
      = EventEmitter.registered st EventEmitter.ANY_EVENT_KEY
    ∧ (∀ ref, EventEmitter.arrayAt st0 ref = EventEmitter.arrayAt st ref)
    ∧ EventEmitter.eventMap st0 = EventEmitter.eventMap st
    ∧ EventEmitter.arrays st0 = (EventEmitter.arrays st ++ more0)%list
    ∧ EventEmitter.listeners st0 = EventEmitter.listeners st
    ∧ EventEmitter.eventsSuspended st0 = false).
  { unfold EventEmitter.registered.
    destruct (EventEmitter.eventMap st !! EventEmitter.ANY_EVENT_KEY) as [a |].
    - exists a, st, []. rewrite app_nil_r. by repeat split.
    - exists (EventEmitter.newArray [] st).1, (EventEmitter.newArray [] st).2,
        [[]].
      split; [by destruct (EventEmitter.newArray [] st) |].
      split; [apply arrayAt_newArray |].
      split; [intros ref; apply arrayAt_newArray_empty |].
      by repeat split. }
  destruct H0 as (array0 & st0 & more0 & -> & Hat0 & Hsame0 & Hmap0 & Harr0
                  & Hlis0 & Hsusp0).
  assert (H1 : ∃ array st1 more1,
    match EventEmitter.eventMap st0 !! s with
    | Some ref =>
        EventEmitter.newArray
          (EventEmitter.arrayAt st0 array0 ++ EventEmitter.arrayAt st0 ref)%list
          st0
    | None => (array0, st0)
    end = (array, st1)
    ∧ EventEmitter.arrayAt st1 array
      = (EventEmitter.registered st EventEmitter.ANY_EVENT_KEY
         ++ EventEmitter.registered st s)%list
    ∧ EventEmitter.eventMap st1 = EventEmitter.eventMap st
    ∧ EventEmitter.arrays st1 = (EventEmitter.arrays st ++ more1)%list
    ∧ EventEmitter.listeners st1 = EventEmitter.listeners st
    ∧ EventEmitter.eventsSuspended st1 = false).
  { rewrite Hmap0. unfold EventEmitter.registered at 2.
    destruct (EventEmitter.eventMap st !! s) as [b |].
    - set (l := (EventEmitter.arrayAt st0 array0
                 ++ EventEmitter.arrayAt st0 b)%list).
      exists (EventEmitter.newArray l st0).1, (EventEmitter.newArray l st0).2,
        (more0 ++ [l])%list.
      split; [by destruct (EventEmitter.newArray l st0) |].
      split; [subst l; by rewrite arrayAt_newArray, Hat0, Hsame0 |].
      split; [exact Hmap0 |].
      split; [cbn; by rewrite Harr0, <- app_assoc |].
      split; [exact Hlis0 | exact Hsusp0].
    - exists array0, st0, more0. rewrite app_nil_r. by repeat split. }
  destruct H1 as (array & st1 & more1 & -> & Hat1 & Hmap1 & Harr1 & Hlis1
                  & Hsusp1).
  exists array, st1, more1. by repeat split.
Qed.

Section Calm.

Import EventEmitter.

Variable answer : nat -> Context -> list JsVal -> JsVal.
Variable run : nat -> Context -> list JsVal -> t -> Completion JsVal * t.

(** Every function returns a value and leaves the emitter alone. *)
Hypothesis quiet : ∀ f c p st, run f c p st = (Normal (answer f c p), st).

#[local] Instance sameButCount_reflexive : Reflexive sameButCount.
Proof. intros l. reflexivity. Qed.

#[local] Instance sameButCount_transitive : Transitive sameButCount.
Proof. intros l1 l2 l3. unfold sameButCount. congruence. Qed.

Lemma calm_sameButCount st st' refs :
  Forall2 sameButCount (listeners st) (listeners st') ->
  calm st refs -> calm st' refs.
Proof.
  intros Hsame Hrefs ref Hin.
  destruct (Hrefs ref Hin) as (l & Hl & Hrem).
  destruct (Forall2_lookup_l _ _ _ _ _ Hsame Hl) as (l' & Hl' & Heq).
  exists l'. split; [exact Hl' |].
  unfold sameButCount in Heq. injection Heq as _ _ _ _ <- <-. exact Hrem.
Qed.

Lemma unbounded_calm st refs : unbounded st refs -> calm st refs.
Proof.
  intros Hrefs ref Hin. destruct (Hrefs ref Hin) as (l & Hl & Hrem).
  exists l. split; [exact Hl | by right].
Qed.

Lemma visit_calm args ref results st l :
  listeners st !! ref = Some l ->
  suspended l = true ∨ remaining l = Infinity ->
  ∃ st',
    visit run args ref results st
    = (Normal (results ++ answers answer args st [ref])%list, st')
    ∧ eventMap st' = eventMap st
    ∧ arrays st' = arrays st
    ∧ eventsSuspended st' = eventsSuspended st
    ∧ Forall2 sameButCount (listeners st) (listeners st').
Proof.
  intros Hl Hcalm. unfold visit, answers. cbn. rewrite Hl.
  destruct (suspended l) eqn:Hsusp.
  - exists st. rewrite app_nil_r. repeat split. reflexivity.
  - destruct Hcalm as [? | Hrem]; [discriminate |].
    rewrite Hrem. cbn [positive]. rewrite quiet.
    unfold updateListener. cbn [listeners with_listeners].
    rewrite !list_lookup_alter_eq, Hl. cbn.
    rewrite Hrem. cbn [decrement belowOne].
    eexists. split; [reflexivity |]. repeat split.
    cbn [listeners with_listeners].
    apply Forall2_alter_r; [apply Forall2_alter_r; [reflexivity |] |].
    + intros x y _ _ Hxy. unfold sameButCount in *.
      destruct y; exact Hxy.
    + intros x y Hx _ Hxy. rewrite Hl in Hx. injection Hx as <-.
      unfold sameButCount in *. destruct l, y; cbn in *.
      injection Hxy as -> -> -> -> -> ->. subst. reflexivity.
Qed.

Lemma forEach_calm args array refs todo : ∀ k results st,
  arrayAt st array = refs ->
  (k + todo)%nat = length refs ->
  calm st (drop k refs) ->
  ∃ st',
    forEach run args array k todo results st
    = (Normal (results ++ answers answer args st (drop k refs))%list, st')
    ∧ eventMap st' = eventMap st
    ∧ arrays st' = arrays st
    ∧ eventsSuspended st' = eventsSuspended st
    ∧ Forall2 sameButCount (listeners st) (listeners st').
Proof.
  induction todo as [| todo IH]; intros k results st Harray Hlen Hrefs.
  - cbn. rewrite drop_ge by lia. exists st.
    rewrite app_nil_r. repeat split. reflexivity.
  - cbn [forEach]. rewrite Harray.
    destruct (lookup_lt_is_Some_2 refs k) as [ref Hk]; [lia |].
    rewrite Hk. rewrite (drop_S _ _ _ Hk) in Hrefs |- *.
    destruct (Hrefs ref) as (l & Hl & Hrem); [left |].
    destruct (visit_calm args ref results st l Hl Hrem)
      as (st1 & Hvisit & Hmap & Harrays & Hsusp & Hsame).
    rewrite Hvisit.
    destruct (IH (S k) (results ++ answers answer args st [ref])%list st1)
      as (st' & Hrun & Hmap' & Harrays' & Hsusp' & Hsame').
    + unfold arrayAt. rewrite Harrays. exact Harray.
    + lia.
    + apply (calm_sameButCount st st1); [exact Hsame |].
      intros r Hr. apply Hrefs. by right.
    + exists st'. rewrite Hrun. split; [| split; [| split; [| split]]].
      * rewrite (answers_sameButCount answer args st st1 _ Hsame).
        change (ref :: drop (S k) refs) with ([ref] ++ drop (S k) refs)%list.
        rewrite (answers_app answer), <- app_assoc. reflexivity.
      * congruence.
      * congruence.
      * congruence.
      * etrans; [exact Hsame | exact Hsame'].
Qed.

(** emit, when every listener it visits is suspended or never removed on
    its own. *)
Lemma emit_calm s args st :
  eventsSuspended st = false ->
  calm st (registered st ANY_EVENT_KEY ++ registered st s) ->
  ∃ st' more,
    emit run (OfValue (JString s)) args st
    = (Normal (ReturnedArray
                 (answers answer args st
                    (registered st ANY_EVENT_KEY ++ registered st s))), st')
    ∧ eventMap st' = eventMap st
    ∧ arrays st' = (arrays st ++ more)%list
    ∧ eventsSuspended st' = false
    ∧ Forall2 sameButCount (listeners st) (listeners st').
Proof.
  intros Hsusp Hrefs.
  destruct (emit_visits run s args st Hsusp)
    as (array & st1 & more1 & Hat1 & Hmap1 & Harr1 & Hlis1 & Hsusp1 & ->).
  set (refs := (registered st ANY_EVENT_KEY ++ registered st s)%list) in *.
  destruct (forEach_calm args array refs (length refs) 0%nat [] st1)
    as (st' & Hrun & Hmap' & Harr' & Hsusp' & Hsame');
    [exact Hat1 | reflexivity | |].
  { intros ref Hin. rewrite Hlis1. exact (Hrefs ref Hin). }
  rewrite Hat1, Hrun. exists st', more1.
  split; [| split; [| split; [| split]]].
  - unfold answers. rewrite Hlis1. reflexivity.
  - congruence.
  - congruence.
  - congruence.
  - by rewrite <- Hlis1.
Qed.

Lemma registered_after_emit st st' more :
  wellFormed st ->
  eventMap st' = eventMap st ->
  arrays st' = (arrays st ++ more)%list ->
  ∀ key, registered st' key = registered st key.
Proof.
  intros Hwf Hmap Harr key. unfold registered. rewrite Hmap.
  destruct (eventMap st !! key) as [ref |] eqn:Hkey; [| reflexivity].
  unfold arrayAt. rewrite Harr.
  by rewrite lookup_app_l by exact (wf_array st Hwf key ref Hkey).
Qed.

Lemma answers_suspended args st refs :
  (∀ r, r ∈ refs -> ∃ l, listeners st !! r = Some l ∧ suspended l = true) ->
  answers answer args st refs = [].
Proof.
  induction refs as [| r refs IH]; intros Hrefs; [reflexivity |].
  unfold answers in *. cbn.
  destruct (Hrefs r) as (l & -> & ->); [left |].
  cbn. apply IH. intros x Hx. apply Hrefs. by right.
Qed.

(** X11: when the functions called leave the emitter alone and none of the
    listeners visited can expire, emit leaves every registration and
    eventCount as they were and changes the listeners at most in their
    count; emitting the event again returns what it would have returned
    before. *)
Theorem emit_leaves_the_registrations s args st :
  wellFormed st ->
  eventsSuspended st = false ->
  unbounded st (registered st ANY_EVENT_KEY ++ registered st s) ->
  let st' := (emit run (OfValue (JString s)) args st).2 in
  (∀ event, getListeners event st' = getListeners event st)
  ∧ eventCount st' = eventCount st
  ∧ Forall2 sameButCount (listeners st) (listeners st')
  ∧ ∀ args', (emit run (OfValue (JString s)) args' st').1
             = (emit run (OfValue (JString s)) args' st).1.
Proof.
  intros Hwf Hsusp Hrefs st'.
  apply unbounded_calm in Hrefs.
  destruct (emit_calm s args st Hsusp Hrefs)
    as (st1 & more & Hemit & Hmap & Harr & Hsusp1 & Hsame).
  subst st'. rewrite Hemit. cbn [snd].
  pose proof (registered_after_emit st st1 more Hwf Hmap Harr) as Hreg.
  split; [intros event; apply Hreg |].
  split; [unfold eventCount; by rewrite Hmap |].
  split; [exact Hsame |].
  intros args'.
  destruct (emit_calm s args' st Hsusp Hrefs) as (? & ? & -> & _).
  destruct (emit_calm s args' st1 Hsusp1) as (? & ? & -> & _).
  - rewrite !Hreg. by apply (calm_sameButCount st st1).
  - cbn [fst]. rewrite !Hreg.
    by rewrite (answers_sameButCount answer args' st st1 _ Hsame).
Qed.

(** X12: for an event whose name Object.prototype does not define, after
    suspendEvent(event), emit(event) calls no listener of the event: the
    array returned holds the answers of the global listeners only, those
    of them that are not suspended. *)
Theorem suspendEvent_silences_the_event s args st :
  wellFormed st ->
  eventsSuspended st = false ->
  inherited s = false ->
  unbounded st (registered st ANY_EVENT_KEY) ->
  let st' := suspendEvent (OfValue (JString s)) st in
  (emit run (OfValue (JString s)) args st').1
  = Normal (ReturnedArray
              (answers answer args st' (registered st ANY_EVENT_KEY))).
Proof.
  intros Hwf Hsusp _ Hrefs st'.
  assert (Hshape : st' = with_listeners (listeners st') st)
    by apply updateListeners_shape.
  assert (Hreg : ∀ key, registered st' key = registered st key)
    by (intros key; by rewrite Hshape).
  assert (Hsusp' : eventsSuspended st' = false) by by rewrite Hshape.
  assert (Hlook : ∀ r l, listeners st !! r = Some l ->
    listeners st' !! r
    = Some (if bool_decide (r ∈ registered st s)
            then with_suspended true l else l)).
  { intros r l Hl. subst st'. unfold suspendEvent.
    rewrite updateListeners_lookup, Hl by done.
    change (getListeners (OfValue (JString s)) st) with (registered st s).
    by case_bool_decide. }
  assert (Hown : ∀ r, r ∈ registered st s ->
    ∃ l, listeners st' !! r = Some l ∧ suspended l = true).
  { intros r Hr. unfold registered in Hr.
    destruct (eventMap st !! s) as [ref |] eqn:Hkey;
      [| by apply elem_of_nil in Hr].
    destruct (lookup_lt_is_Some_2 (listeners st) r) as [l Hl];
      [exact (wf_listener st Hwf s ref r Hkey Hr) |].
    eexists. split; [apply (Hlook r l Hl) |].
    rewrite bool_decide_eq_true_2; [reflexivity |].
    unfold registered. by rewrite Hkey. }
  destruct (emit_calm s args st' Hsusp') as (? & ? & -> & _).
  - rewrite !Hreg. intros r Hr. apply elem_of_app in Hr as [Hr | Hr].
    + destruct (Hrefs r Hr) as (l & Hl & Hrem). eexists.
      split; [apply (Hlook r l Hl) |]. right. by case_bool_decide.
    + destruct (Hown r Hr) as (l & Hl & Hs). exists l. split; [done | by left].
  - cbn [fst]. rewrite !Hreg, (answers_app answer).
    by rewrite (answers_suspended args st' (registered st s) Hown), app_nil_r.
Qed.

End Calm.

Lemma twoListeners_wellFormed : EventEmitter.wellFormed Sample.twoListeners.
Proof.
  unfold Sample.twoListeners. do 2 apply wellFormed_addListener.
  apply wellFormed_constructor.
Qed.

Lemma twoListeners_unbounded refs :
  (∀ r, r ∈ refs -> r = 0%nat ∨ r = 1%nat) ->
  EventEmitter.unbounded Sample.twoListeners refs.
Proof.
  intros Hsub r Hr.
  destruct (Hsub r Hr) as [-> | ->]; eexists; split; reflexivity.
Qed.

Lemma emit_leaves_the_registrations_witness :
  EventEmitter.getListeners (EventEmitter.OfValue (JString "noteon"))
    (EventEmitter.emit Sample.identify
       (EventEmitter.OfValue (JString "noteon")) [] Sample.twoListeners).2
  = [0%nat].
Proof.
  destruct (emit_leaves_the_registrations
              (fun f _ _ => JInt (Z.of_nat f)) Sample.identify
              (fun _ _ _ _ => eq_refl) "noteon" [] Sample.twoListeners
              twoListeners_wellFormed eq_refl) as [Hreg _].
  - apply twoListeners_unbounded. intros r Hr. vm_compute in Hr.
    apply elem_of_cons in Hr as [-> | Hr]; [by right |].
    apply list_elem_of_singleton in Hr as ->. by left.
  - rewrite Hreg. reflexivity.
Defined.

Lemma suspendEvent_silences_the_event_witness :
  (EventEmitter.emit Sample.identify
     (EventEmitter.OfValue (JString "noteon")) []
     (EventEmitter.suspendEvent (EventEmitter.OfValue (JString "noteon"))
        Sample.twoListeners)).1
  = Normal (EventEmitter.ReturnedArray [JInt 1]).
Proof.
  rewrite (suspendEvent_silences_the_event
             (fun f _ _ => JInt (Z.of_nat f)) Sample.identify
             (fun _ _ _ _ => eq_refl) "noteon" [] Sample.twoListeners
             twoListeners_wellFormed eq_refl eq_refl).
  - reflexivity.
  - apply twoListeners_unbounded. intros r Hr. vm_compute in Hr.
    apply list_elem_of_singleton in Hr as ->. by right.
Defined.

(** ** Listeners with a number of remaining calls *)

Lemma contextEq_refl c :
  EventEmitter.contextTruthy c = true -> EventEmitter.contextEq c c = true.
Proof.
  destruct c as [| v]; [reflexivity |]. cbn.
  destruct v; try discriminate; intros _; cbn; by rewrite ?bool_decide_eq_true_2.
Qed.

Lemma strictEq_remainingVal r :
  EventEmitter.strictEq (EventEmitter.remainingVal r)
    (EventEmitter.remainingVal r) = true.
Proof. destruct r; cbn; by rewrite bool_decide_eq_true_2. Qed.

(** What [listener.remove()] passes to removeListener does not keep a
    listener of the same callback and context, when its remaining count
    is the same or the count passed is 0. *)
Lemma stays_twin l l' :
  EventEmitter.callback l' = EventEmitter.callback l ->
  EventEmitter.context l' = EventEmitter.context l ->
  EventEmitter.remaining l' = EventEmitter.remaining l
  ∨ EventEmitter.remaining l = EventEmitter.Finite 0 ->
  EventEmitter.stays (Some (EventEmitter.Fn (EventEmitter.callback l)))
    {| EventEmitter.rem_context := Some (EventEmitter.context l);
       EventEmitter.rem_remaining :=
         EventEmitter.remainingVal (EventEmitter.remaining l) |} l'
  = false.
Proof.
  intros Hcb Hctx Hrem. unfold EventEmitter.stays.
  cbn [EventEmitter.rem_context EventEmitter.rem_remaining].
  rewrite Hcb, Hctx, Nat.eqb_refl. cbn [negb orb].
  apply orb_false_iff. split.
  - destruct Hrem as [-> | ->]; [| reflexivity].
    by rewrite strictEq_remainingVal, andb_false_r.
  - destruct (EventEmitter.contextTruthy (EventEmitter.context l)) eqn:Ht;
      [| reflexivity].
    by rewrite contextEq_refl.
Qed.



Section Expiry.

Import EventEmitter.

Variable answer : nat -> Context -> list JsVal -> JsVal.
Variable run : nat -> Context -> list JsVal -> t -> Completion JsVal * t.

(** Every function returns a value and leaves the emitter alone. *)
Hypothesis quiet : ∀ f c p st, run f c p st = (Normal (answer f c p), st).

Lemma alter_as_insert {A} (g : A -> A) (L : list A) i x :
  L !! i = Some x -> alter g i L = <[i := g x]> L.
Proof.
  intros Hx. apply list_eq. intros j.
  destruct (decide (j = i)) as [-> | Hne].
  - rewrite list_lookup_alter_eq, Hx.
    rewrite list_lookup_insert_eq by (by eapply lookup_lt_Some). done.
  - by rewrite list_lookup_alter_ne, list_lookup_insert_ne.
Qed.

(** The visit of a listener that has a number of calls left. *)
Lemma visit_bounded args ref results st l n :
  listeners st !! ref = Some l ->
  suspended l = false ->
  remaining l = Finite n ->
  1 <= n ->
  let v := answer (callback l) (context l)
             (args ++ default [] (arguments l))%list in
  let l2 := with_remaining (Finite (n - 1)) (with_count (count l + 1) l) in
  let st2 := with_listeners (<[ref := l2]> (listeners st)) st in
  visit run args ref results st
  = if decide (n = 1) then
      match remove ref st2 with
      | (Normal _, st3) => (Normal (results ++ [v])%list, st3)
      | (Throw k, st3) => (Throw k, st3)
      end
    else (Normal (results ++ [v])%list, st2).
Proof.
  intros Hl Hs Hrem Hn v l2 st2. unfold visit.
  rewrite Hl, Hs, Hrem. cbn [positive].
  replace (0 <? n) with true by (symmetry; apply Z.ltb_lt; lia).
  rewrite quiet. unfold updateListener.
  cbn [listeners with_listeners].
  rewrite (alter_as_insert _ (listeners st) ref l Hl).
  rewrite (alter_as_insert _ (<[ref := _]> (listeners st)) ref
             (with_count (count l + 1) l))
    by (rewrite list_lookup_insert_eq; [done | by eapply lookup_lt_Some]).
  rewrite list_insert_insert_eq.
  cbn [remaining with_count]. rewrite Hrem. cbn [decrement].
  rewrite list_lookup_insert_eq by (by eapply lookup_lt_Some).
  cbn [remaining with_remaining belowOne].
  fold v.
  change (with_listeners _ (with_listeners _ st)) with st2.
  destruct (decide (n = 1)) as [-> | Hne].
  - reflexivity.
  - replace (n - 1 <? 1) with false by (symmetry; apply Z.ltb_ge; lia).
    reflexivity.
Qed.

(** emit when neither ANY_EVENT nor the event has listeners. *)
Lemma emit_nobody s args st :
  eventsSuspended st = false ->
  eventMap st !! ANY_EVENT_KEY = None ->
  eventMap st !! s = None ->
  ∃ st',
    emit run (OfValue (JString s)) args st = (Normal (ReturnedArray []), st')
    ∧ eventsSuspended st' = false
    ∧ eventMap st' !! ANY_EVENT_KEY = None
    ∧ eventMap st' !! s = None.
Proof.
  intros Hsusp Hany Hkey.
  destruct (emit_visits run s args st Hsusp)
    as (array & st1 & more & Hat1 & Hmap1 & _ & _ & Hsusp1 & ->).
  unfold registered in Hat1. rewrite Hany, Hkey in Hat1.
  rewrite Hat1. cbn. exists st1. by rewrite Hmap1.
Qed.

(** emit when the event has one listener, with [n] calls left, and
    ANY_EVENT has none. *)
Lemma emit_bounded s args st a ref l n :
  eventsSuspended st = false ->
  eventMap st !! ANY_EVENT_KEY = None ->
  eventMap st !! s = Some a ->
  arrayAt st a = [ref] ->
  listeners st !! ref = Some l ->
  event l = OfValue (JString s) ->
  suspended l = false ->
  remaining l = Finite n ->
  1 <= n ->
  let l2 := with_remaining (Finite (n - 1)) (with_count (count l + 1) l) in
  ∃ st',
    emit run (OfValue (JString s)) args st
    = (Normal (ReturnedArray
                 [answer (callback l) (context l)
                    (args ++ default [] (arguments l))%list]), st')
    ∧ eventsSuspended st' = false
    ∧ eventMap st' !! ANY_EVENT_KEY = None
    ∧ if decide (n = 1) then eventMap st' !! s = None
      else eventMap st' !! s = Some a
           ∧ arrayAt st' a = [ref]
           ∧ listeners st' !! ref = Some l2.
Proof.
  intros Hsusp Hany Hkey Hat Hl Hev Hs Hrem Hn l2.
  destruct (emit_visits run s args st Hsusp)
    as (array & st1 & more & Hat1 & Hmap1 & Harr1 & Hlis1 & Hsusp1 & ->).
  unfold registered in Hat1. rewrite Hany, Hkey, Hat in Hat1.
  cbn [app] in Hat1.
  assert (Hvalid : (ref < length (listeners st))%nat)
    by (by eapply lookup_lt_Some).
  assert (Ha1 : arrayAt st1 a = [ref]).
  { rewrite <- Hat. unfold arrayAt. rewrite Harr1.
    rewrite lookup_app_l; [done |].
    apply arrayAt_nonempty_valid. by rewrite Hat. }
  rewrite Hat1. cbn [length forEach]. rewrite Hat1.
  change ([ref] !! 0%nat) with (Some ref). cbv iota beta.
  rewrite <- Hlis1 in Hl, Hvalid.
  rewrite (visit_bounded args ref [] st1 l n Hl Hs Hrem Hn). cbn zeta.
  fold l2. set (st2 := with_listeners (<[ref := l2]> (listeners st1)) st1).
  assert (Hl2 : listeners st2 !! ref = Some l2)
    by (subst st2; cbn [listeners with_listeners];
        by rewrite list_lookup_insert_eq).
  destruct (decide (n = 1)) as [-> | Hne].
  - unfold remove. rewrite Hl2.
    replace (event l2) with (OfValue (JString s)) by (symmetry; exact Hev).
    rewrite removeListener_defined by discriminate. cbn zeta.
    change (keyOf (OfValue (JString s))) with s.
    change (eventMap st2) with (eventMap st1). rewrite Hmap1, Hkey.
    change (arrayAt st2 a) with (arrayAt st1 a). rewrite Ha1.
    cbn [filterKept]. rewrite Hl2, kept_options.
    rewrite (stays_twin l2 l2) by (reflexivity || by left).
    cbn [mbind Completion_bind]. cbn.
    eexists. split; [reflexivity |]. cbn.
    split; [exact Hsusp1 |].
    split; [apply lookup_delete_None; by right | apply lookup_delete_eq].
  - cbn. eexists. split; [reflexivity |].
    split; [exact Hsusp1 |]. change (eventMap st2) with (eventMap st1).
    change (arrayAt st2 a) with (arrayAt st1 a). rewrite Hmap1.
    split; [exact Hany |]. split; [exact Hkey |]. split; [exact Ha1 | exact Hl2].
Qed.

Lemma emits_nobody s args k : ∀ st,
  eventsSuspended st = false ->
  eventMap st !! ANY_EVENT_KEY = None ->
  eventMap st !! s = None ->
  let st_k :=
    Nat.iter k (fun st => (emit run (OfValue (JString s)) args st).2) st in
  (emit run (OfValue (JString s)) args st_k).1 = Normal (ReturnedArray [])
  ∧ registered st_k s = [].
Proof.
  induction k as [| k IH]; intros st Hsusp Hany Hkey.
  - cbv zeta. cbn [Nat.iter nat_rect].
    destruct (emit_nobody s args st Hsusp Hany Hkey) as (st' & -> & _).
    split; [reflexivity |]. unfold registered. by rewrite Hkey.
  - cbv zeta. rewrite Nat.iter_succ_r.
    destruct (emit_nobody s args st Hsusp Hany Hkey)
      as (st' & -> & Hsusp' & Hany' & Hkey').
    exact (IH st' Hsusp' Hany' Hkey').
Qed.

Lemma emits_bounded s args ref k : ∀ st a l n,
  eventsSuspended st = false ->
  eventMap st !! ANY_EVENT_KEY = None ->
  eventMap st !! s = Some a ->
  arrayAt st a = [ref] ->
  listeners st !! ref = Some l ->
  event l = OfValue (JString s) ->
  suspended l = false ->
  remaining l = Finite n ->
  1 <= n ->
  let st_k :=
    Nat.iter k (fun st => (emit run (OfValue (JString s)) args st).2) st in
  (emit run (OfValue (JString s)) args st_k).1
  = Normal (ReturnedArray
              (if decide (Z.of_nat k < n)
               then [answer (callback l) (context l)
                       (args ++ default [] (arguments l))%list]
               else []))
  ∧ registered st_k s = (if decide (Z.of_nat k < n) then [ref] else []).
Proof.
  induction k as [| k IH]; intros st a l n Hsusp Hany Hkey Hat Hl Hev Hs Hrem Hn.
  - cbv zeta. cbn [Nat.iter nat_rect].
    destruct (emit_bounded s args st a ref l n Hsusp Hany Hkey Hat Hl Hev Hs
                Hrem Hn) as (st' & -> & _).
    rewrite !decide_True by lia. split; [reflexivity |].
    unfold registered. by rewrite Hkey.
  - cbv zeta. rewrite Nat.iter_succ_r.
    destruct (emit_bounded s args st a ref l n Hsusp Hany Hkey Hat Hl Hev Hs
                Hrem Hn) as (st' & -> & Hsusp' & Hany' & Hnext).
    cbn [snd]. destruct (decide (n = 1)) as [-> | Hne].
    + rewrite !decide_False by lia.
      exact (emits_nobody s args k st' Hsusp' Hany' Hnext).
    + destruct Hnext as (Hkey' & Hat' & Hl').
      destruct (IH st' a _ (n - 1) Hsusp' Hany' Hkey' Hat' Hl' Hev Hs eq_refl
                  ltac:(lia)) as [Hrun Hreg].
      rewrite Hrun, Hreg.
      destruct (decide (Z.of_nat k < n - 1));
        [rewrite !decide_True by lia | rewrite !decide_False by lia]; done.
Qed.

(** X13: a listener with n remaining calls (n at least 1), alone on its
    event while ANY_EVENT has no listener, is called by each of the first
    n emits of the event and by none after: the emit number k (from 0)
    returns its answer when k < n and the empty array otherwise, and the
    event has lost the listener once k reaches n. *)
Theorem listener_runs_its_remaining_times s args st ref l n (k : nat) :
  wellFormed st ->
  eventsSuspended st = false ->
  registered st ANY_EVENT_KEY = [] ->
  registered st s = [ref] ->
  listeners st !! ref = Some l ->
  event l = OfValue (JString s) ->
  suspended l = false ->
  remaining l = Finite n ->
  1 <= n ->
  let st_k :=
    Nat.iter k (fun st => (emit run (OfValue (JString s)) args st).2) st in
  (emit run (OfValue (JString s)) args st_k).1
  = Normal (ReturnedArray
              (if decide (Z.of_nat k < n)
               then [answer (callback l) (context l)
                       (args ++ default [] (arguments l))%list]
               else []))
  ∧ getListeners (OfValue (JString s)) st_k
    = (if decide (Z.of_nat k < n) then [ref] else []).
Proof.
  intros Hwf Hsusp Hany Hown Hl Hev Hs Hrem Hn.
  apply (registered_nil st _ Hwf) in Hany.
  unfold registered in Hown.
  destruct (eventMap st !! s) as [a |] eqn:Hkey; [| discriminate].
  exact (emits_bounded s args ref k st a l n Hsusp Hany Hkey Hown Hl Hev Hs
           Hrem Hn).
Qed.

End Expiry.

Lemma oneTimeListener_wellFormed : EventEmitter.wellFormed Sample.oneTimeListener.
Proof.
  unfold Sample.oneTimeListener. apply wellFormed_addOneTimeListener.
  apply wellFormed_constructor.
Qed.

Lemma listener_runs_its_remaining_times_witness :
  (EventEmitter.emit Sample.identify (EventEmitter.OfValue (JString "noteon"))
     []
     (EventEmitter.emit Sample.identify
        (EventEmitter.OfValue (JString "noteon")) []
        Sample.oneTimeListener).2).1
  = Normal (EventEmitter.ReturnedArray []).
Proof.
  destruct (listener_runs_its_remaining_times
              (fun f _ _ => JInt (Z.of_nat f)) Sample.identify
              (fun _ _ _ _ => eq_refl) "noteon" [] Sample.oneTimeListener
              0%nat _ 1 1%nat oneTimeListener_wellFormed eq_refl eq_refl
              eq_refl eq_refl eq_refl eq_refl eq_refl ltac:(lia))
    as [Hrun _].
  exact Hrun.
Defined.

(** ** The Listener constructor and addOneTimeListener *)

(** X15: a Listener made by the constructor has a remaining count that is
    Infinity or an integer of at least 1, whatever options.remaining was
    (0, a negative number and what parseInt does not read give Infinity);
    its count is 0, it is not suspended and it holds the event and the
    function it was given. *)
Theorem newListener_remaining_is_positive event cb options l timer :
  EventEmitter.newListener event cb options = Normal (l, timer) ->
  (EventEmitter.remaining l = EventEmitter.Infinity
   ∨ ∃ n, EventEmitter.remaining l = EventEmitter.Finite n ∧ 1 <= n)
  ∧ EventEmitter.count l = 0
  ∧ EventEmitter.suspended l = false
  ∧ EventEmitter.event l = event
  ∧ cb = EventEmitter.Fn (EventEmitter.callback l).
Proof.
  unfold EventEmitter.newListener.
  destruct (negb (EventEmitter.isString event)
            && negb (EventEmitter.isAnyEvent event)); [discriminate |].
  destruct cb as [f | v]; [| discriminate].
  destruct options as [o |]; [| discriminate].
  intros [= <- _]. cbn. split; [| by repeat split].
  destruct (parseInt _) as [n |]; [| by left].
  destruct (1 <=? n) eqn:Hn; [| by left].
  right. exists n. split; [reflexivity | by apply Z.leb_le].
Qed.

Lemma newListener_remaining_is_positive_witness :
  EventEmitter.newListener EventEmitter.ANY_EVENT (EventEmitter.Fn 0)
    (Some {| EventEmitter.opt_arguments := EventEmitter.NoArguments;
             EventEmitter.opt_context := None;
             EventEmitter.opt_duration := None;
             EventEmitter.opt_prepend := false;
             EventEmitter.opt_remaining := Some (JInt (-3)) |})
  = Normal
      ({| EventEmitter.arguments := None; EventEmitter.callback := 0;
          EventEmitter.context := EventEmitter.Target;
          EventEmitter.count := 0;
          EventEmitter.event := EventEmitter.ANY_EVENT;
          EventEmitter.remaining := EventEmitter.Infinity;
          EventEmitter.suspended := false |}, None)
  ∧ (EventEmitter.Infinity = EventEmitter.Infinity
     ∨ ∃ n, EventEmitter.Infinity = EventEmitter.Finite n ∧ 1 <= n).
Proof.
  split; [reflexivity |].
  exact (proj1 (newListener_remaining_is_positive EventEmitter.ANY_EVENT
                  (EventEmitter.Fn 0)
                  (Some {| EventEmitter.opt_arguments := EventEmitter.NoArguments;
                           EventEmitter.opt_context := None;
                           EventEmitter.opt_duration := None;
                           EventEmitter.opt_prepend := false;
                           EventEmitter.opt_remaining := Some (JInt (-3)) |})
                  {| EventEmitter.arguments := None; EventEmitter.callback := 0;
                     EventEmitter.context := EventEmitter.Target;
                     EventEmitter.count := 0;
                     EventEmitter.event := EventEmitter.ANY_EVENT;
                     EventEmitter.remaining := EventEmitter.Infinity;
                     EventEmitter.suspended := false |}
                  None eq_refl)).
Defined.

(** What addListener stores is the listener the constructor made. *)
Lemma addListener_stores event f options st l timer :
  EventEmitter.validEvent event ->
  EventEmitter.newListener event (EventEmitter.Fn f) (Some options)
  = Normal (l, timer) ->
  EventEmitter.listeners
    (EventEmitter.addListener event (EventEmitter.Fn f) (Some options) st).2
  = (EventEmitter.listeners st ++ [l])%list.
Proof.
  intros Hevent Hnew.
  destruct (validEvent_accepted event Hevent) as [Hlen _].
  unfold EventEmitter.addListener. rewrite Hlen, Hnew. cbn zeta.
  destruct timer;
    match goal with
    | |- context [EventEmitter.findsInherited ?s ?k] =>
        destruct (EventEmitter.findsInherited s k); [reflexivity |]
    end;
    cbn [EventEmitter.eventMap EventEmitter.with_timers
         EventEmitter.with_listeners];
    destruct (EventEmitter.eventMap st !! EventEmitter.keyOf event);
    reflexivity.
Qed.

Section OneTime.

Import EventEmitter.

Variable answer : nat -> Context -> list JsVal -> JsVal.
Variable run : nat -> Context -> list JsVal -> t -> Completion JsVal * t.

(** Every function returns a value and leaves the emitter alone. *)
Hypothesis quiet : ∀ f c p st, run f c p st = (Normal (answer f c p), st).

(** X16: a listener added with addOneTimeListener to an event without
    listeners, whose name Object.prototype does not define, ANY_EVENT
    having no listener either, runs exactly once, whatever
    options.remaining was: the first emit of the event returns its answer
    (the function called with the context of the options and, after the
    arguments of emit, the arguments the constructor kept of the options),
    after it the event has no listener, and the next emit returns the
    empty array. *)
Theorem one_time_listener_runs_once s f o args st :
  wellFormed st ->
  eventsSuspended st = false ->
  s ≠ "" ->
  s ≠ ANY_EVENT_KEY ->
  inherited s = false ->
  getListeners ANY_EVENT st = [] ->
  getListeners (OfValue (JString s)) st = [] ->
  let st1 :=
    (addOneTimeListener (OfValue (JString s)) (Fn f) (Some o) st).2 in
  let st2 := (emit run (OfValue (JString s)) args st1).2 in
  (emit run (OfValue (JString s)) args st1).1
  = Normal (ReturnedArray
              [answer f (default Target (opt_context o))
                 (args ++ default [] (argumentsOf (opt_arguments o)))%list])
  ∧ getListeners (OfValue (JString s)) st2 = []
  ∧ (emit run (OfValue (JString s)) args st2).1
    = Normal (ReturnedArray []).
Proof.
  intros Hwf Hsusp Hs Hkey Hplain Hany Hown st1 st2.
  set (o1 := {| opt_arguments := opt_arguments o;
                opt_context := opt_context o;
                opt_duration := opt_duration o;
                opt_prepend := opt_prepend o;
                opt_remaining := Some (JInt 1) |}).
  assert (Hst1 : st1 = (addListener (OfValue (JString s)) (Fn f) (Some o1) st).2)
    by reflexivity.
  assert (Hvalid : validEvent (OfValue (JString s))) by exact Hs.
  assert (Hfinds : findsInherited st (keyOf (OfValue (JString s))) = false)
    by exact (inherited_findsInherited st s Hplain).
  destruct (addListener_lists (OfValue (JString s)) f o1 st Hwf Hvalid Hfinds)
    as (l0 & st' & Hadd & Hlis & _ & Hwf' & Hreg & Hframe & _).
  set (l := {| arguments := argumentsOf (opt_arguments o);
               callback := f;
               context := default Target (opt_context o);
               count := 0;
               event := OfValue (JString s);
               remaining := Finite 1;
               suspended := false |}).
  pose proof (addListener_stores (OfValue (JString s)) f o1 st l
                (if strictEq (default (JInfinity false) (opt_duration o))
                      (JInfinity false)
                 then None
                 else Some (default (JInfinity false) (opt_duration o)))
                Hvalid eq_refl) as Hstored.
  rewrite Hadd in Hst1, Hstored. cbn [snd] in Hst1, Hstored. subst st'.
  change (getListeners (OfValue (JString s)) st) with (registered st s) in Hown.
  change (getListeners ANY_EVENT st) with (registered st ANY_EVENT_KEY) in Hany.
  change (keyOf (OfValue (JString s))) with s in Hreg, Hframe.
  rewrite Hown in Hreg.
  assert (Hreg1 : registered st1 s = [length (listeners st)])
    by (rewrite Hreg; by destruct (opt_prepend o1)).
  assert (Hany1 : registered st1 ANY_EVENT_KEY = [])
    by (rewrite Hframe by congruence; exact Hany).
  assert (Hl : listeners st1 !! length (listeners st) = Some l)
    by (rewrite Hstored; by rewrite list_lookup_middle).
  assert (Hsusp1 : eventsSuspended st1 = false).
  { destruct (addListener_added (OfValue (JString s)) f o1 st Hvalid Hfinds)
      as (? & st'' & Hadd' & _ & _ & _ & _ & Hsame & _).
    rewrite Hadd in Hadd'. injection Hadd' as <-. by rewrite Hsame. }
  apply (registered_nil st1 _ Hwf') in Hany1.
  unfold registered in Hreg1.
  destruct (eventMap st1 !! s) as [a |] eqn:Ha; [| discriminate].
  pose proof (emits_bounded answer run quiet s args (length (listeners st))
                0 st1 a l 1 Hsusp1 Hany1 Ha Hreg1 Hl eq_refl eq_refl eq_refl
                ltac:(lia)) as [Hfirst _].
  pose proof (emits_bounded answer run quiet s args (length (listeners st))
                1 st1 a l 1 Hsusp1 Hany1 Ha Hreg1 Hl eq_refl eq_refl eq_refl
                ltac:(lia)) as [Hsecond Hgone].
  cbv zeta in Hfirst, Hsecond, Hgone.
  cbn [Nat.iter nat_rect] in Hfirst, Hsecond, Hgone.
  fold st2 in Hsecond, Hgone.
  split; [| split; [exact Hgone | exact Hsecond]].
  rewrite Hfirst. reflexivity.
Qed.

End OneTime.

Lemma one_time_listener_runs_once_witness :
  (EventEmitter.emit Sample.identify (EventEmitter.OfValue (JString "noteon"))
     []
     (EventEmitter.addOneTimeListener
        (EventEmitter.OfValue (JString "noteon")) (EventEmitter.Fn 5)
        (Some EventEmitter.emptyOptions) (EventEmitter.constructor false)).2).1
  = Normal (EventEmitter.ReturnedArray [JInt 5]).
Proof.
  destruct (one_time_listener_runs_once
              (fun f _ _ => JInt (Z.of_nat f)) Sample.identify
              (fun _ _ _ _ => eq_refl) "noteon" 5 EventEmitter.emptyOptions []
              (EventEmitter.constructor false) (wellFormed_constructor false)
              eq_refl) as [Hrun _].
  - discriminate.
  - discriminate.
  - reflexivity.
  - reflexivity.
  - reflexivity.
  - exact Hrun.
Defined.

(** * Further properties of the channel parser *)

(** A channel mode event is emitted, or the emitter refuses its name. *)
Lemma _parseChannelModeMessage_outcome e :
  (∃ event, InputChannel._parseChannelModeMessage e = ([event], Normal tt))
  ∨ InputChannel._parseChannelModeMessage e = ([], Throw TypeError).
Proof.
  unfold InputChannel._parseChannelModeMessage, InputChannel.emit.
  repeat case_bool_decide; cbn;
    try (left; eexists; reflexivity).
  all: destruct (Event.controller e ≫= Event.name); [left; eauto | by right].
Qed.

Lemma bind_lift_outcome {A B} (c : Completion A) (k : A -> InputChannel.Emitting B) :
  InputChannel.bind (InputChannel.lift c) k
  = match c with
    | Normal a => k a
    | Throw e => ([], Throw e)
    end.
Proof. destruct c as [a | e]; cbn; [by destruct (k a) | reflexivity]. Qed.

Lemma _parseEventForStandardMessages_outcome wm this e :
  match InputChannel._parseEventForStandardMessages wm this e with
  | (out, Throw _) => out = []
  | (out, Normal _) =>
      ∃ before last, out = (before ++ [last])%list ∧ (length before <= 1)%nat
  end.
Proof.
  unfold InputChannel._parseEventForStandardMessages.
  set (type := match Message.type (Event.message e) with
               | Some s => if String.eqb s "" then "unknownmidimessage" else s
               | None => "unknownmidimessage"
               end).
  cbv zeta.
  assert (Hsimple : ∀ ev : Event.t,
    match InputChannel.bind (InputChannel.pure ev) InputChannel.emit with
    | (out, Throw _) => out = []
    | (out, Normal _) =>
        ∃ before last, out = (before ++ [last])%list ∧ (length before <= 1)%nat
    end).
  { intros ev. cbn. unfold InputChannel.emit.
    destruct (Event.type ev); [| reflexivity].
    exists [], ev. split; [reflexivity | cbn; lia]. }
  repeat match goal with
         | |- context [if ?b then _ else _] =>
             lazymatch b with
             | String.eqb type _ => destruct b
             | (_ || _)%bool => destruct b
             end
         end.
  all: try apply Hsimple.
  all: repeat (rewrite bind_lift_outcome;
               match goal with
               | |- context [match ?c with Normal _ => _ | Throw _ => _ end] =>
                   destruct c; [| reflexivity]
               end).
  all: try apply Hsimple.
  destruct (match Message.dataBytes (Event.message e) !! 0%nat with
            | Some n => 120 <=? n
            | None => false
            end).
  - match goal with
    | |- context [InputChannel._parseChannelModeMessage ?ev] =>
        destruct (_parseChannelModeMessage_outcome ev) as [[mode ->] | ->]
    end; cbn; [| reflexivity].
    eexists [mode], _. split; [reflexivity | cbn; lia].
  - cbn. eexists [], _. split; [reflexivity | cbn; lia].
Qed.

(** X17: whatever the message, the channel first emits the incoming event
    as "midimessage" with the channel as target.  If parsing then throws,
    nothing else was emitted; otherwise at most one channel mode event and
    then exactly one more event follow. *)
Theorem midimessage_is_emitted_first wm this e :
  ∃ rest outcome,
    InputChannel._processMidiMessageEvent wm this e
    = (Enumerations.midimessage this e :: rest, outcome)
    ∧ match outcome with
      | Throw _ => rest = []
      | Normal _ =>
          ∃ before last, rest = (before ++ [last])%list
                         ∧ (length before <= 1)%nat
      end.
Proof.
  unfold InputChannel._processMidiMessageEvent.
  fold (Enumerations.midimessage this e).
  pose proof (_parseEventForStandardMessages_outcome wm this
                (Enumerations.midimessage this e)) as Hparse.
  cbn.
  destruct (InputChannel._parseEventForStandardMessages wm this
              (Enumerations.midimessage this e)) as [out outcome].
  exists out, outcome. split; [reflexivity | exact Hparse].
Qed.


(** The parser after the "midimessage" event. *)
Lemma _processMidiMessageEvent_parse wm this e :
  InputChannel._processMidiMessageEvent wm this e
  = let '(out, outcome) :=
      InputChannel._parseEventForStandardMessages wm this
        (Enumerations.midimessage this e) in
    (Enumerations.midimessage this e :: out, outcome).
Proof. reflexivity. Qed.

(** X18: a message whose type is none of noteoff, noteon, keyaftertouch,
    controlchange, programchange, channelaftertouch and pitchbend, a
    missing or empty type included, yields "midimessage" and then
    "unknownmessage", and nothing else: the name "unknownmidimessage"
    given to a missing type is never the name of an emitted event. *)
Theorem other_types_emit_unknownmessage wm this e :
  (∀ known,
     known ∈ ["noteoff"; "noteon"; "keyaftertouch"; "controlchange";
              "programchange"; "channelaftertouch"; "pitchbend"] ->
     Message.type (Event.message e) ≠ Some known) ->
  InputChannel._processMidiMessageEvent wm this e
  = ([Enumerations.midimessage this e;
      Event.with_type (Some "unknownmessage")
        (Enumerations.midimessage this e)],
     Normal tt).
Proof.
  intros Hother. rewrite _processMidiMessageEvent_parse.
  unfold InputChannel._parseEventForStandardMessages.
  change (Event.message (Enumerations.midimessage this e))
    with (Event.message e).
  set (type := match Message.type (Event.message e) with
               | Some s => if String.eqb s "" then "unknownmidimessage" else s
               | None => "unknownmidimessage"
               end).
  assert (Hno : ∀ known,
    known ∈ ["noteoff"; "noteon"; "keyaftertouch"; "controlchange";
             "programchange"; "channelaftertouch"; "pitchbend"] ->
    String.eqb type known = false).
  { intros known Hknown. apply String.eqb_neq. intros Heq.
    assert (Hne : known ≠ "unknownmidimessage" ∧ known ≠ "").
    { repeat (apply elem_of_cons in Hknown as [-> | Hknown];
              [split; discriminate |]).
      by apply elem_of_nil in Hknown. }
    subst type.
    destruct (Message.type (Event.message e)) as [s |] eqn:Hs.
    - destruct (String.eqb s "") eqn:He; [by destruct Hne |].
      subst s. by apply (Hother known).
    - by destruct Hne. }
  cbv zeta.
  rewrite !Hno by (repeat ((by left) || right)).
  reflexivity.
Qed.

Lemma other_types_emit_unknownmessage_witness :
  InputChannel.names
    (InputChannel._processMidiMessageEvent Sample.webmidi Sample.channel
       (Sample.received [240; 1; 2]))
  = ["midimessage"; "unknownmessage"].
Proof.
  rewrite (other_types_emit_unknownmessage Sample.webmidi Sample.channel
             (Sample.received [240; 1; 2])).
  - reflexivity.
  - intros known Hknown.
    repeat (apply elem_of_cons in Hknown as [-> | Hknown]; [discriminate |]).
    by apply elem_of_nil in Hknown.
Defined.

(** X19: a program change yields "midimessage" and then "programchange",
    whose value is the data byte plus 1 and whose rawValue is the data
    byte. *)
Theorem programchange_value wm this e d :
  Message.type (Event.message e) = Some "programchange" ->
  Message.dataBytes (Event.message e) !! 0%nat = Some d ->
  InputChannel._processMidiMessageEvent wm this e
  = ([Enumerations.midimessage this e;
      Event.with_value (PNumber (Fin (inject_Z (d + 1))))
        (PNumber (Fin (inject_Z d)))
        (Event.with_type (Some "programchange")
           (Enumerations.midimessage this e))],
     Normal tt).
Proof.
  intros Htype Hdata. rewrite _processMidiMessageEvent_parse.
  unfold InputChannel._parseEventForStandardMessages.
  change (Event.message (Enumerations.midimessage this e))
    with (Event.message e).
  rewrite Htype, Hdata. cbn. by rewrite (Z.add_comm 1 d).
Qed.

Lemma programchange_value_witness :
  (Event.value <$>
     (InputChannel._processMidiMessageEvent Sample.webmidi Sample.channel
        (Sample.received [192; 5])).1 !! 1%nat)
  = Some (PNumber (Fin 6)).
Proof.
  rewrite (programchange_value Sample.webmidi Sample.channel
             (Sample.received [192; 5]) 5 eq_refl eq_refl).
  reflexivity.
Defined.

(** X20: with validation on, a control change whose controller number is
    missing or outside 0..127 throws a RangeError once "midimessage" has
    been emitted; no "controlchange" event is emitted. *)
Theorem controlchange_invalid_number_throws wm this e :
  WebMidi.validation wm = true ->
  Message.type (Event.message e) = Some "controlchange" ->
  (∀ n, Message.dataBytes (Event.message e) !! 0%nat = Some n ->
        n < 0 ∨ 127 < n) ->
  InputChannel._processMidiMessageEvent wm this e
  = ([Enumerations.midimessage this e], Throw RangeError).
Proof.
  intros Hvalidation Htype Hdata. rewrite _processMidiMessageEvent_parse.
  unfold InputChannel._parseEventForStandardMessages.
  change (Event.message (Enumerations.midimessage this e))
    with (Event.message e).
  rewrite Htype. cbn.
  unfold InputChannel.getCcNameByNumber. rewrite Hvalidation.
  destruct (Message.dataBytes (Event.message e) !! 0%nat) as [n |];
    [| reflexivity].
  replace ((0 <=? n) && (n <=? 127)) with false; [reflexivity |].
  symmetry. apply andb_false_iff.
  destruct (Hdata n eq_refl); [left | right]; lia.
Qed.

Lemma controlchange_invalid_number_throws_witness :
  InputChannel._processMidiMessageEvent Sample.webmidi Sample.channel
    (Sample.received [176])
  = ([Enumerations.midimessage Sample.channel (Sample.received [176])],
     Throw RangeError).
Proof.
  apply (controlchange_invalid_number_throws Sample.webmidi Sample.channel
           (Sample.received [176]) eq_refl eq_refl).
  intros n Hn. discriminate.
Defined.

(** The parser on a control change whose controller number is 120 or
    more and has the name [name] in the table. *)
Lemma controlchange_channel_mode wm this e n name :
  Message.type (Event.message e) = Some "controlchange" ->
  Message.dataBytes (Event.message e) !! 0%nat = Some n ->
  120 <= n ->
  InputChannel.getCcNameByNumber wm (Some n) = Normal name ->
  let data2 := Message.dataBytes (Event.message e) !! 1%nat in
  let cc :=
    Event.with_value (PNumber (Fin (Utilities.toNormalized (ofByte data2))))
      (byteProperty data2)
      (Event.with_controller {| Event.number := Some n; Event.name := name |}
         (Event.with_type (Some "controlchange")
            (Enumerations.midimessage this e))) in
  InputChannel._processMidiMessageEvent wm this e
  = match InputChannel._parseChannelModeMessage cc with
    | (out, Normal _) =>
        (Enumerations.midimessage this e :: out ++ [cc], Normal tt)
    | (out, Throw k) => (Enumerations.midimessage this e :: out, Throw k)
    end.
Proof.
  intros Htype Hdata Hn Hname data2 cc.
  rewrite _processMidiMessageEvent_parse.
  unfold InputChannel._parseEventForStandardMessages.
  change (Event.message (Enumerations.midimessage this e))
    with (Event.message e).
  rewrite Htype, Hdata. cbn [String.eqb Ascii.eqb Bool.eqb orb andb].
  cbv zeta. rewrite Hname.
  replace (120 <=? n) with true by (symmetry; apply Z.leb_le; lia).
  fold data2. cbn [InputChannel.lift InputChannel.bind app].
  fold cc.
  destruct (InputChannel._parseChannelModeMessage cc) as [out [[] | k]];
    cbn; [| reflexivity].
  by rewrite app_nil_r.
Qed.

(** A controller name that is not one of the five the parser rewrites
    becomes the name of the channel mode event. *)
Lemma _parseChannelModeMessage_plain e name :
  Event.controller e ≫= Event.name = Some name ->
  name ∉ ["localcontrol"; "omnimodeon"; "omnimodeoff"; "monomodeon";
          "polymodeon"] ->
  InputChannel._parseChannelModeMessage e
  = ([Event.with_type (Some name) e], Normal tt).
Proof.
  intros Hname Hother.
  assert (Hne : ∀ other,
    other ∈ ["localcontrol"; "omnimodeon"; "omnimodeoff"; "monomodeon";
             "polymodeon"] -> Some name ≠ Some other)
    by (intros other Hin [= ->]; by apply Hother).
  unfold InputChannel._parseChannelModeMessage. rewrite Hname.
  cbn [Event.type Event.with_type].
  rewrite (bool_decide_eq_false_2 (Some name = Some "localcontrol"))
    by (apply Hne; repeat ((by left) || right)).
  cbn [Event.type Event.with_type].
  rewrite (bool_decide_eq_false_2 (Some name = Some "omnimodeon"))
    by (apply Hne; repeat ((by left) || right)).
  rewrite (bool_decide_eq_false_2 (Some name = Some "omnimodeoff"))
    by (apply Hne; repeat ((by left) || right)).
  cbn [Event.type Event.with_type].
  rewrite (bool_decide_eq_false_2 (Some name = Some "monomodeon"))
    by (apply Hne; repeat ((by left) || right)).
  rewrite (bool_decide_eq_false_2 (Some name = Some "polymodeon"))
    by (apply Hne; repeat ((by left) || right)).
  reflexivity.
Qed.

(** X21: a control change whose controller number is 120 or more and has
    no name in the table throws a TypeError once "midimessage" has been
    emitted, the emitter refusing the undefined name of the channel mode
    event; the "controlchange" event is not emitted. *)
Theorem unnamed_channel_mode_throws wm this e n :
  Message.type (Event.message e) = Some "controlchange" ->
  Message.dataBytes (Event.message e) !! 0%nat = Some n ->
  120 <= n ->
  InputChannel.getCcNameByNumber wm (Some n) = Normal None ->
  InputChannel._processMidiMessageEvent wm this e
  = ([Enumerations.midimessage this e], Throw TypeError).
Proof.
  intros Htype Hdata Hn Hname.
  rewrite (controlchange_channel_mode wm this e n None Htype Hdata Hn Hname).
  reflexivity.
Qed.

Lemma unnamed_channel_mode_throws_witness :
  InputChannel._processMidiMessageEvent
    {| WebMidi.validation := true; WebMidi._octaveOffset := JInt 0;
       WebMidi.MIDI_CONTROL_CHANGE_MESSAGES := [("modulationwheelcoarse", 1)] |}
    Sample.channel (Sample.received [176; 120; 0])
  = ([Enumerations.midimessage Sample.channel (Sample.received [176; 120; 0])],
     Throw TypeError).
Proof.
  apply (unnamed_channel_mode_throws _ Sample.channel
           (Sample.received [176; 120; 0]) 120 eq_refl eq_refl).
  - lia.
  - reflexivity.
Defined.

(** X22: a control change whose controller number is 120 or more and whose
    name is not one of localcontrol, omnimodeon, omnimodeoff, monomodeon
    and polymodeon yields "midimessage", then an event named after the
    controller, then "controlchange"; the second is the third under
    another name, with the same controller and raw value. *)
Theorem channel_mode_event_has_the_controller_name wm this e n name :
  Message.type (Event.message e) = Some "controlchange" ->
  Message.dataBytes (Event.message e) !! 0%nat = Some n ->
  120 <= n ->
  InputChannel.getCcNameByNumber wm (Some n) = Normal (Some name) ->
  name ∉ ["localcontrol"; "omnimodeon"; "omnimodeoff"; "monomodeon";
          "polymodeon"] ->
  ∃ cc,
    InputChannel._processMidiMessageEvent wm this e
    = ([Enumerations.midimessage this e;
        Event.with_type (Some name) cc; cc], Normal tt)
    ∧ Event.type cc = Some "controlchange"
    ∧ Event.controller cc
      = Some {| Event.number := Some n; Event.name := Some name |}
    ∧ Event.rawValue cc
      = byteProperty (Message.dataBytes (Event.message e) !! 1%nat).
Proof.
  intros Htype Hdata Hn Hname Hother.
  rewrite (controlchange_channel_mode wm this e n (Some name) Htype Hdata Hn
             Hname).
  cbv zeta.
  match goal with
  | |- context [InputChannel._parseChannelModeMessage ?c] => exists c
  end.
  split; [| by repeat split].
  rewrite _parseChannelModeMessage_plain with (name := name);
    [reflexivity | reflexivity | exact Hother].
Qed.

Lemma channel_mode_event_has_the_controller_name_witness :
  InputChannel.names
    (InputChannel._processMidiMessageEvent Sample.webmidi Sample.channel
       (Sample.received [176; 123; 0]))
  = ["midimessage"; "allnotesoff"; "controlchange"].
Proof.
  destruct (channel_mode_event_has_the_controller_name Sample.webmidi
              Sample.channel (Sample.received [176; 123; 0]) 123
              "allnotesoff" eq_refl eq_refl) as (cc & -> & Hcc & _).
  - lia.
  - reflexivity.
  - intros Hin.
    repeat (apply elem_of_cons in Hin as [Heq | Hin]; [discriminate |]).
    by apply elem_of_nil in Hin.
  - unfold InputChannel.names. cbn. by rewrite Hcc.
Defined.

(** X23: for the controller named localcontrol the channel mode event has
    the boolean value [data[2] === 127], while the "controlchange" event
    that follows keeps the numeric value. *)
Theorem localcontrol_value_is_a_boolean wm this e n :
  Message.type (Event.message e) = Some "controlchange" ->
  Message.dataBytes (Event.message e) !! 0%nat = Some n ->
  120 <= n ->
  InputChannel.getCcNameByNumber wm (Some n) = Normal (Some "localcontrol") ->
  ∃ cc,
    InputChannel._processMidiMessageEvent wm this e
    = ([Enumerations.midimessage this e;
        Event.with_value
          (PBool (bool_decide (Message.data (Event.message e) !! 2%nat
                               = Some 127)))
          (Event.rawValue cc)
          (Event.with_type (Some "localcontrol") cc);
        cc], Normal tt)
    ∧ Event.type cc = Some "controlchange"
    ∧ Event.rawValue cc
      = byteProperty (Message.dataBytes (Event.message e) !! 1%nat).
Proof.
  intros Htype Hdata Hn Hname.
  rewrite (controlchange_channel_mode wm this e n (Some "localcontrol") Htype
             Hdata Hn Hname).
  cbv zeta.
  match goal with
  | |- context [InputChannel._parseChannelModeMessage ?c] => exists c
  end.
  split; [| by repeat split]. reflexivity.
Qed.

Lemma localcontrol_value_is_a_boolean_witness :
  (Event.value <$>
     (InputChannel._processMidiMessageEvent Sample.webmidi Sample.channel
        (Sample.received [176; 122; 127])).1 !! 1%nat)
  = Some (PBool true).
Proof.
  destruct (localcontrol_value_is_a_boolean Sample.webmidi Sample.channel
              (Sample.received [176; 122; 127]) 122 eq_refl eq_refl)
    as (cc & -> & _).
  - lia.
  - reflexivity.
  - reflexivity.
Defined.

(** ** getChannelModeByNumber *)

Lemma firstChannelMode_Some table number cm :
  InputChannel.firstChannelMode table number = Some cm ->
  ∃ q v, number = Fin q ∧ (cm, v) ∈ table ∧ q == inject_Z v.
Proof.
  induction table as [| [name v] table IH]; [discriminate |].
  cbn [InputChannel.firstChannelMode].
  destruct number as [q | | |].
  - destruct (Qeq_bool q (inject_Z v)) eqn:Heq.
    + intros [= ->]. exists q, v. split; [reflexivity |].
      split; [left | by apply Qeq_bool_iff].
    + intros Hrest. destruct (IH Hrest) as (q' & v' & Hq & Hin & Hv).
      exists q', v'. split; [exact Hq |]. split; [by right | exact Hv].
  - intros Hrest. by destruct (IH Hrest) as (q' & v' & Hq & _).
  - intros Hrest. by destruct (IH Hrest) as (q' & v' & Hq & _).
  - intros Hrest. by destruct (IH Hrest) as (q' & v' & Hq & _).
Qed.

(** X24: getChannelModeByNumber returns a name only for a number that is,
    after Math.floor when validation is on, an integer between 120 and 127
    held by that name in the table; NaN and the infinities give false. *)
Theorem getChannelModeByNumber_gives_a_channel_mode wm table number cm :
  InputChannel.getChannelModeByNumber wm table number = Some cm ->
  ∃ q v,
    number = Fin q
    ∧ (cm, v) ∈ table
    ∧ 120 <= v <= 127
    ∧ if WebMidi.validation wm then Qfloor q = v else q == inject_Z v.
Proof.
  unfold InputChannel.getChannelModeByNumber.
  set (number' := if WebMidi.validation wm then InputChannel.floor number
                  else number).
  destruct (InputChannel.isChannelModeNumber number') eqn:Hrange;
    [| discriminate].
  cbn [negb]. intros Hfirst.
  destruct (firstChannelMode_Some _ _ _ Hfirst) as (q' & v & Hq' & Hin & Hv).
  rewrite Hq' in Hrange. cbn in Hrange.
  apply andb_true_iff in Hrange as [Hlo Hhi].
  apply Qle_bool_iff in Hlo, Hhi. rewrite Hv in Hlo, Hhi.
  assert (Hbounds : 120 <= v <= 127).
  { unfold Qle in Hlo, Hhi. cbn in Hlo, Hhi. lia. }
  subst number'. destruct (WebMidi.validation wm).
  - destruct number as [q | | |]; try discriminate.
    injection Hq' as <-.
    assert (Hfloor : Qfloor q = v) by (unfold Qeq in Hv; cbn in Hv; lia).
    exists q, v. split; [reflexivity |]. split; [exact Hin |].
    split; [exact Hbounds | exact Hfloor].
  - exists q', v. split; [exact Hq' |]. split; [exact Hin |].
    split; [exact Hbounds | exact Hv].
Qed.

Lemma getChannelModeByNumber_gives_a_channel_mode_witness :
  ∃ q v,
    Fin (245 # 2) = Fin q
    ∧ ("localcontrol", v) ∈ [("allsoundoff", 120); ("localcontrol", 122)]
    ∧ 120 <= v <= 127
    ∧ Qfloor q = v.
Proof.
  exact (getChannelModeByNumber_gives_a_channel_mode Sample.webmidi
           [("allsoundoff", 120); ("localcontrol", 122)] (Fin (245 # 2))
           "localcontrol" eq_refl).
Defined.

(** * Properties of the port lookups *)

Lemma toString_truthy v :
  truthy v = true -> Ports.toString v = Normal (ToString v).
Proof. by destruct v. Qed.

Lemma findById_first ports v :
  truthy v = true ->
  Ports.findById ports v
  = Normal (snd <$> list_find (fun port => Ports.id port = ToString v) ports).
Proof.
  intros Hv. induction ports as [| port ports IH]; [reflexivity |].
  cbn [Ports.findById list_find]. rewrite (toString_truthy v Hv). cbn.
  destruct (String.eqb (Ports.id port) (ToString v)) eqn:Heq.
  - apply String.eqb_eq in Heq. by rewrite decide_True.
  - apply String.eqb_neq in Heq. rewrite decide_False by done.
    rewrite IH. f_equal.
    by destruct (list_find _ ports) as [[] |].
Qed.

(** X25: on an enabled WebMidi and for a truthy id, getInputById and
    getOutputById with an options object return the first port of the list
    (the disconnected ones when options.disconnected is set) whose id is
    the string of the id, and undefined when there is none. *)
Theorem lookup_by_id_finds_the_first_match this v o :
  Ports.enabled this = true ->
  truthy v = true ->
  Ports.getInputById this v (Some o)
  = Normal
      (snd <$> list_find (fun port => Ports.id port = ToString v)
                 (if Ports.disconnected o then Ports._disconnectedInputs this
                  else Ports.inputs this))
  ∧ Ports.getOutputById this v (Some o)
    = Normal
        (snd <$> list_find (fun port => Ports.id port = ToString v)
                   (if Ports.disconnected o
                    then Ports._disconnectedOutputs this
                    else Ports.outputs this)).
Proof.
  intros Henabled Hv.
  unfold Ports.getInputById, Ports.getOutputById.
  rewrite Henabled, Hv, !andb_false_r.
  destruct (Ports.disconnected o); split; by apply findById_first.
Qed.

Lemma lookup_by_id_finds_the_first_match_witness :
  Ports.getInputById
    {| Ports.validation := true; Ports.interface := Some 0%nat;
       Ports._inputs := [{| Ports.id := "7"; Ports.name := "Keys" |};
                         {| Ports.id := "12"; Ports.name := "Pads" |};
                         {| Ports.id := "12"; Ports.name := "Drums" |}];
       Ports._disconnectedInputs := []; Ports._outputs := [];
       Ports._disconnectedOutputs := [] |}
    (JInt 12) (Some {| Ports.disconnected := false |})
  = Normal (Some {| Ports.id := "12"; Ports.name := "Pads" |}).
Proof.
  destruct (lookup_by_id_finds_the_first_match
              {| Ports.validation := true; Ports.interface := Some 0%nat;
                 Ports._inputs := [{| Ports.id := "7"; Ports.name := "Keys" |};
                                   {| Ports.id := "12"; Ports.name := "Pads" |};
                                   {| Ports.id := "12"; Ports.name := "Drums" |}];
                 Ports._disconnectedInputs := []; Ports._outputs := [];
                 Ports._disconnectedOutputs := [] |}
              (JInt 12) {| Ports.disconnected := false |} eq_refl eq_refl)
    as [-> _].
  reflexivity.
Defined.

(** X26: the four port lookups check in this order: with validation on, a
    WebMidi that is not enabled throws an Error whatever the arguments,
    and a falsy id or name then returns undefined, even without options;
    in every other case a call without the options object throws a
    TypeError (options.disconnected is read). *)
Theorem lookups_check_in_order this v options :
  (Ports.validation this = true -> Ports.enabled this = false ->
   Ports.getInputById this v options = Throw Error
   ∧ Ports.getInputByName this v options = Throw Error
   ∧ Ports.getOutputById this v options = Throw Error
   ∧ Ports.getOutputByName this v options = Throw Error)
  ∧ (Ports.validation this = true -> Ports.enabled this = true ->
     truthy v = false ->
     Ports.getInputById this v options = Normal None
     ∧ Ports.getInputByName this v options = Normal None
     ∧ Ports.getOutputById this v options = Normal None
     ∧ Ports.getOutputByName this v options = Normal None)
  ∧ ((Ports.validation this = true ->
      Ports.enabled this = true ∧ truthy v = true) ->
     options = None ->
     Ports.getInputById this v options = Throw TypeError
     ∧ Ports.getInputByName this v options = Throw TypeError
     ∧ Ports.getOutputById this v options = Throw TypeError
     ∧ Ports.getOutputByName this v options = Throw TypeError).
Proof.
  unfold Ports.getInputById, Ports.getInputByName, Ports.getOutputById,
    Ports.getOutputByName.
  split; [| split].
  - intros -> ->. by repeat split.
  - intros -> -> ->. by repeat split.
  - intros Hguard ->.
    destruct (Ports.validation this); [| by repeat split].
    destruct Hguard as [-> ->]; by repeat split.
Qed.

Lemma lookups_check_in_order_witness :
  Ports.getInputById
    {| Ports.validation := true; Ports.interface := Some 0%nat;
       Ports._inputs := [{| Ports.id := "7"; Ports.name := "Keys" |}];
       Ports._disconnectedInputs := []; Ports._outputs := [];
       Ports._disconnectedOutputs := [] |}
    (JString "7") None
  = Throw TypeError.
Proof.
  destruct (lookups_check_in_order
              {| Ports.validation := true; Ports.interface := Some 0%nat;
                 Ports._inputs := [{| Ports.id := "7"; Ports.name := "Keys" |}];
                 Ports._disconnectedInputs := []; Ports._outputs := [];
                 Ports._disconnectedOutputs := [] |}
              (JString "7") None) as (_ & _ & Hmissing).
  by destruct (Hmissing ltac:(by split) eq_refl) as [-> _].
Defined.

Lemma contains_substring port s :
  s ≠ "" ->
  Ports.contains port (JString s) = true
  <-> ∃ m, substring m (String.length s) (Ports.name port) = s.
Proof.
  intros Hs. unfold Ports.contains. cbn [ToString].
  destruct (String.index 0 s (Ports.name port)) as [m |] eqn:Hindex.
  - split; [intros _ | done]. exists m. by apply (index_correct1 0).
  - split; [discriminate |]. intros [m Hm].
    by destruct (index_correct3 0 m s (Ports.name port) Hindex Hs
                   ltac:(apply Nat.le_0_l)).
Qed.

Lemma findByName_first ports v :
  Ports.findByName ports v
  = snd <$> list_find (fun port => Ports.contains port v = true) ports.
Proof.
  induction ports as [| port ports IH]; [reflexivity |].
  cbn [Ports.findByName list_find].
  destruct (Ports.contains port v) eqn:Hc.
  - by rewrite decide_True.
  - rewrite decide_False by (by intros ?). rewrite IH.
    by destruct (list_find _ ports) as [[] |].
Qed.

(** X27: on an enabled WebMidi and for a non-empty string, getInputByName
    and getOutputByName with an options object return the first port of
    the list (the disconnected ones when options.disconnected is set)
    whose name contains the string, at any position and with the same
    case, and undefined when there is none. *)
Theorem lookup_by_name_finds_the_first_containing this s o :
  Ports.enabled this = true ->
  s ≠ "" ->
  Ports.getInputByName this (JString s) (Some o)
  = Normal
      (snd <$> list_find
                 (fun port =>
                    Ports.contains port (JString s) = true)
                 (if Ports.disconnected o then Ports._disconnectedInputs this
                  else Ports.inputs this))
  ∧ Ports.getOutputByName this (JString s) (Some o)
    = Normal
        (snd <$> list_find
                   (fun port =>
                      Ports.contains port (JString s) = true)
                   (if Ports.disconnected o
                    then Ports._disconnectedOutputs this
                    else Ports.outputs this))
  ∧ ∀ port,
      Ports.contains port (JString s) = true
      <-> ∃ m, substring m (String.length s) (Ports.name port) = s.
Proof.
  intros Henabled Hs.
  unfold Ports.getInputByName, Ports.getOutputByName.
  rewrite Henabled, !andb_false_r.
  assert (Htruthy : truthy (JString s) = true).
  { cbn. apply negb_true_iff. by apply String.eqb_neq. }
  rewrite Htruthy, !andb_false_r.
  split; [| split].
  - destruct (Ports.disconnected o); by rewrite findByName_first.
  - destruct (Ports.disconnected o); by rewrite findByName_first.
  - intros port. by apply contains_substring.
Qed.

Lemma lookup_by_name_finds_the_first_containing_witness :
  Ports.getOutputByName
    {| Ports.validation := true; Ports.interface := Some 0%nat;
       Ports._inputs := []; Ports._disconnectedInputs := [];
       Ports._outputs := [{| Ports.id := "7"; Ports.name := "Keys" |};
                          {| Ports.id := "9"; Ports.name := "Drum pads" |};
                          {| Ports.id := "12"; Ports.name := "Pads" |}];
       Ports._disconnectedOutputs := [] |}
    (JString "pad") (Some {| Ports.disconnected := false |})
  = Normal (Some {| Ports.id := "9"; Ports.name := "Drum pads" |}).
Proof.
  destruct (lookup_by_name_finds_the_first_containing
              {| Ports.validation := true; Ports.interface := Some 0%nat;
                 Ports._inputs := []; Ports._disconnectedInputs := [];
                 Ports._outputs :=
                   [{| Ports.id := "7"; Ports.name := "Keys" |};
                    {| Ports.id := "9"; Ports.name := "Drum pads" |};
                    {| Ports.id := "12"; Ports.name := "Pads" |}];
                 Ports._disconnectedOutputs := [] |}
              "pad" {| Ports.disconnected := false |} eq_refl)
    as (_ & -> & _); [discriminate |].
  reflexivity.
Defined.
